(** * DHSD dataset statistics and integrity checker

    A shallow embedding of [dataset_statistics.py]: the statistics
    aggregator [compute_statistics], the per-writer splitter
    [stratified_split], the existence verifier [verify_images] and the
    checksum generator [generate_checksums], followed by the properties
    of these four functions.

    Python values are modelled as follows.
    - [str] is a list of Unicode code points ([N]); [len] counts code
      points and [set(s)] is a set of code points, as in Python 3.
    - [int] is [Z]; [float] is an IEEE-754 binary64 number, taken from
      the standard library's executable specification [SpecFloat] with
      [prec = 53] and [emax = 1024] (round to nearest, ties to even).
    - a raised exception is a value [Raise e] of the [result] monad; the
      exception is identified by the name of its class.
    - [dict] keyed by writer id is a [gmap]; [set] is a [gset];
      [collections.Counter] is an association list in first-insertion
      order, which is the order a Python [dict] iterates in.
    - the console and the files written are components of an explicit
      [world] that the I/O procedures thread through.

    Three services of the Python runtime are parameters of the
    development rather than definitions: the numeral parser behind
    [int(str)], the SHA-256 digest, and the Mersenne Twister behind
    [random.Random]; see [Runtime] and [RandomGen].

    The manifest loader [load_annotations], the report
    [print_statistics], the split writer [write_split_csv] and [main]
    are embedded after these four, together with the parts of the
    standard library that they rest on: the UTF-8 codec, universal
    newlines, the reader and the writer of the [csv] module in the
    dialect [excel], the format [.1f] and [Counter.most_common].  Their
    properties, and more on the four functions above, are in the part on
    further properties. *)

From Stdlib Require Import ZArith Lia String Ascii Strings.Byte.
From Stdlib Require Import SpecFloat DecimalString.
From stdpp Require Import base option list list_monad gmap sets sorting.

Local Open Scope Z_scope.

(** ** Strings *)

Abbreviation char := N (only parsing).
Abbreviation str := (list N) (only parsing).
Abbreviation bytes := (list byte) (only parsing).

(** The code points of an ASCII literal. *)
Definition u (s : string) : str :=
  (λ a, N_of_ascii a) <$> list_ascii_of_string s.

(** [str(n)] for an [int], as an f-string renders it. *)
Definition str_of_int (n : Z) : str :=
  u (NilZero.string_of_int (Z.to_int n)).

(** [sep.join(xs)] *)
Fixpoint join (sep : str) (xs : list str) : str :=
  match xs with
  | [] => []
  | [x] => x
  | x :: xs' => x ++ sep ++ join sep xs'
  end.

(** [s * n] for a string [s]. *)
Definition str_repeat (s : str) (n : nat) : str := mjoin (replicate n s).

Definition len {A} (l : list A) : Z := Z.of_nat (length l).

(** ** Exceptions and the result monad *)

Inductive exn : Type := Exn (cls : string).

Definition ValueError : exn := Exn "ValueError".
Definition OverflowError : exn := Exn "OverflowError".
Definition ZeroDivisionError : exn := Exn "ZeroDivisionError".
Definition KeyError : exn := Exn "KeyError".
Definition IndexError : exn := Exn "IndexError".
Definition OSError : exn := Exn "OSError".

(** The two error kinds that the specification names for the aggregator
    and the splitter.  No statement of the program raises them. *)
Definition EmptyDatasetError : exn := Exn "EmptyDatasetError".
Definition InvalidRatioError : exn := Exn "InvalidRatioError".

Inductive result (A : Type) : Type :=
  | Return (a : A)
  | Raise (e : exn).
Arguments Return {A} a.
Arguments Raise {A} e.

#[global] Instance result_ret : MRet result := λ A a, Return a.
#[global] Instance result_bind : MBind result := λ A B f m,
  match m with
  | Return a => f a
  | Raise e => Raise e
  end.

Definition returns {A} (m : result A) : Prop := ∃ a, m = Return a.

(** ** Integers and floats *)

Definition py_sum (xs : list Z) : Z := foldl Z.add 0 xs.

(** [min(xs)] and [max(xs)]: [ValueError] on an empty sequence. *)
Definition py_min (xs : list Z) : result Z :=
  match xs with
  | [] => Raise ValueError
  | x :: xs' => Return (foldl Z.min x xs')
  end.

Definition py_max (xs : list Z) : result Z :=
  match xs with
  | [] => Raise ValueError
  | x :: xs' => Return (foldl Z.max x xs')
  end.

(** [sorted(xs)] on integers and on characters. *)
Definition sorted_int (xs : list Z) : list Z := merge_sort Z.le xs.
Definition sorted_chars (xs : list N) : list N := merge_sort N.le xs.

Abbreviation float := spec_float (only parsing).

Module Float.

Definition prec : Z := 53.
Definition emax : Z := 1024.

Definition zero : float := S754_zero false.
(** [1.0], which is also what the [int] 1 converts to. *)
Definition one : float := S754_finite false 4503599627370496 (-52).

Definition valid (x : float) : bool := valid_binary prec emax x.

Definition sub (x y : float) : float := SFsub prec emax x y.
Definition mul (x y : float) : float := SFmul prec emax x y.
Definition ltb (x y : float) : bool := SFltb x y.

(** Conversion of an [int] operand of a mixed [int]/[float] operation:
    correctly rounded, [OverflowError] beyond the float range. *)
Definition of_int (n : Z) : result float :=
  match binary_normalize prec emax n 0 false with
  | S754_infinity _ => Raise OverflowError
  | x => Return x
  end.

(** [int(x)]: truncation toward zero; [ValueError] on NaN and
    [OverflowError] on an infinity. *)
Definition to_int (x : float) : result Z :=
  match x with
  | S754_nan => Raise ValueError
  | S754_infinity _ => Raise OverflowError
  | S754_zero _ => Return 0
  | S754_finite s m e =>
      Return (cond_Zopp s
                (match e with
                 | Zneg k => Zpos m / 2 ^ Zpos k
                 | _ => Zpos m * 2 ^ e
                 end))
  end.

(** [a / b] on two [int]s: the correctly rounded quotient. *)
Definition int_true_div (a b : Z) : result float :=
  if b =? 0 then Raise ZeroDivisionError
  else if a =? 0 then Return (S754_zero (b <? 0))
  else
    let '(q, e, l) := SFdiv_core_binary prec emax (Z.abs a) 0 (Z.abs b) 0 in
    match binary_round_aux prec emax (xorb (a <? 0) (b <? 0)) q e l with
    | S754_infinity _ => Raise OverflowError
    | x => Return x
    end.

(** [n * x] with [n] an [int] and [x] a [float]. *)
Definition int_mul (n : Z) (x : float) : result float :=
  fn ← of_int n; mret (mul fn x).

(** [1 - x] *)
Definition one_minus (x : float) : float := sub one x.

Definition eqb (x y : float) : bool := SFeqb x y.

(** The open interval (0, 1) of valid binary64 numbers. *)
Definition in_unit_interval (x : float) : Prop :=
  valid x = true ∧ ltb zero x = true ∧ ltb x one = true.

(** Neither an infinity nor a NaN. *)
Definition is_finite (x : float) : Prop :=
  match x with
  | S754_zero _ | S754_finite _ _ _ => True
  | _ => False
  end.

(** What [k] applications of [shr_1] to a record of mantissa [m0] yield;
    [exact] tells whether the record started without round and sticky
    bits. *)
Definition shr_inv (m0 : Z) (exact : bool) (k : Z) (st : shr_record) : Prop :=
  shr_m st = m0 / 2 ^ k ∧
  (exact = true → m0 mod 2 ^ k = 0 → shr_r st = false ∧ shr_s st = false).

(** [bounded N x]: [x] is zero, or positive with an exponent that is not
    positive and a value [m * 2 ^ e] of at most [N]. *)
Definition bounded (N : Z) (x : float) : Prop :=
  match x with
  | S754_zero _ => True
  | S754_finite false m e => e ≤ 0 ∧ Zpos m ≤ N * 2 ^ (- e)
  | _ => False
  end.

End Float.

(** ** Slices and element swaps on lists *)

(** [x[:k]] *)
Definition slice_to {A} (x : list A) (k : Z) : list A :=
  if k <? 0 then take (Z.to_nat (len x + k)) x else take (Z.to_nat k) x.

(** [x[k:]] *)
Definition slice_from {A} (x : list A) (k : Z) : list A :=
  if k <? 0 then drop (Z.to_nat (len x + k)) x else drop (Z.to_nat k) x.

(** [x[i], x[j] = x[j], x[i]] for indices [i], [j] that are not negative. *)
Definition swap {A} (x : list A) (i j : nat) : result (list A) :=
  match x !! j, x !! i with
  | Some b, Some a => Return (<[j := a]> (<[i := b]> x))
  | _, _ => Raise IndexError
  end.

(** ** collections.Counter *)

Section Counter.
Context {K : Type} `{EqDecision K}.

(** [c[k] = c.get(k, 0) + 1]: an existing key keeps its position, a new
    key goes last. *)
Fixpoint counter_incr (k : K) (c : list (K * Z)) : list (K * Z) :=
  match c with
  | [] => [(k, 1)]
  | (k', n) :: c' =>
      if decide (k = k') then (k', n + 1) :: c'
      else (k', n) :: counter_incr k c'
  end.

Definition Counter (xs : list K) : list (K * Z) :=
  foldl (λ c x, counter_incr x c) [] xs.

Definition keys (c : list (K * Z)) : list K := c.*1.
Definition values (c : list (K * Z)) : list Z := c.*2.
End Counter.


(** ** Loops *)

(** [for x in xs: s = body(s, x)] in a monad: the loop stops at the first
    exception. *)
Fixpoint for_each `{MBind M, MRet M} {A S : Type}
    (xs : list A) (s : S) (body : S → A → M S) : M S :=
  match xs with
  | [] => mret s
  | x :: xs' => s' ← body s x; for_each xs' s' body
  end.

(** ** The services of the Python runtime *)

(** [py_int s] is the value of [int(s)] for a [str], and [None] when
    [int] raises [ValueError]; [sha256_hexdigest b] is
    [hashlib.sha256(b).hexdigest()]. *)
Class Runtime : Type := {
  py_int : str → option Z;
  sha256_hexdigest : bytes → str
}.

(** [random.Random]: [Random seed] is the generator state after seeding,
    and [randbelow g n] is [g._randbelow(n)], a number below [n] together
    with the next state. *)
Class RandomGen : Type := {
  rng : Type;
  Random : Z → rng;
  randbelow : rng → nat → nat * rng;
  randbelow_lt : ∀ g n, (0 < n)%nat → (fst (randbelow g n) < n)%nat
}.

(** ** Configuration *)

Definition RANDOM_SEED : Z := 42.

(** [0.20], the binary64 number nearest to one fifth. *)
Definition TEST_RATIO : float := S754_finite false 7205759403792794 (-55).

(** The characters of ["äöüÄÖÜß"]. *)
Definition GERMAN_SPECIAL : gset N :=
  list_to_set [228; 246; 252; 196; 214; 220; 223]%N.

(** Paths are written relative to [BASE_DIR]: [in_base_dir name] stands
    for [BASE_DIR / name]. *)
Definition in_base_dir (name : str) : str := name.

Definition CSV_PATH : str := in_base_dir (u "data.csv").

(** ** Records *)

(** One row of [data.csv], as [csv.DictReader] yields it: three string
    fields. *)
Record Row : Type := {
  file_name : str;
  text : str;
  writer_id : str
}.

#[global] Instance Row_eq_dec : EqDecision Row.
Proof. solve_decision. Defined.

(** ** Statistics *)

Record Statistics : Type := {
  total_images : Z;
  total_writers : Z;
  unique_words : Z;
  writer_counts : list (Z * Z);
  min_words_per_writer : Z;
  max_words_per_writer : Z;
  avg_words_per_writer : float;
  german_chars_present : list N;
  german_chars_missing : list N;
  char_freq : list (N * Z);
  avg_word_length : float;
  min_word_length : Z;
  max_word_length : Z;
  writer_ids_sorted : list Z
}.

Section Program.
Context `{RT : Runtime} `{RG : RandomGen}.

(** [int(s)] *)
Definition int (s : str) : result Z :=
  match py_int s with
  | Some n => Return n
  | None => Raise ValueError
  end.

Definition compute_statistics (rows : list Row) : result Statistics :=
  let texts := text <$> rows in
  writer_ids ← mapM (λ r, int (writer_id r)) rows;
  let writer_counts := Counter writer_ids in
  let unique_texts : gset (list N) := list_to_set texts in
  let all_chars : gset N := list_to_set (mjoin texts) in
  let german_chars_present := GERMAN_SPECIAL ∩ all_chars in
  let german_chars_missing := GERMAN_SPECIAL ∖ all_chars in
  let char_freq := Counter (mjoin texts) in
  let lengths := len <$> texts in
  min_w ← py_min (values writer_counts);
  max_w ← py_max (values writer_counts);
  avg_w ← Float.int_true_div (py_sum (values writer_counts)) (len writer_counts);
  avg_l ← Float.int_true_div (py_sum lengths) (len lengths);
  min_l ← py_min lengths;
  max_l ← py_max lengths;
  mret {|
    total_images := len rows;
    total_writers := len writer_counts;
    unique_words := Z.of_nat (size unique_texts);
    writer_counts := writer_counts;
    min_words_per_writer := min_w;
    max_words_per_writer := max_w;
    avg_words_per_writer := avg_w;
    german_chars_present := sorted_chars (elements german_chars_present);
    german_chars_missing := sorted_chars (elements german_chars_missing);
    char_freq := char_freq;
    avg_word_length := avg_l;
    min_word_length := min_l;
    max_word_length := max_l;
    writer_ids_sorted := sorted_int (keys writer_counts)
  |}.

(** ** Train / test split *)

(** [rng.shuffle(x)]:
    [for i in reversed(range(1, len(x))): j = randbelow(i + 1);
     x[i], x[j] = x[j], x[i]]. *)
Definition shuffle_step {A} (s : list A * rng) (i : nat) : result (list A * rng) :=
  let '(x, g) := s in
  let '(j, g) := randbelow g (i + 1) in
  x ← swap x i j;
  mret (x, g).

Definition shuffle {A} (g : rng) (x : list A) : result (list A * rng) :=
  for_each (reverse (seq 1 (length x - 1))) (x, g) shuffle_step.

(** The first loop, and its body
    [by_writer.setdefault(wid, []).append(r)]. *)
Definition setdefault_append (by_writer : gmap Z (list Row)) (r : Row)
    : result (gmap Z (list Row)) :=
  wid ← int (writer_id r);
  mret (<[wid := default [] (by_writer !! wid) ++ [r]]> by_writer).

Definition group_by_writer (rows : list Row) : result (gmap Z (list Row)) :=
  for_each rows ∅ setdefault_append.

(** [by_writer[wid]] *)
Definition getitem (by_writer : gmap Z (list Row)) (wid : Z) : result (list Row) :=
  match by_writer !! wid with
  | Some samples => Return samples
  | None => Raise KeyError
  end.

(** [max(1, int(n * (1 - test_ratio)))] *)
Definition split_index (n : Z) (test_ratio : float) : result Z :=
  x ← Float.int_mul n (Float.one_minus test_ratio);
  k ← Float.to_int x;
  mret (Z.max 1 k).

(** The second loop, over [sorted(by_writer)], and its body; the
    generator is threaded from one writer to the next. *)
Definition split_writer (by_writer : gmap Z (list Row)) (test_ratio : float)
    (s : list Row * list Row * rng) (wid : Z)
    : result (list Row * list Row * rng) :=
  let '(train, test, g) := s in
  samples ← getitem by_writer wid;
  '(samples, g) ← shuffle g samples;
  split_idx ← split_index (len samples) test_ratio;
  mret (train ++ slice_to samples split_idx,
        test ++ slice_from samples split_idx, g).

Definition split_groups (by_writer : gmap Z (list Row)) (wids : list Z)
    (test_ratio : float) (g : rng) : result (list Row * list Row * rng) :=
  for_each wids ([], [], g) (split_writer by_writer test_ratio).

Definition stratified_split (rows : list Row) (test_ratio : float) (seed : Z)
    : result (list Row * list Row) :=
  let g := Random seed in
  by_writer ← group_by_writer rows;
  '(train, test, _) ←
    split_groups by_writer (sorted_int (elements (dom by_writer))) test_ratio g;
  mret (train, test).

End Program.

(** ** The file system and the console *)

(** [is_file p] is [p.is_file()], taken not to raise; [read_bytes p] is
    the content that [p.read_bytes()] returns, and [None] when the read
    raises [OSError].  [stdout] holds what each [print] call emitted,
    [written] the files written, both oldest first. *)
Record world : Type := World {
  is_file : str → bool;
  read_bytes : str → option bytes;
  stdout : list str;
  written : list (str * str)
}.

Definition io (A : Type) : Type := world → result A * world.

#[global] Instance io_ret : MRet io := λ A a w, (Return a, w).
#[global] Instance io_bind : MBind io := λ A B f m w,
  match m w with
  | (Return a, w') => f a w'
  | (Raise e, w') => (Raise e, w')
  end.

Definition path_is_file (p : str) : io bool := λ w, (Return (is_file w p), w).

Definition path_read_bytes (p : str) : io bytes := λ w,
  match read_bytes w p with
  | Some b => (Return b, w)
  | None => (Raise OSError, w)
  end.

(** [print(s, end=e)] *)
Definition print_end (s e : str) : io unit := λ w,
  (Return (), World (is_file w) (read_bytes w) (stdout w ++ [s ++ e]) (written w)).

(** [print(s)] *)
Definition print (s : str) : io unit := print_end s [10%N].

(** [with open(p, "w", encoding="utf-8") as f: f.write(s)]; opening and
    writing are taken to succeed. *)
Definition write_text (p s : str) : io unit := λ w,
  (Return (), World (is_file w) (read_bytes w) (stdout w) (written w ++ [(p, s)])).

Definition print_section (title : str) : io unit :=
  print ([10%N] ++ str_repeat (u "=") 60);;
  print (u "  " ++ title);;
  print (str_repeat (u "=") 60).

(** ** Verification *)

(** The loop of [verify_images] that fills the list [missing], and its
    body. *)
Definition check_image (missing : list str) (r : Row) : io (list str) :=
  let img_path := in_base_dir (file_name r) in
  present ← path_is_file img_path;
  mret (if (present : bool) then missing else missing ++ [file_name r]).

Definition find_missing (rows : list Row) : io (list str) :=
  for_each rows [] check_image.

(** The report of a non-empty [missing] list. *)
Definition report_missing (missing : list str) : io unit :=
  print (u "  " ++ [10007%N] ++ u " " ++ str_of_int (len missing)
           ++ u " image(s) NOT FOUND:");;
  for_each (M := io) (slice_to missing 20) () (λ _ m, print (u "      " ++ m));;
  if 20 <? len missing
  then print (u "      ... and " ++ str_of_int (len missing - 20) ++ u " more.")
  else mret ().

Definition verify_images (rows : list Row) : io bool :=
  print_section (u "Image Verification");;
  missing ← find_missing rows;
  match missing with
  | _ :: _ => report_missing missing;; mret false
  | [] =>
      print (u "  " ++ [10003%N] ++ u " All " ++ str_of_int (len rows)
               ++ u " images verified.");;
      mret true
  end.

(** ** Checksums *)

Section Checksums.
Context `{RT : Runtime}.

(** [enumerate(rows, 1)] *)
Definition enumerate1 {A} (xs : list A) : list (Z * A) :=
  zip (seqZ 1 (len xs)) xs.

(** The loop of [generate_checksums] over the images, and its body. *)
Definition checksum_image (total : Z) (entries : list str) (ir : Z * Row)
    : io (list str) :=
  let '(i, r) := ir in
  let img_path := in_base_dir (file_name r) in
  present ← path_is_file img_path;
  entries ←
    (if (present : bool)
     then b ← path_read_bytes img_path;
          mret (entries ++ [sha256_hexdigest b ++ u "  " ++ file_name r])
     else mret entries);
  (if (i mod 1000 =? 0) || (i =? total)
   then print_end (u "  Processed " ++ str_of_int i ++ u "/"
                     ++ str_of_int total ++ u " files ...") [13%N]
   else mret ());;
  mret entries.

Definition checksum_images (rows : list Row) (entries : list str) : io (list str) :=
  let total := len rows in
  for_each (enumerate1 rows) entries (checksum_image total).

Definition generate_checksums (rows : list Row) : io unit :=
  print_section (u "Generating SHA-256 Checksums");;
  let checksum_path := in_base_dir (u "checksums.sha256") in
  csv ← path_read_bytes CSV_PATH;
  let entries := [sha256_hexdigest csv ++ u "  data.csv"] in
  entries ← checksum_images rows entries;
  print [];;
  write_text checksum_path (join [10%N] entries ++ [10%N]);;
  print (u "  " ++ [10003%N] ++ u " Wrote " ++ str_of_int (len entries)
           ++ u " checksums " ++ [8594%N] ++ u " checksums.sha256").

End Checksums.


(** ** Vocabulary of the properties *)

Section Vocabulary.
Context `{RT : Runtime}.

(** Every [writer_id] field is a numeral that [int] accepts. *)
Definition int_ids (rows : list Row) : Prop :=
  Forall (λ r, is_Some (py_int (writer_id r))) rows.

(** The records of writer [w] among [rows], in the order of [rows]. *)
Definition samples_of (w : Z) (rows : list Row) : list Row :=
  filter (λ r, py_int (writer_id r) = Some w) rows.

(** The number of records plus the number of characters of all labels. *)
Definition dataset_size (rows : list Row) : Z :=
  len rows + py_sum (len <$> (text <$> rows)).

End Vocabulary.

(** [prints_only m a]: on every disk, [m] returns [a] and changes nothing
    but the console. *)
Definition prints_only {A} (m : io A) (a : A) : Prop :=
  ∀ isf rd out wr, ∃ out',
    m (World isf rd out wr) = (Return a, World isf rd out' wr).

(** The names that [find_missing] collects on the disk of [w]. *)
Definition missing_names (w : world) (rows : list Row) : list (list N) :=
  file_name <$> filter (λ r, is_file w (in_base_dir (file_name r)) = false) rows.

Section DiskVocabulary.
Context `{RT : Runtime}.

(** The lines that [checksum_images] appends on the disk of [w]. *)
Definition checksum_lines (w : world) (rows : list Row) : list (list N) :=
  (λ r, sha256_hexdigest (default [] (read_bytes w (in_base_dir (file_name r))))
          ++ u "  " ++ file_name r)
  <$> filter (λ r, is_file w (in_base_dir (file_name r)) = true) rows.

(** No image that exists is unreadable. *)
Definition images_readable (w : world) (rows : list Row) : Prop :=
  Forall (λ r, is_file w (in_base_dir (file_name r)) = true →
               is_Some (read_bytes w (in_base_dir (file_name r)))) rows.

End DiskVocabulary.

(** Two worlds with the same disk: the same files exist with the same
    content, and the same files have been written. *)
Definition same_files (w w' : world) : Prop :=
  is_file w' = is_file w ∧ read_bytes w' = read_bytes w ∧
  written w' = written w.

(** ** Text files *)

Definition UnicodeDecodeError : exn := Exn "UnicodeDecodeError".

(** [csv.Error] *)
Definition csv_Error : exn := Exn "Error".

(** [sys.exit(1)] raises [SystemExit]; 1 is the only exit status that
    the program sets. *)
Definition SystemExit : exn := Exn "SystemExit".

(** A computation without effect, as a step of a procedure. *)
Definition lift {A} (m : result A) : io A := λ w, (m, w).

(** The value of a continuation byte [10xxxxxx], if [b] is one. *)
Definition continuation (b : byte) : option N :=
  let n := Byte.to_N b in
  if ((128 <=? n) && (n <=? 191))%N then Some (n - 128)%N else None.

(** [b.decode("utf-8")] with the [strict] error handler: [None] stands
    for [UnicodeDecodeError].  Overlong forms, surrogates and code points
    beyond U+10FFFF are rejected; a byte order mark is kept. *)
Fixpoint utf8_decode (b : bytes) : option str :=
  match b with
  | [] => Some []
  | b0 :: b' =>
      let n0 := Byte.to_N b0 in
      if (n0 <? 128)%N then (n0 ::.) <$> utf8_decode b'
      else if (n0 <? 194)%N then None
      else if (n0 <? 224)%N then
        match b' with
        | b1 :: b'' =>
            c1 ← continuation b1;
            (((n0 - 192) * 64 + c1)%N ::.) <$> utf8_decode b''
        | _ => None
        end
      else if (n0 <? 240)%N then
        match b' with
        | b1 :: b2 :: b'' =>
            c1 ← continuation b1;
            c2 ← continuation b2;
            let c := ((n0 - 224) * 4096 + c1 * 64 + c2)%N in
            if ((c <? 2048) || ((55296 <=? c) && (c <=? 57343)))%N then None
            else (c ::.) <$> utf8_decode b''
        | _ => None
        end
      else if (n0 <? 245)%N then
        match b' with
        | b1 :: b2 :: b3 :: b'' =>
            c1 ← continuation b1;
            c2 ← continuation b2;
            c3 ← continuation b3;
            let c := ((n0 - 240) * 262144 + c1 * 4096 + c2 * 64 + c3)%N in
            if ((c <? 65536) || (1114111 <? c))%N then None
            else (c ::.) <$> utf8_decode b''
        | _ => None
        end
      else None
  end.

Definition decode (b : bytes) : result str :=
  match utf8_decode b with
  | Some s => Return s
  | None => Raise UnicodeDecodeError
  end.

(** The byte of a number below 256. *)
Definition byte_of (n : N) : byte := default x00 (Byte.of_N n).

(** [s.encode("utf-8")] for a text of Unicode scalar values, which is
    what a file opened for writing with [encoding="utf-8"] holds once
    [s] has been written to it. *)
Definition utf8_encode_char (c : N) : bytes :=
  if (c <? 128)%N then [byte_of c]
  else if (c <? 2048)%N then [byte_of (192 + c / 64); byte_of (128 + c mod 64)]%N
  else if (c <? 65536)%N
  then [byte_of (224 + c / 4096); byte_of (128 + (c / 64) mod 64);
        byte_of (128 + c mod 64)]%N
  else [byte_of (240 + c / 262144); byte_of (128 + (c / 4096) mod 64);
        byte_of (128 + (c / 64) mod 64); byte_of (128 + c mod 64)]%N.

Definition utf8_encode (s : str) : bytes := s ≫= utf8_encode_char.

(** Universal newlines, the translation that a file opened for reading
    in text mode with the default [newline] applies: ["\r\n"] and ["\r"] become
    ["\n"]. *)
Fixpoint universal_newlines (s : str) : str :=
  match s with
  | [] => []
  | c :: s' =>
      if (c =? 13)%N then
        match s' with
        | c' :: s'' =>
            if (c' =? 10)%N then 10%N :: universal_newlines s''
            else 10%N :: universal_newlines s'
        | [] => [10%N]
        end
      else c :: universal_newlines s'
  end.

(** The lines that iterating over a text file yields: each ends with its
    ["\n"], but possibly the last. *)
Fixpoint split_lines (s : str) : list str :=
  match s with
  | [] => []
  | c :: s' =>
      if (c =? 10)%N then [c] :: split_lines s'
      else match split_lines s' with
           | [] => [[c]]
           | l :: ls => (c :: l) :: ls
           end
  end.

(** ** The csv module, dialect [excel]

    As of CPython 3.11: fields delimited by a comma and quoted, where
    needed, by double quotes, a quote inside a field doubled, lines
    terminated by ["\r\n"], not strict. *)

Definition delimiter : N := 44.
Definition quotechar : N := 34.
Definition lineterminator : str := [13; 10]%N.

(** [csv.field_size_limit()] *)
Definition field_limit : Z := 131072.

(** *** csv.reader

    The states of the parser that the dialect can reach; the three
    states for an escape character are left out, the dialect has none. *)
Inductive parser_state : Type :=
  | START_RECORD
  | START_FIELD
  | IN_FIELD
  | IN_QUOTED_FIELD
  | QUOTE_IN_QUOTED_FIELD
  | EAT_CRNL.

#[global] Instance parser_state_eq_dec : EqDecision parser_state.
Proof. solve_decision. Defined.

(** The reader object: the parser state, the fields of the record under
    way, and the characters of the field under way. *)
Record Reader : Type := {
  state : parser_state;
  fields : list str;
  field : str
}.

Definition set_state (st : parser_state) (rd : Reader) : Reader :=
  {| state := st; fields := fields rd; field := field rd |}.

Definition parse_save_field (rd : Reader) : Reader :=
  {| state := state rd; fields := fields rd ++ [field rd]; field := [] |}.

Definition parse_add_char (rd : Reader) (c : N) : result Reader :=
  if field_limit <=? len (field rd) then Raise csv_Error
  else Return {| state := state rd; fields := fields rd; field := field rd ++ [c] |}.

Definition is_newline (c : N) : bool := ((c =? 10) || (c =? 13))%N.

(** [parse_process_char]: one step of the parser; [None] is the
    end-of-line mark that follows the last character of each line.
    [start_field] is the case [START_FIELD], which the case
    [START_RECORD] falls through to. *)
Definition start_field (rd : Reader) (c : option N) : result Reader :=
  match c with
  | None => Return (set_state START_RECORD (parse_save_field rd))
  | Some c =>
      if is_newline c then Return (set_state EAT_CRNL (parse_save_field rd))
      else if (c =? quotechar)%N then Return (set_state IN_QUOTED_FIELD rd)
      else if (c =? delimiter)%N then Return (parse_save_field rd)
      else rd ← parse_add_char rd c; mret (set_state IN_FIELD rd)
  end.

Definition parse_process_char (rd : Reader) (c : option N) : result Reader :=
  match state rd with
  | START_RECORD =>
      match c with
      | None => Return rd
      | Some c' =>
          if is_newline c' then Return (set_state EAT_CRNL rd)
          else start_field (set_state START_FIELD rd) c
      end
  | START_FIELD => start_field rd c
  | IN_FIELD =>
      match c with
      | None => Return (set_state START_RECORD (parse_save_field rd))
      | Some c =>
          if is_newline c then Return (set_state EAT_CRNL (parse_save_field rd))
          else if (c =? delimiter)%N
          then Return (set_state START_FIELD (parse_save_field rd))
          else parse_add_char rd c
      end
  | IN_QUOTED_FIELD =>
      match c with
      | None => Return rd
      | Some c =>
          if (c =? quotechar)%N then Return (set_state QUOTE_IN_QUOTED_FIELD rd)
          else parse_add_char rd c
      end
  | QUOTE_IN_QUOTED_FIELD =>
      match c with
      | None => Return (set_state START_RECORD (parse_save_field rd))
      | Some c =>
          if (c =? quotechar)%N
          then rd ← parse_add_char rd c; mret (set_state IN_QUOTED_FIELD rd)
          else if (c =? delimiter)%N
          then Return (set_state START_FIELD (parse_save_field rd))
          else if is_newline c
          then Return (set_state EAT_CRNL (parse_save_field rd))
          else rd ← parse_add_char rd c; mret (set_state IN_FIELD rd)
      end
  | EAT_CRNL =>
      match c with
      | None => Return (set_state START_RECORD rd)
      | Some c => if is_newline c then Return rd else Raise csv_Error
      end
  end.

(** The characters of one line, then the end-of-line mark. *)
Definition parse_line (rd : Reader) (line : str) : result Reader :=
  rd ← for_each line rd (λ rd c, parse_process_char rd (Some c));
  parse_process_char rd None.

(** [parse_reset] *)
Definition parse_reset (rd : Reader) : Reader :=
  {| state := START_RECORD; fields := []; field := field rd |}.

Definition new_reader : Reader :=
  {| state := START_RECORD; fields := []; field := [] |}.

(** [list(csv.reader(lines))], with the lines to come and the reader
    object as arguments: a record ends with the line after which the
    parser is back in [START_RECORD]; at the end of the input a record
    under way is closed as it is. *)
Fixpoint read_records (lines : list str) (rd : Reader) : result (list (list str)) :=
  match lines with
  | [] =>
      if negb (bool_decide (field rd = []))
         || bool_decide (state rd = IN_QUOTED_FIELD)
      then Return [fields (parse_save_field rd)]
      else Return []
  | line :: lines' =>
      rd ← parse_line rd line;
      if bool_decide (state rd = START_RECORD)
      then records ← read_records lines' (parse_reset rd);
           mret (fields rd :: records)
      else read_records lines' rd
  end.

Definition csv_reader (lines : list str) : result (list (list str)) :=
  read_records lines new_reader.

(** *** csv.DictReader *)

(** The values of the dictionaries that [DictReader] yields: a field, the
    [None] that fills a short row, or the list of the fields in excess
    of a long row. *)
Inductive pyval : Type :=
  | VStr (s : str)
  | VNone
  | VList (l : list str).

(** A [dict] in insertion order; the key [None] is the [restkey]. *)
Definition pydict : Type := list (option str * pyval).

(** [d[k] = v] *)
Fixpoint dict_set (k : option str) (v : pyval) (d : pydict) : pydict :=
  match d with
  | [] => [(k, v)]
  | (k', v') :: d' =>
      if decide (k = k') then (k', v) :: d'
      else (k', v') :: dict_set k v d'
  end.

(** [d.get(k)] *)
Fixpoint dict_get (k : option str) (d : pydict) : option pyval :=
  match d with
  | [] => None
  | (k', v') :: d' => if decide (k = k') then Some v' else dict_get k d'
  end.

(** The body of [DictReader.__next__] once a row that is not empty has
    been read. *)
Definition make_dict (fieldnames row : list str) : pydict :=
  let d := foldl (λ d kv, dict_set (Some kv.1) (VStr kv.2) d) []
                 (zip fieldnames row) in
  let lf := length fieldnames in
  let lr := length row in
  if (lf <? lr)%nat then dict_set None (VList (drop lf row)) d
  else foldl (λ d key, dict_set (Some key) VNone d) d (drop lr fieldnames).

(** [list(csv.DictReader(f))] from the records of [f]: the first record
    holds the field names, the empty records after it are skipped. *)
Definition DictReader (records : list (list str)) : list pydict :=
  match records with
  | [] => []
  | fieldnames :: rows =>
      make_dict fieldnames <$> filter (λ row, row ≠ []) rows
  end.

(** *** csv.writer *)

(** A field is quoted when it holds the delimiter, the quote character or
    a character of the line terminator; a quote character is doubled. *)
Definition needs_quotes (s : str) : bool :=
  bool_decide (Exists (λ c, c = delimiter ∨ c = quotechar ∨ c ∈ lineterminator) s).

Definition double_quotes (s : str) : str :=
  s ≫= λ c, if (c =? quotechar)%N then [quotechar; quotechar] else [c].

Definition csv_field (s : str) : str :=
  if needs_quotes s then [quotechar] ++ double_quotes s ++ [quotechar] else s.

(** The line that [writerow] writes for a row of two fields or more. *)
Definition csv_line (row : list str) : str :=
  join [delimiter] (csv_field <$> row) ++ lineterminator.

(** ** Loading the manifest *)

(** The file is decoded as a whole before its first line is parsed.
    Python decodes it piece by piece while the lines are parsed; the
    difference shows only in a file that has both an undecodable byte and
    a field beyond the size limit, where the error reported first depends
    on the size of the read buffer. *)
Definition load_annotations (csv_path : str) : io (list pydict) :=
  b ← path_read_bytes csv_path;
  s ← lift (decode b);
  records ← lift (csv_reader (split_lines (universal_newlines s)));
  mret (DictReader records).

(** The dictionary that [DictReader] yields for a record of a manifest
    with the three columns. *)
Definition dict_of_row (r : Row) : pydict :=
  [(Some (u "file_name"), VStr (file_name r));
   (Some (u "text"), VStr (text r));
   (Some (u "writer_id"), VStr (writer_id r))].

(** The record of a dictionary that has the three fields of a manifest
    row, each a string, and nothing else. *)
Definition as_row (d : pydict) : option Row :=
  match dict_get (Some (u "file_name")) d, dict_get (Some (u "text")) d,
        dict_get (Some (u "writer_id")) d with
  | Some (VStr f), Some (VStr t), Some (VStr w) =>
      if (length d =? 3)%nat
      then Some {| file_name := f; text := t; writer_id := w |}
      else None
  | _, _, _ => None
  end.

(** ** Writing a split *)

Definition fieldnames : list str := [u "file_name"; u "text"; u "writer_id"].

(** The values that [DictWriter] takes from a record with the three
    fields, in the order of [fieldnames]. *)
Definition row_fields (r : Row) : list str := [file_name r; text r; writer_id r].

(** [s.rjust(width)], which is how [{...:>5d}] and [{...:>6s}] pad. *)
Definition rjust (width : nat) (s : str) : str :=
  replicate (width - length s) 32%N ++ s.

(** The components of a path, split at the separators. *)
Fixpoint path_parts (cur : str) (p : str) : list str :=
  match p with
  | [] => [cur]
  | c :: p' =>
      if (c =? 47)%N then cur :: path_parts [] p'
      else path_parts (cur ++ [c]) p'
  end.

(** [path.name]: the last component of the path, empty and ["."]
    components apart. *)
Definition path_name (p : str) : str :=
  default [] (last (filter (λ c, c ≠ [] ∧ c ≠ u ".") (path_parts [] p))).

(** What [writeheader] and [writerows] write to the file. *)
Definition csv_text (rows : list Row) : str :=
  csv_line fieldnames ++ mjoin ((λ r, csv_line (row_fields r)) <$> rows).

(** The file is opened with an empty [newline], so that the line terminators
    reach it as they are; as in [write_text], opening and writing are
    taken to succeed. *)
Definition write_split_csv (rows : list Row) (path : str) : io unit :=
  write_text path (csv_text rows);;
  print (u "  Written " ++ rjust 5 (str_of_int (len rows)) ++ u " rows "
           ++ [8594%N] ++ u " " ++ path_name path).

(** ** Printing the statistics *)

(** [a / b] rounded to the nearest integer, ties to even, for [b > 0]. *)
Definition div_half_even (a b : Z) : Z :=
  let q := a / b in
  match 2 * (a mod b) ?= b with
  | Lt => q
  | Gt => q + 1
  | Eq => if Z.even q then q else q + 1
  end.

(** [format(x, ".1f")]: the decimal numeral with one digit after the
    point that is nearest to [x], ties to even. *)
Definition format_1f (x : float) : str :=
  match x with
  | S754_nan => u "nan"
  | S754_infinity s => (if s then u "-" else []) ++ u "inf"
  | S754_zero s => (if s then u "-" else []) ++ u "0.0"
  | S754_finite s m e =>
      let tenths :=
        match e with
        | Zneg k => div_half_even (10 * Zpos m) (2 ^ Zpos k)
        | _ => 10 * Zpos m * 2 ^ e
        end in
      (if s then u "-" else []) ++ str_of_int (tenths / 10) ++ u "."
        ++ str_of_int (tenths mod 10)
  end.

Section MostCommon.
Context {K : Type}.

(** [x] goes behind the entries whose count is not less than its own. *)
Fixpoint insert_by_count (x : K * Z) (l : list (K * Z)) : list (K * Z) :=
  match l with
  | [] => [x]
  | y :: l' => if x.2 <=? y.2 then y :: insert_by_count x l' else x :: l
  end.

(** [sorted(c.items(), key=itemgetter(1), reverse=True)]: by falling
    count, entries of equal count in the order of [c]. *)
Definition by_count (c : list (K * Z)) : list (K * Z) :=
  foldl (λ acc x, insert_by_count x acc) [] c.

(** [c.most_common(n)] *)
Definition most_common (n : nat) (c : list (K * Z)) : list (K * Z) :=
  take n (by_count c).

End MostCommon.

(** [c[k]] for a [Counter]: zero for a key that is not there. *)
Fixpoint counter_get (c : list (Z * Z)) (k : Z) : Z :=
  match c with
  | [] => 0
  | (k', n) :: c' => if decide (k = k') then n else counter_get c' k
  end.

(** The bodies of the two loops of [print_statistics]. *)
Definition print_writer (stats : Statistics) (_ : ()) (wid : Z) : io unit :=
  let count := counter_get (writer_counts stats) wid in
  let bar := str_repeat [9608%N] (Z.to_nat (count / 5)) in
  print (u "  Writer " ++ rjust 3 (str_of_int wid) ++ u " : "
           ++ rjust 4 (str_of_int count) ++ u " samples  " ++ bar).

Definition print_char (_ : ()) (entry : N * Z) : io unit :=
  let '(char, freq) := entry in
  let display := if (char =? 32)%N then u "' '" else [char] in
  print (u "  " ++ rjust 6 display ++ u " : " ++ rjust 6 (str_of_int freq)).

Definition print_statistics (stats : Statistics) : io unit :=
  print_section (u "DHSD " ++ [8212%N] ++ u " Dataset Statistics");;
  print (u "  Total images          : " ++ str_of_int (total_images stats));;
  print (u "  Total writers         : " ++ str_of_int (total_writers stats));;
  print (u "  Unique words          : " ++ str_of_int (unique_words stats));;
  print (u "  Avg words / writer    : " ++ format_1f (avg_words_per_writer stats));;
  print (u "  Min words / writer    : " ++ str_of_int (min_words_per_writer stats));;
  print (u "  Max words / writer    : " ++ str_of_int (max_words_per_writer stats));;
  print_section (u "Word Length Statistics");;
  print (u "  Avg word length (chars): " ++ format_1f (avg_word_length stats));;
  print (u "  Min word length        : " ++ str_of_int (min_word_length stats));;
  print (u "  Max word length        : " ++ str_of_int (max_word_length stats));;
  print_section (u "German Special Characters");;
  (if german_chars_present stats is _ :: _
   then print (u "  Present : "
                 ++ join (u " ") ((λ c, [c]) <$> german_chars_present stats))
   else mret ());;
  (if german_chars_missing stats is _ :: _
   then print (u "  MISSING : "
                 ++ join (u " ") ((λ c, [c]) <$> german_chars_missing stats))
   else print (u "  " ++ [10003%N]
                 ++ u " All German special characters are represented."));;
  print_section (u "Writer Distribution");;
  for_each (writer_ids_sorted stats) () (print_writer stats);;
  print_section (u "Top-20 Most Frequent Characters");;
  for_each (most_common 20 (char_freq stats)) () print_char.

(** ** main *)

(** The three flags that [parse_args] returns. *)
Record Args : Type := {
  split : bool;
  verify : bool;
  checksums : bool
}.

(** How a run of [main] ends: with [None] or an exception, in which
    world, and with which lines on [sys.stderr]. *)
Record Exit : Type := {
  outcome : result unit;
  final : world;
  stderr : list str
}.

Section Main.
Context `{RT : Runtime} `{RG : RandomGen}.

(** [str(BASE_DIR / name)], where [base_dir] is [str(BASE_DIR)]. *)
Definition path_str (base_dir name : str) : str :=
  (if bool_decide (base_dir = u "/") then [] else base_dir) ++ u "/" ++ name.

(** The line [f"  Train : {n:>5d} ({100 * n / total:.1f}%)"]. *)
Definition print_share (label : str) (n total : Z) : io unit :=
  share ← lift (Float.int_true_div (100 * n) total);
  print (label ++ rjust 5 (str_of_int n) ++ u " (" ++ format_1f share ++ u "%)").

(** The statements under [if args.split]. *)
Definition split_step (rows : list Row) : io unit :=
  print_section (u "Train / Test Split (80/20)");;
  '(train, test) ← lift (stratified_split rows TEST_RATIO RANDOM_SEED);
  write_split_csv train (in_base_dir (u "train.csv"));;
  write_split_csv test (in_base_dir (u "test.csv"));;
  print_share ([10%N] ++ u "  Train : ") (len train) (len rows);;
  print_share (u "  Test  : ") (len test) (len rows).

(** The statements of [main] that follow the loading of the manifest,
    for a manifest whose rows have the three fields. *)
Definition main_rows (args : Args) (rows : list Row) : io unit :=
  stats ← lift (compute_statistics rows);
  print_statistics stats;;
  (if verify args then verify_images rows;; mret () else mret ());;
  (if split args then split_step rows else mret ());;
  (if checksums args then generate_checksums rows else mret ()).

(** [main], with the parsed arguments in place of [sys.argv].  The
    result is [None] for a manifest that has a row without the three
    fields [file_name], [text] and [writer_id] or with other fields: such
    a manifest is outside this model. *)
Definition main (base_dir : str) (args : Args) (w : world) : option Exit :=
  if negb (is_file w CSV_PATH)
  then Some {| outcome := Raise SystemExit;
               final := w;
               stderr := [u "Error: " ++ path_str base_dir (u "data.csv")
                            ++ u " not found." ++ [10%N]] |}
  else
    match load_annotations CSV_PATH w with
    | (Raise e, w') => Some {| outcome := Raise e; final := w'; stderr := [] |}
    | (Return ds, w') =>
        rows ← mapM as_row ds;
        let '(r, w'') := main_rows args rows w' in
        Some {| outcome := r; final := w''; stderr := [] |}
    end.

End Main.

(** ** Vocabulary of the further properties *)

(** The number of items of [xs] equal to [x]. *)
Definition count_of {A} `{EqDecision A} (x : A) (xs : list A) : Z :=
  len (filter (λ y, y = x) xs).

(** The distinct items of [xs], each at the place of its first
    occurrence. *)
Fixpoint first_occurrences {A} `{EqDecision A} (xs : list A) : list A :=
  match xs with
  | [] => []
  | x :: xs' => x :: filter (λ y, y ≠ x) (first_occurrences xs')
  end.

(** The writer of a record whose [writer_id] is a numeral. *)
Definition wid_of `{RT : Runtime} (r : Row) : Z := default 0 (py_int (writer_id r)).

(** Zero, negative, or not a number: the floats for which [int] gives
    no positive result. *)
Definition not_positive (x : float) : Prop :=
  match x with
  | S754_zero _ | S754_finite true _ _ | S754_infinity true | S754_nan => True
  | _ => False
  end.

(** Zero, positive, or not a number. *)
Definition not_negative (x : float) : Prop :=
  match x with
  | S754_zero _ | S754_finite false _ _ | S754_infinity false | S754_nan => True
  | _ => False
  end.

(** [1 <= r] for a valid binary64 number [r]. *)
Definition at_least_one (r : float) : Prop :=
  Float.valid r = true ∧ SFleb Float.one r = true.

(** A Unicode scalar value: a code point that is not a surrogate. *)
Definition scalar (c : N) : Prop :=
  (c < 55296 ∨ 57343 < c ∧ c ≤ 1114111)%N.

(** The parser run over the lines of a text. *)
Definition run (s : str) (rd : Reader) : result (list (list str)) :=
  read_records (split_lines s) rd.

(** A character that needs no quoting. *)
Definition plain (c : N) : Prop :=
  c ≠ delimiter ∧ c ≠ quotechar ∧ c ≠ 10%N ∧ c ≠ 13%N.

(** The line of a record after the translation of its terminator. *)
Definition csv_line_nl (row : list str) : str :=
  join [delimiter] (csv_field <$> row) ++ [10%N].

(** A record without carriage returns in its fields, none of which is
    longer than the reader accepts. *)
Definition portable (r : Row) : Prop :=
  Forall (λ f, (13%N ∉ f) ∧ len f ≤ field_limit) (row_fields r).

(** A record that survives the way to the disk and back: its fields are
    texts of Unicode scalar values without carriage returns, none longer
    than the reader accepts. *)
Definition storable (r : Row) : Prop :=
  Forall (λ f, Forall scalar f ∧ (13%N ∉ f) ∧ len f ≤ field_limit) (row_fields r).

(** [prints m a lines]: on every disk, [m] returns [a], adds [lines] to
    the console and changes nothing else. *)
Definition prints {A} (m : io A) (a : A) (lines : list str) : Prop :=
  ∀ isf rd out wr,
    m (World isf rd out wr) = (Return a, World isf rd (out ++ lines) wr).

(** The three lines of a section header. *)
Definition section_lines (title : str) : list str :=
  [[10%N] ++ str_repeat (u "=") 60 ++ [10%N];
   u "  " ++ title ++ [10%N];
   str_repeat (u "=") 60 ++ [10%N]].

(** Entries in the order of falling counts. *)
Definition falling {K} (x y : K * Z) : Prop := y.2 ≤ x.2.

(** The lines of [print_writer] and of [print_char]. *)
Definition writer_line (stats : Statistics) (wid : Z) : str :=
  u "  Writer " ++ rjust 3 (str_of_int wid) ++ u " : "
    ++ rjust 4 (str_of_int (counter_get (writer_counts stats) wid))
    ++ u " samples  "
    ++ str_repeat [9608%N] (Z.to_nat (counter_get (writer_counts stats) wid / 5))
    ++ [10%N].

Definition char_line (entry : N * Z) : str :=
  u "  " ++ rjust 6 (if (entry.1 =? 32)%N then u "' '" else [entry.1])
    ++ u " : " ++ rjust 6 (str_of_int entry.2) ++ [10%N].

(** [on_disk isf rd m r files]: on the disk [(isf, rd)], whatever the
    console holds and whatever was written before, [m] ends with [r],
    leaves the disk as it is and writes [files]. *)
Definition on_disk (isf : str → bool) (rd : str → option bytes)
    {A} (m : io A) (r : result A) (files : list (str * str)) : Prop :=
  ∀ out wr, ∃ out',
    m (World isf rd out wr) = (r, World isf rd out' (wr ++ files)).

(** The two files of a split. *)
Definition split_files (train test : list Row) : list (str * str) :=
  [(in_base_dir (u "train.csv"), csv_text train);
   (in_base_dir (u "test.csv"), csv_text test)].

Section MainVocabulary.
Context `{RT : Runtime}.
Context (isf : str → bool) (rd : str → option bytes).

(** The file that [generate_checksums] writes on the disk [(isf, rd)]
    when every read succeeds. *)
Definition checksum_file (csv : bytes) (rows : list Row) : str * str :=
  (in_base_dir (u "checksums.sha256"),
   join [10%N] ((sha256_hexdigest csv ++ u "  data.csv")
                  :: checksum_lines (World isf rd [] []) rows) ++ [10%N]).

(** How the steps of [main] that follow the statistics end, and the file
    that the last of them writes, given how the split step ended. *)
Definition tail_result (args : Args) (rows : list Row) (r1 : result ()) : result () :=
  match r1 with
  | Return _ =>
      if checksums args
      then match rd CSV_PATH with
           | Some _ => if decide (images_readable (World isf rd [] []) rows)
                       then Return () else Raise OSError
           | None => Raise OSError
           end
      else Return ()
  | Raise e => Raise e
  end.

Definition tail_files (args : Args) (rows : list Row) (r1 : result ()) :
    list (str * str) :=
  match r1 with
  | Return _ =>
      if checksums args
      then match rd CSV_PATH with
           | Some csv => if decide (images_readable (World isf rd [] []) rows)
                         then [checksum_file csv rows] else []
           | None => []
           end
      else []
  | Raise e => []
  end.

End MainVocabulary.

(** ** Concrete instances and inputs for the examples *)

Module Example.

(** A numeral parser that accepts the plain ASCII decimal numerals, on
    which it agrees with [int]. *)
Fixpoint decimal_digits (acc : Z) (s : str) : option Z :=
  match s with
  | [] => Some acc
  | c :: s' =>
      if ((48 <=? c) && (c <=? 57))%N
      then decimal_digits (10 * acc + Z.of_N (c - 48)) s'
      else None
  end.

Definition decimal_int (s : str) : option Z :=
  match s with
  | [] => None
  | _ :: _ => decimal_digits 0 s
  end.

(** A stand-in for the digest: it only has to be some function of the
    content. *)
Definition toy_digest (b : bytes) : str :=
  u "digest" ++ str_of_int (py_sum ((λ x, Z.of_N (Byte.to_N x)) <$> b)).

#[export] Instance runtime : Runtime := {|
  py_int := decimal_int;
  sha256_hexdigest := toy_digest
|}.

(** A linear congruential generator in place of the Mersenne Twister. *)
Definition lcg_next (g : Z) : Z := (1103515245 * g + 12345) mod 2147483648.

Definition lcg_randbelow (g : Z) (n : nat) : nat * Z :=
  (Z.to_nat (lcg_next g mod Z.of_nat n), lcg_next g).

#[export] Instance lcg : RandomGen.
Proof.
  refine {| rng := Z; Random := λ seed, seed; randbelow := lcg_randbelow |}.
  intros g n Hn. unfold lcg_randbelow. simpl.
  pose proof (Z.mod_pos_bound (lcg_next g) (Z.of_nat n)). lia.
Defined.

(** The three records of the specification's scenario: two by writer 1,
    one by writer 2. *)
Definition strasse : Row :=
  {| file_name := u "german_hw_data/w1_strasse.png";
     text := [83; 116; 114; 97; 223; 101]%N;
     writer_id := u "1" |}.
Definition mueller : Row :=
  {| file_name := u "german_hw_data/w1_mueller.png";
     text := [77; 252; 108; 108; 101; 114]%N;
     writer_id := u "1" |}.
Definition schoen : Row :=
  {| file_name := u "german_hw_data/w2_schoen.png";
     text := [83; 99; 104; 246; 110]%N;
     writer_id := u "2" |}.

Definition rows3 : list Row := [strasse; mueller; schoen].

(** A disk that holds [data.csv] and every image but [mueller]'s. *)
Definition disk : world :=
  {| is_file := λ p, bool_decide (p ≠ file_name mueller);
     read_bytes := λ p, Some [x2a];
     stdout := [];
     written := [] |}.

(** The same disk with an image that exists but cannot be read. *)
Definition locked_disk : world :=
  {| is_file := λ p, true;
     read_bytes := λ p, if bool_decide (p = file_name schoen) then None
                        else Some [x2a];
     stdout := [];
     written := [] |}.

(** Some binary64 numbers: [1.5], [2 ** -54], the largest finite number
    negated, and a NaN. *)
Definition f_1_5 : float := S754_finite false 6755399441055744 (-52).
Definition f_tiny : float := S754_finite false 4503599627370496 (-106).
Definition f_neg_max : float := S754_finite true 9007199254740991 971.

(** The snapshot of [rows3]: the averages are [1.5] records per writer
    and [17 / 3] characters per label. *)
Definition stats3 : Statistics :=
  {| total_images := 3;
     total_writers := 2;
     unique_words := 3;
     writer_counts := [(1, 2); (2, 1)];
     min_words_per_writer := 1;
     max_words_per_writer := 2;
     avg_words_per_writer := f_1_5;
     german_chars_present := [223; 246; 252]%N;
     german_chars_missing := [196; 214; 220; 228]%N;
     char_freq := [(83%N, 2); (116%N, 1); (114%N, 2); (97%N, 1); (223%N, 1);
                   (101%N, 2); (77%N, 1); (252%N, 1); (108%N, 2); (99%N, 1);
                   (104%N, 1); (246%N, 1); (110%N, 1)];
     avg_word_length := S754_finite false 6380099472108203 (-50);
     min_word_length := 5;
     max_word_length := 6;
     writer_ids_sorted := [1; 2] |}.

(** A record whose [writer_id] is no numeral. *)
Definition unsigned : Row :=
  {| file_name := u "german_hw_data/unsigned.png";
     text := u "Gasse";
     writer_id := u "w7" |}.

(** A project directory: [data.csv] holds the three records as the csv
    writer writes them, and every image can be read. *)
Definition project_disk : world :=
  {| is_file := λ p, true;
     read_bytes := λ p, if bool_decide (p = CSV_PATH)
                        then Some (utf8_encode (csv_text rows3))
                        else Some [x2a];
     stdout := [];
     written := [] |}.

(** The same directory with an image that exists but cannot be read. *)
Definition locked_project_disk : world :=
  {| is_file := λ p, true;
     read_bytes := λ p, if bool_decide (p = CSV_PATH)
                        then Some (utf8_encode (csv_text rows3))
                        else if bool_decide (p = file_name schoen) then None
                        else Some [x2a];
     stdout := [];
     written := [] |}.

(** A directory without a manifest. *)
Definition empty_disk : world :=
  {| is_file := λ p, false;
     read_bytes := λ p, None;
     stdout := [];
     written := [] |}.

(** Command lines: all three flags, [--verify] alone, and [--split
    --checksums]. *)
Definition all_flags : Args :=
  {| split := true; verify := true; checksums := true |}.
Definition verify_only : Args :=
  {| split := false; verify := true; checksums := false |}.
Definition split_and_checksums : Args :=
  {| split := true; verify := false; checksums := true |}.

(** [str(BASE_DIR)] *)
Definition base_dir : str := u "/srv/dhsd".

End Example.


(** * Properties *)

(** ** Binary64 rounding *)

Section FloatFacts.

Lemma digits2_pos_bounds (p : positive) :
  2 ^ (Zpos (digits2_pos p) - 1) ≤ Zpos p < 2 ^ Zpos (digits2_pos p).
Proof.
  induction p as [p IH|p IH|]; simpl digits2_pos.
  - rewrite Pos2Z.inj_succ.
    replace (Z.succ (Zpos (digits2_pos p)) - 1) with (Z.succ (Zpos (digits2_pos p) - 1)) by lia.
    rewrite !Z.pow_succ_r by lia. lia.
  - rewrite Pos2Z.inj_succ.
    replace (Z.succ (Zpos (digits2_pos p)) - 1) with (Z.succ (Zpos (digits2_pos p) - 1)) by lia.
    rewrite !Z.pow_succ_r by lia. lia.
  - simpl. lia.
Qed.

Lemma Zdigits2_nonneg (n : Z) : 0 ≤ Zdigits2 n.
Proof. destruct n; simpl; lia. Qed.

(** A number below [2 ^ k] has at most [k] binary digits. *)
Lemma Zdigits2_le (n k : Z) : 0 ≤ n → 0 ≤ k → n < 2 ^ k → Zdigits2 n ≤ k.
Proof.
  intros Hn Hk Hlt. destruct n as [|p|p]; simpl; [lia| |lia].
  pose proof (digits2_pos_bounds p) as [Hlo _].
  assert (2 ^ (Zpos (digits2_pos p) - 1) < 2 ^ k) as Hpow by lia.
  apply Z.pow_lt_mono_r_iff in Hpow; lia.
Qed.

Lemma iter_pos_invariant {A} (f : A → A) (P : Z → A → Prop) :
  (∀ k x, 0 ≤ k → P k x → P (k + 1) (f x)) →
  ∀ p k x, 0 ≤ k → P k x → P (k + Zpos p) (SpecFloat.iter_pos f p x).
Proof.
  intros Hstep. induction p as [p IH|p IH|]; intros k x Hk HP; simpl.
  - replace (k + Zpos p~1) with (k + 1 + Zpos p + Zpos p) by lia.
    apply IH; [lia|]. apply IH; [lia|]. by apply Hstep.
  - replace (k + Zpos p~0) with (k + Zpos p + Zpos p) by lia.
    apply IH; [lia|]. by apply IH.
  - by apply Hstep.
Qed.

Lemma shr_1_m (st : shr_record) : 0 ≤ shr_m st → shr_m (shr_1 st) = shr_m st / 2.
Proof.
  destruct st as [m r s]; cbn [shr_m]. intros Hm.
  destruct m as [|[p|p|]|p]; cbn [shr_1 shr_m]; try done; try lia.
  - apply Z.div_unique with 1; lia.
  - apply Z.div_unique with 0; lia.
Qed.

Lemma shr_1_r (st : shr_record) :
  0 ≤ shr_m st → shr_m st mod 2 = 0 → shr_r (shr_1 st) = false.
Proof.
  destruct st as [m r s]; cbn [shr_m]. intros Hm Hev.
  destruct m as [|[p|p|]|p]; cbn [shr_1 shr_r]; try done; try lia.
  rewrite Pos2Z.inj_xI in Hev.
  replace (2 * Zpos p + 1) with (1 + Zpos p * 2) in Hev by lia.
  rewrite Z.mod_add in Hev by lia. done.
Qed.

Lemma shr_1_s (st : shr_record) : shr_s (shr_1 st) = shr_r st || shr_s st.
Proof. destruct st as [m r s]; simpl. by destruct m as [|[p|p|]|[p|p|]]. Qed.

Lemma shr_inv_step (m0 : Z) (exact : bool) (k : Z) (st : shr_record) :
  0 ≤ m0 → 0 ≤ k → Float.shr_inv m0 exact k st → Float.shr_inv m0 exact (k + 1) (shr_1 st).
Proof.
  intros Hm0 Hk [Hm Hex].
  assert (0 < 2 ^ k) as Hpow by (apply Z.pow_pos_nonneg; lia).
  assert (0 ≤ shr_m st) as Hpos by (rewrite Hm; apply Z.div_pos; lia).
  assert (2 ^ (k + 1) = 2 ^ k * 2) as Hk1 by (rewrite Z.pow_add_r; lia).
  split.
  - rewrite shr_1_m, Hm, Hk1 by done. apply Z.div_div; lia.
  - intros He Hmod. rewrite Hk1 in Hmod.
    rewrite Z.rem_mul_r in Hmod by lia.
    pose proof (Z.mod_pos_bound m0 (2 ^ k) Hpow) as Hb1.
    pose proof (Z.mod_pos_bound (m0 / 2 ^ k) 2 ltac:(lia)) as Hb2.
    assert (m0 mod 2 ^ k = 0 ∧ (m0 / 2 ^ k) mod 2 = 0) as [Hz1 Hz2] by nia.
    destruct (Hex He Hz1) as [Hr Hs]. split.
    + apply shr_1_r; [done|]. by rewrite Hm.
    + by rewrite shr_1_s, Hr, Hs.
Qed.

(** The arithmetic content of [shr]: a right shift by [n] places adds
    [n] to the exponent and divides the mantissa by [2 ^ n]; a shift of
    an exact record stays exact when nothing is shifted out. *)
Lemma shr_spec (m e n : Z) (l : location) :
  0 ≤ m →
  ∃ st, shr (shr_record_of_loc m l) e n = (st, e + Z.max 0 n) ∧
        shr_m st = m / 2 ^ Z.max 0 n ∧
        (l = loc_Exact → m mod 2 ^ Z.max 0 n = 0 →
         loc_of_shr_record st = loc_Exact).
Proof.
  intros Hm.
  assert (shr_m (shr_record_of_loc m l) = m) as Hm0
    by (by destruct l as [|[]]).
  destruct n as [|p|p]; simpl shr.
  - eexists; split; [by rewrite Z.add_0_r|]. rewrite Hm0. simpl.
    rewrite Z.div_1_r. split; [done|]. by intros ->.
  - assert (Float.shr_inv m (if l is loc_Exact then true else false) (0 + Zpos p)
              (SpecFloat.iter_pos shr_1 p (shr_record_of_loc m l))) as [H1 H2].
    { apply iter_pos_invariant; [|lia|].
      - intros k x Hk. by apply shr_inv_step.
      - split; [by rewrite Hm0, Z.div_1_r|].
        intros He _. by destruct l. }
    eexists; split; [done|]. rewrite Z.add_0_l in *.
    replace (Z.max 0 (Zpos p)) with (Zpos p) by lia.
    split; [done|]. intros -> Hmod.
    destruct (H2 eq_refl Hmod) as [Hr Hs].
    destruct (SpecFloat.iter_pos shr_1 p _) as [m' r' s']; simpl in *. by subst.
  - eexists; split; [by rewrite Z.add_0_r|]. rewrite Hm0. simpl.
    rewrite Z.div_1_r. split; [done|]. by intros ->.
Qed.

Lemma round_nearest_even_bounds (st : shr_record) :
  shr_m st ≤ round_nearest_even (shr_m st) (loc_of_shr_record st) ≤ shr_m st + 1.
Proof.
  destruct st as [m [] []]; simpl; try lia. destruct (Z.even m); lia.
Qed.


Lemma pow2_split (a b : Z) : 0 ≤ a → 0 ≤ b → 2 ^ (a + b) = 2 ^ a * 2 ^ b.
Proof. intros. by apply Z.pow_add_r. Qed.

Lemma pow2_pos (a : Z) : 0 ≤ a → 0 < 2 ^ a.
Proof. intros. apply Z.pow_pos_nonneg; lia. Qed.

Lemma binary_round_aux_bounded (N mx ex : Z) :
  0 < N < 2 ^ 53 → 0 ≤ mx → ex ≤ 0 → mx ≤ N * 2 ^ (- ex) →
  Float.bounded N (binary_round_aux 53 1024 false mx ex loc_Exact).
Proof.
  intros HN Hmx Hex Hle. unfold binary_round_aux, shr_fexp.
  set (s1 := fexp 53 1024 (Zdigits2 mx + ex) - ex).
  pose proof (pow2_pos (- ex) ltac:(lia)) as Hpex.
  assert (mx < 2 ^ (53 - ex)) as Hlt.
  { replace (53 - ex) with (53 + - ex) by lia. rewrite pow2_split by lia. nia. }
  assert (Zdigits2 mx ≤ 53 - ex) as Hd by (apply Zdigits2_le; lia).
  pose proof (Zdigits2_nonneg mx) as Hd0.
  assert (ex + Z.max 0 s1 ≤ 0) as He1 by (unfold s1, fexp, emin; lia).
  destruct (shr_spec mx ex s1 loc_Exact Hmx) as (st1 & -> & Hm1 & Hex1).
  set (t1 := Z.max 0 s1) in *. set (e1 := ex + t1) in *.
  set (m1' := round_nearest_even (shr_m st1) (loc_of_shr_record st1)).
  pose proof (pow2_pos t1 ltac:(lia)) as Hpt1.
  pose proof (pow2_pos (- e1) ltac:(lia)) as Hpe1.
  assert (2 ^ (- ex) = 2 ^ (- e1) * 2 ^ t1) as Hsplit1.
  { rewrite <- pow2_split by lia. f_equal. lia. }
  assert (0 ≤ m1' ≤ N * 2 ^ (- e1)) as [Hm1'0 Hm1'].
  { pose proof (round_nearest_even_bounds st1) as Hrb. fold m1' in Hrb.
    assert (0 ≤ shr_m st1) by (rewrite Hm1; apply Z.div_pos; lia).
    split; [lia|].
    assert (shr_m st1 ≤ N * 2 ^ (- e1)) as Hfloor.
    { rewrite Hm1. apply Z.div_le_upper_bound; [done|]. nia. }
    destruct (decide (mx mod 2 ^ t1 = 0)) as [Hmod|Hmod].
    - unfold m1'. rewrite (Hex1 eq_refl Hmod). simpl. done.
    - assert (shr_m st1 < N * 2 ^ (- e1)); [|lia].
      rewrite Hm1. apply Z.div_lt_upper_bound; [done|].
      assert (mx ≠ 2 ^ t1 * (N * 2 ^ (- e1))); [|nia].
      intros Heq. apply Hmod. rewrite Heq, Z.mul_comm. apply Z.mod_mul. lia. }
  set (s2 := fexp 53 1024 (Zdigits2 m1' + e1) - e1).
  assert (m1' < 2 ^ (53 - e1)) as Hlt2.
  { replace (53 - e1) with (53 + - e1) by lia. rewrite pow2_split by lia. nia. }
  assert (Zdigits2 m1' ≤ 53 - e1) as Hd2 by (apply Zdigits2_le; lia).
  pose proof (Zdigits2_nonneg m1') as Hd20.
  assert (e1 + Z.max 0 s2 ≤ 0) as He2 by (unfold s2, fexp, emin; lia).
  destruct (shr_spec m1' e1 s2 loc_Exact Hm1'0) as (st2 & -> & Hm2 & _).
  set (t2 := Z.max 0 s2) in *. set (e2 := e1 + t2) in *.
  pose proof (pow2_pos t2 ltac:(lia)) as Hpt2.
  pose proof (pow2_pos (- e2) ltac:(lia)) as Hpe2.
  assert (2 ^ (- e1) = 2 ^ (- e2) * 2 ^ t2) as Hsplit2.
  { rewrite <- pow2_split by lia. f_equal. lia. }
  assert (0 ≤ shr_m st2 ≤ N * 2 ^ (- e2)) as [Hm20 Hm2'].
  { rewrite Hm2. split; [apply Z.div_pos; lia|].
    apply Z.div_le_upper_bound; [done|]. nia. }
  destruct (shr_m st2) as [|m2|m2] eqn:Em2; simpl; [done| |lia].
  assert ((e2 <=? 1024 - 53) = true) as -> by lia.
  simpl. done.
Qed.


Lemma binary_round_aux_finite (sx : bool) (mx ex : Z) (lx : location) :
  0 ≤ mx → ex ≤ 971 → mx < 2 ^ (1023 - ex) →
  Float.is_finite (binary_round_aux 53 1024 sx mx ex lx).
Proof.
  intros Hmx Hex Hlt. unfold binary_round_aux, shr_fexp.
  set (s1 := fexp 53 1024 (Zdigits2 mx + ex) - ex).
  assert (Zdigits2 mx ≤ 1023 - ex) as Hd by (apply Zdigits2_le; lia).
  pose proof (Zdigits2_nonneg mx) as Hd0.
  assert (ex + Z.max 0 s1 ≤ 971) as He1 by (unfold s1, fexp, emin; lia).
  destruct (shr_spec mx ex s1 lx Hmx) as (st1 & -> & Hm1 & _).
  set (t1 := Z.max 0 s1) in *. set (e1 := ex + t1) in *.
  set (m1' := round_nearest_even (shr_m st1) (loc_of_shr_record st1)).
  pose proof (pow2_pos t1 ltac:(lia)) as Hpt1.
  pose proof (pow2_pos (1023 - e1) ltac:(lia)) as Hpe1.
  assert (2 ^ (1023 - ex) = 2 ^ (1023 - e1) * 2 ^ t1) as Hsplit1.
  { rewrite <- pow2_split by lia. f_equal. lia. }
  assert (0 ≤ m1' < 2 ^ (1024 - e1)) as [Hm1'0 Hm1'].
  { pose proof (round_nearest_even_bounds st1) as Hrb. fold m1' in Hrb.
    assert (0 ≤ shr_m st1) by (rewrite Hm1; apply Z.div_pos; lia).
    split; [lia|].
    assert (shr_m st1 < 2 ^ (1023 - e1)) as Hfloor.
    { rewrite Hm1. apply Z.div_lt_upper_bound; [done|]. nia. }
    replace (1024 - e1) with (1 + (1023 - e1)) by lia.
    rewrite pow2_split by lia. lia. }
  set (s2 := fexp 53 1024 (Zdigits2 m1' + e1) - e1).
  assert (Zdigits2 m1' ≤ 1024 - e1) as Hd2 by (apply Zdigits2_le; lia).
  pose proof (Zdigits2_nonneg m1') as Hd20.
  assert (e1 + Z.max 0 s2 ≤ 971) as He2 by (unfold s2, fexp, emin; lia).
  destruct (shr_spec m1' e1 s2 loc_Exact Hm1'0) as (st2 & -> & Hm2 & _).
  set (t2 := Z.max 0 s2) in *. set (e2 := e1 + t2) in *.
  assert (0 ≤ shr_m st2) as Hm20.
  { rewrite Hm2. apply Z.div_pos; [lia|]. apply pow2_pos. lia. }
  destruct (shr_m st2) as [|m2|m2] eqn:Em2; simpl; [done| |lia].
  assert ((e2 <=? 1024 - 53) = true) as -> by lia.
  simpl. done.
Qed.

Lemma iter_xO_spec (m d : positive) :
  Zpos (Pos.iter xO m d) = Zpos m * 2 ^ Zpos d.
Proof.
  induction d as [|d IH] using Pos.peano_ind.
  - simpl. lia.
  - rewrite Pos.iter_succ, Pos2Z.inj_xO, IH, Pos2Z.inj_succ, Z.pow_succ_r; lia.
Qed.

Lemma shl_align_spec (mx : positive) (ex ex' : Z) :
  ∃ m, shl_align mx ex ex' = (m, Z.min ex ex') ∧
       Zpos m = Zpos mx * 2 ^ (ex - Z.min ex ex').
Proof.
  unfold shl_align. destruct (ex' - ex) as [|d|d] eqn:Hd.
  - exists mx. replace (Z.min ex ex') with ex by lia.
    rewrite Z.sub_diag. simpl. split; [done|lia].
  - exists mx. replace (Z.min ex ex') with ex by lia.
    rewrite Z.sub_diag. simpl. split; [done|lia].
  - exists (Pos.iter xO mx d). replace (Z.min ex ex') with ex' by lia.
    split; [done|]. rewrite iter_xO_spec. f_equal. f_equal. lia.
Qed.

Lemma binary_normalize_bounded (N m e : Z) :
  0 < N < 2 ^ 53 → 0 ≤ m → e ≤ 0 → m ≤ N * 2 ^ (- e) →
  Float.bounded N (binary_normalize 53 1024 m e false).
Proof.
  intros HN Hm He Hle. destruct m as [|p|p]; simpl; [done| |lia].
  unfold binary_round.
  destruct (shl_align_spec p e (fexp 53 1024 (Zpos (digits2_pos p) + e)))
    as (mz & -> & Hmz).
  set (ez := Z.min e _) in *.
  apply binary_round_aux_bounded; [done|lia|lia|].
  rewrite Hmz.
  pose proof (pow2_pos (e - ez) ltac:(lia)).
  pose proof (pow2_pos (- e) ltac:(lia)).
  replace (- ez) with (- e + (e - ez)) by lia.
  rewrite pow2_split by lia. nia.
Qed.

Lemma of_int_bounded (n : Z) :
  0 < n < 2 ^ 53 → ∃ x, Float.of_int n = Return x ∧ Float.bounded n x.
Proof.
  intros Hn. unfold Float.of_int.
  pose proof (binary_normalize_bounded n n 0 Hn ltac:(lia) ltac:(lia)
                ltac:(simpl; lia)) as Hb.
  fold Float.prec Float.emax in Hb |- *.
  destruct (binary_normalize _ _ n 0 false) as [s|s| |[] m e]; try done; eauto.
Qed.

Lemma unit_interval_inv (r : float) :
  Float.in_unit_interval r →
  ∃ m e, r = S754_finite false m e ∧ e ≤ -52 ∧ Zpos m < 2 ^ (- e).
Proof.
  intros (Hv & H0 & H1). destruct r as [s|s| |s m e]; try done.
  - by destruct s.
  - destruct s; [done|]. exists m, e. split; [done|].
    unfold Float.valid, valid_binary, bounded, canonical_mantissa in Hv.
    apply andb_prop in Hv as [Hc _]. apply Z.eqb_eq in Hc.
    pose proof (digits2_pos_bounds m) as [_ Hm].
    assert (Zpos (digits2_pos m) ≤ 53) as Hdig
      by (unfold fexp, emin, Float.prec, Float.emax in Hc; lia).
    assert (Zpos m < 2 ^ 53) as Hm53.
    { eapply Z.lt_le_trans; [done|]. apply Z.pow_le_mono_r; lia. }
    unfold Float.ltb, SFltb, Float.one, SFcompare in H1.
    destruct (e ?= -52) eqn:Hcmp; [| |done].
    + apply Z.compare_eq in Hcmp as ->. split; [lia|].
      destruct (Pos.compare_cont Eq m 4503599627370496) eqn:Hc2; done.
    + rewrite Z.compare_lt_iff in Hcmp. split; [lia|].
      eapply Z.lt_le_trans; [done|]. apply Z.pow_le_mono_r; lia.
Qed.

Lemma one_minus_bounded (r : float) :
  Float.in_unit_interval r → Float.bounded 1 (Float.one_minus r).
Proof.
  intros Hr. destruct (unit_interval_inv r Hr) as (m & e & -> & He & Hm).
  unfold Float.one_minus, Float.sub, Float.one, SFsub.
  replace (Z.min (-52) e) with e by lia.
  destruct (shl_align_spec 4503599627370496 (-52) e) as (m1 & E1 & Hm1).
  destruct (shl_align_spec m e e) as (m2 & E2 & Hm2).
  replace (Z.min (-52) e) with e in * by lia.
  replace (Z.min e e) with e in * by lia.
  rewrite E1, E2. simpl fst. rewrite Z.sub_diag in Hm2.
  assert (Zpos m1 = 2 ^ (- e)) as Hm1'.
  { rewrite Hm1. change (Zpos 4503599627370496) with (2 ^ 52).
    rewrite <- pow2_split by lia. f_equal. lia. }
  apply binary_normalize_bounded; unfold cond_Zopp; simpl Z.pow in *; lia.
Qed.

Lemma mul_bounded (N : Z) (x y : float) :
  0 < N < 2 ^ 53 → Float.bounded N x → Float.bounded 1 y → Float.bounded N (Float.mul x y).
Proof.
  intros HN Hx Hy. unfold Float.mul, SFmul.
  destruct x as [sx|sx| |sx mx ex], y as [sy|sy| |sy my ey]; try done.
  destruct sx, sy; try done. destruct Hx as [Hex Hmx], Hy as [Hey Hmy].
  - simpl xorb.
    apply binary_round_aux_bounded; [done|lia|lia|].
    pose proof (pow2_pos (- ex) ltac:(lia)).
    pose proof (pow2_pos (- ey) ltac:(lia)).
    replace (- (ex + ey)) with (- ex + - ey) by lia.
    rewrite pow2_split, Pos2Z.inj_mul by lia. nia.
Qed.

Lemma to_int_bounded (N : Z) (x : float) :
  0 ≤ N → Float.bounded N x → ∃ k, Float.to_int x = Return k ∧ 0 ≤ k ≤ N.
Proof.
  intros HN Hx. destruct x as [s|s| |s m e]; try done.
  - exists 0. split; [done|lia].
  - destruct s; [done|]. destruct Hx as [He Hm]. simpl.
    eexists; split; [done|]. destruct e as [|e|e]; [simpl in *; lia|lia|].
    change (- Zneg e) with (Zpos e) in Hm.
    pose proof (pow2_pos (Zpos e) ltac:(lia)).
    split; [apply Z.div_pos; lia|].
    apply Z.div_le_upper_bound; [done|]. lia.
Qed.


Lemma split_index_bounds (n : Z) (r : float) :
  0 < n < 2 ^ 53 → Float.in_unit_interval r →
  ∃ k, split_index n r = Return k ∧ 1 ≤ k ≤ n.
Proof.
  intros Hn Hr. unfold split_index, Float.int_mul.
  destruct (of_int_bounded n Hn) as (fn & -> & Hfn). simpl.
  pose proof (mul_bounded n fn _ Hn Hfn (one_minus_bounded r Hr)) as Hb.
  destruct (to_int_bounded n _ ltac:(lia) Hb) as (k & -> & Hk). simpl.
  eexists; split; [done|]. lia.
Qed.

Lemma int_true_div_returns (a b : Z) :
  0 ≤ a < 2 ^ 1023 → 0 < b → returns (Float.int_true_div a b).
Proof.
  intros Ha Hb. unfold Float.int_true_div.
  assert ((b =? 0) = false) as -> by lia.
  destruct (a =? 0) eqn:Ea; [by eexists|].
  rewrite !Z.abs_eq by lia. unfold SFdiv_core_binary.
  set (e := Z.min _ _). set (s := 0 - 0 - e).
  assert (e ≤ 0) as He by (unfold e; lia).
  set (m := match s with Z0 => a | Zpos _ => Z.shiftl a s | Zneg _ => 0 end).
  assert (m = a * 2 ^ (- e)) as Hm.
  { unfold m. destruct s as [|p|p] eqn:Es.
    - replace (- e) with 0 by lia. simpl. lia.
    - rewrite Z.shiftl_mul_pow2 by lia. do 2 f_equal. lia.
    - lia. }
  destruct (Z.div_eucl m b) as [q r] eqn:Ediv.
  assert (q = m / b) as Hq by (unfold Z.div; by rewrite Ediv).
  pose proof (pow2_pos (- e) ltac:(lia)) as Hpe.
  assert (Float.is_finite
            (binary_round_aux 53 1024 (xorb (a <? 0) (b <? 0)) q e
               (new_location b r))) as Hfin.
  { apply binary_round_aux_finite.
    - rewrite Hq. apply Z.div_pos; nia.
    - lia.
    - replace (1023 - e) with (1023 + - e) by lia. rewrite pow2_split by lia.
      assert (q ≤ m); [|nia].
      rewrite Hq. apply Z.div_le_upper_bound; nia. }
  fold Float.prec Float.emax in Hfin |- *.
  destruct (binary_round_aux _ _ _ q e _); try done; by eexists.
Qed.

End FloatFacts.

(** ** Lists, loops and the split *)

Lemma slice_to_from {A} (x : list A) (k : Z) : slice_to x k ++ slice_from x k = x.
Proof. unfold slice_to, slice_from. destruct (k <? 0); apply take_drop. Qed.

Lemma slice_to_length {A} (x : list A) (k : Z) :
  0 ≤ k ≤ len x → len (slice_to x k) = k.
Proof.
  unfold slice_to, len. intros Hk. assert ((k <? 0) = false) as -> by lia.
  rewrite length_take. lia.
Qed.

Lemma insert_Permutation {A} (l : list A) (i : nat) (a b : A) :
  l !! i = Some a → <[i:=b]> l ≡ₚ b :: delete i l.
Proof.
  intros Hi. rewrite insert_take_drop by (by eapply lookup_lt_Some).
  rewrite delete_take_drop. by rewrite <- Permutation_middle.
Qed.

Lemma swap_Permutation {A} (x : list A) (i j : nat) :
  (i < length x)%nat → (j < length x)%nat →
  ∃ x', swap x i j = Return x' ∧ x' ≡ₚ x.
Proof.
  intros Hi Hj. unfold swap.
  destruct (lookup_lt_is_Some_2 x i Hi) as [a Ha].
  destruct (lookup_lt_is_Some_2 x j Hj) as [b Hb].
  rewrite Ha, Hb. eexists; split; [done|].
  destruct (decide (i = j)) as [->|Hne].
  - rewrite list_insert_insert_eq, list_insert_id; [done|congruence].
  - assert (<[i:=b]> x !! j = Some b) as Hb'
      by (by rewrite list_lookup_insert_ne).
    etrans; [apply (insert_Permutation _ j b a Hb')|].
    etrans; [|symmetry; apply (delete_Permutation x i a Ha)].
    constructor. apply (Permutation_cons_inv (a := b)).
    etrans; [symmetry; apply (delete_Permutation _ j b Hb')|].
    by apply (insert_Permutation x i a b).
Qed.

Lemma for_each_cons `{MBind M, MRet M} {A S : Type}
    (x : A) (xs : list A) (s : S) (body : S → A → M S) :
  for_each (x :: xs) s body = (s' ← body s x; for_each xs s' body).
Proof. done. Qed.

Lemma bind_Return {A B} (a : A) (f : A → result B) : (Return a ≫= f) = f a.
Proof. done. Qed.

Lemma bind_Raise {A B} (e : exn) (f : A → result B) : (Raise e ≫= f) = Raise e.
Proof. done. Qed.

Section Shuffle.
Context `{RG : RandomGen}.

Lemma shuffle_step_Permutation {A} (x : list A) (g : rng) (i : nat) :
  (i < length x)%nat →
  ∃ x' g', shuffle_step (x, g) i = Return (x', g') ∧ x' ≡ₚ x.
Proof.
  intros Hi. unfold shuffle_step.
  pose proof (randbelow_lt g (i + 1) ltac:(lia)) as Hj.
  destruct (randbelow g (i + 1)) as [j g1]. cbn [fst] in Hj.
  destruct (swap_Permutation x i j Hi ltac:(lia)) as (x1 & -> & Hx1).
  by exists x1, g1.
Qed.

Lemma shuffle_loop_Permutation {A} (idx : list nat) (x : list A) (g : rng) :
  Forall (λ i, (i < length x)%nat) idx →
  ∃ x' g', for_each idx (x, g) shuffle_step = Return (x', g') ∧ x' ≡ₚ x.
Proof.
  revert x g. induction idx as [|i idx IH]; intros x g Hidx.
  - by exists x, g.
  - apply Forall_cons in Hidx as [Hi Hidx]. rewrite for_each_cons.
    destruct (shuffle_step_Permutation x g i Hi) as (x1 & g1 & -> & Hx1).
    rewrite bind_Return.
    destruct (IH x1 g1) as (x' & g' & -> & Hx').
    + by rewrite (Permutation_length Hx1).
    + exists x', g'. split; [done|]. by rewrite Hx'.
Qed.

Lemma shuffle_Permutation {A} (g : rng) (x : list A) :
  ∃ x' g', shuffle g x = Return (x', g') ∧ x' ≡ₚ x.
Proof.
  apply shuffle_loop_Permutation. apply Forall_forall. intros i Hi.
  apply elem_of_reverse, elem_of_seq in Hi. lia.
Qed.

End Shuffle.

Lemma filter_all {A} (P : A → Prop) `{∀ x, Decision (P x)} (l : list A) :
  (∀ x, x ∈ l → P x) → filter P l = l.
Proof.
  induction l as [|a l IH]; intros Hl; [done|].
  rewrite filter_cons_True by (apply Hl; left).
  f_equal. apply IH. intros x Hx. apply Hl. by right.
Qed.

Lemma filter_none {A} (P : A → Prop) `{∀ x, Decision (P x)} (l : list A) :
  (∀ x, x ∈ l → ¬ P x) → filter P l = [].
Proof.
  induction l as [|a l IH]; intros Hl; [done|].
  rewrite filter_cons_False by (apply Hl; left).
  apply IH. intros x Hx. apply Hl. by right.
Qed.

Section Split.
Context `{RT : Runtime} `{RG : RandomGen}.

Lemma samples_of_app (w : Z) (l k : list Row) :
  samples_of w (l ++ k) = samples_of w l ++ samples_of w k.
Proof. apply filter_app. Qed.

Lemma samples_of_same (w : Z) (l : list Row) :
  (∀ r, r ∈ l → py_int (writer_id r) = Some w) → samples_of w l = l.
Proof. apply filter_all. Qed.

Lemma samples_of_other (w w' : Z) (l : list Row) :
  w ≠ w' → (∀ r, r ∈ l → py_int (writer_id r) = Some w') → samples_of w l = [].
Proof.
  intros Hne Hl. apply filter_none. intros r Hr Hw.
  rewrite (Hl r Hr) in Hw. congruence.
Qed.

Lemma elem_of_samples_of (w : Z) (rows : list Row) (r : Row) :
  r ∈ samples_of w rows ↔ py_int (writer_id r) = Some w ∧ r ∈ rows.
Proof. unfold samples_of. by rewrite list_elem_of_filter. Qed.

Lemma setdefault_append_Some (m : gmap Z (list Row)) (r : Row) (wid : Z) :
  py_int (writer_id r) = Some wid →
  setdefault_append m r = Return (<[wid := default [] (m !! wid) ++ [r]]> m).
Proof. intros Hwid. unfold setdefault_append, int. by rewrite Hwid. Qed.

Lemma setdefault_append_None (m : gmap Z (list Row)) (r : Row) :
  py_int (writer_id r) = None → setdefault_append m r = Raise ValueError.
Proof. intros Hwid. unfold setdefault_append, int. by rewrite Hwid. Qed.

(** The first loop builds the map from each writer to its records. *)
Lemma group_loop_spec (rows : list Row) (m0 : gmap Z (list Row)) :
  int_ids rows →
  ∃ m, for_each rows m0 setdefault_append = Return m ∧
       ∀ w, m !! w =
            match m0 !! w, samples_of w rows with
            | None, [] => None
            | o, l => Some (default [] o ++ l)
            end.
Proof.
  revert m0. induction rows as [|r rows IH]; intros m0 Hids.
  - exists m0. split; [done|]. intros w. simpl.
    destruct (m0 !! w); simpl; [by rewrite app_nil_r|done].
  - apply Forall_cons in Hids as [[wid Hwid] Hids]. rewrite for_each_cons.
    rewrite (setdefault_append_Some _ _ _ Hwid), bind_Return.
    destruct (IH (<[wid := default [] (m0 !! wid) ++ [r]]> m0) Hids)
      as (m & -> & Hm).
    exists m. split; [done|]. intros w. rewrite Hm. unfold samples_of.
    destruct (decide (wid = w)) as [->|Hne].
    + rewrite lookup_insert_eq, filter_cons_True by done. simpl.
      rewrite <- app_assoc. simpl. by destruct (m0 !! w).
    + rewrite lookup_insert_ne, filter_cons_False by congruence. done.
Qed.

Lemma group_by_writer_spec (rows : list Row) :
  int_ids rows →
  ∃ m, group_by_writer rows = Return m ∧
       ∀ w, m !! w = match samples_of w rows with
                     | [] => None
                     | l => Some l
                     end.
Proof.
  intros Hids. destruct (group_loop_spec rows ∅ Hids) as (m & Hm & Hlook).
  exists m. split; [done|]. intros w. rewrite Hlook, lookup_empty.
  by destruct (samples_of w rows).
Qed.

Lemma group_loop_Raise (rows : list Row) (m0 : gmap Z (list Row)) (e : exn) :
  for_each rows m0 setdefault_append = Raise e → e = ValueError ∧ ¬ int_ids rows.
Proof.
  revert m0. induction rows as [|r rows IH]; intros m0; [done|].
  rewrite for_each_cons.
  destruct (py_int (writer_id r)) as [wid|] eqn:Hwid.
  2: rewrite (setdefault_append_None _ _ Hwid), bind_Raise.
  1: rewrite (setdefault_append_Some _ _ _ Hwid), bind_Return.
  - intros Hr. destruct (IH _ Hr) as [-> Hn]. split; [done|].
    intros Hids. apply Hn. by apply Forall_cons in Hids as [_ ?].
  - intros [= <-]. split; [done|]. intros Hids.
    apply Forall_cons in Hids as [[? ?] _]. congruence.
Qed.

(** The writers in [sorted(by_writer)]. *)
Lemma sorted_keys_spec (m : gmap Z (list Row)) (rows : list Row) :
  (∀ w, m !! w = match samples_of w rows with [] => None | l => Some l end) →
  NoDup (sorted_int (elements (dom m))) ∧
  ∀ w, w ∈ sorted_int (elements (dom m)) ↔ samples_of w rows ≠ [].
Proof.
  intros Hm. unfold sorted_int. split.
  - rewrite merge_sort_Permutation. apply NoDup_elements.
  - intros w. rewrite merge_sort_Permutation, elem_of_elements, elem_of_dom, Hm.
    destruct (samples_of w rows) as [|r l].
    + split; [by intros [? ?]|done].
    + split; [done|by eexists].
Qed.

Lemma getitem_Some (m : gmap Z (list Row)) (w : Z) (l : list Row) :
  m !! w = Some l → getitem m w = Return l.
Proof. intros Hm. unfold getitem. by rewrite Hm. Qed.

(** One iteration of the second loop. *)
Lemma split_writer_spec (m : gmap Z (list Row)) (rows : list Row) (r : float)
    (tr te : list Row) (g : rng) (w k : Z) :
  m !! w = Some (samples_of w rows) →
  split_index (len (samples_of w rows)) r = Return k →
  ∃ sh g', sh ≡ₚ samples_of w rows ∧
           split_writer m r (tr, te, g) w
           = Return (tr ++ slice_to sh k, te ++ slice_from sh k, g').
Proof.
  intros Hm Hk. unfold split_writer.
  rewrite (getitem_Some _ _ _ Hm), bind_Return.
  destruct (shuffle_Permutation g (samples_of w rows)) as (sh & g' & -> & Hsh).
  rewrite bind_Return. unfold len in *.
  rewrite (Permutation_length Hsh), Hk, bind_Return.
  by exists sh, g'.
Qed.

Lemma slice_to_elem_of {A} (x : list A) (k : Z) (a : A) :
  a ∈ slice_to x k → a ∈ x.
Proof. unfold slice_to. destruct (k <? 0); apply subseteq_take. Qed.

Lemma slice_from_elem_of {A} (x : list A) (k : Z) (a : A) :
  a ∈ slice_from x k → a ∈ x.
Proof. unfold slice_from. destruct (k <? 0); apply subseteq_drop. Qed.

Lemma samples_of_slices (w w' : Z) (rows sh : list Row) (k : Z) :
  sh ≡ₚ samples_of w' rows →
  samples_of w (slice_to sh k) = (if decide (w = w') then slice_to sh k else []) ∧
  samples_of w (slice_from sh k) = (if decide (w = w') then slice_from sh k else []).
Proof.
  intros Hsh.
  assert (∀ x, x ∈ sh → py_int (writer_id x) = Some w') as Hall.
  { intros x Hx. rewrite Hsh in Hx. by apply elem_of_samples_of in Hx as [? _]. }
  destruct (decide (w = w')) as [->|Hne]; split.
  - apply samples_of_same. intros x Hx. eapply Hall, slice_to_elem_of, Hx.
  - apply samples_of_same. intros x Hx. eapply Hall, slice_from_elem_of, Hx.
  - apply (samples_of_other w w'); [done|].
    intros x Hx. eapply Hall, slice_to_elem_of, Hx.
  - apply (samples_of_other w w'); [done|].
    intros x Hx. eapply Hall, slice_from_elem_of, Hx.
Qed.

(** The second loop, from any accumulated [train] and [test]. *)
Lemma split_loop_spec (m : gmap Z (list Row)) (rows : list Row) (r : float)
    (wids : list Z) (tr0 te0 : list Row) (g : rng) :
  NoDup wids →
  (∀ w, w ∈ wids → m !! w = Some (samples_of w rows)) →
  (∀ w, w ∈ wids → returns (split_index (len (samples_of w rows)) r)) →
  ∃ train test g',
    for_each wids (tr0, te0, g) (split_writer m r) = Return (train, test, g') ∧
    train ++ test ≡ₚ (tr0 ++ te0) ++ mjoin ((λ w, samples_of w rows) <$> wids) ∧
    ∀ w,
      (w ∈ wids →
       ∃ sh k, sh ≡ₚ samples_of w rows ∧
               split_index (len (samples_of w rows)) r = Return k ∧
               samples_of w train = samples_of w tr0 ++ slice_to sh k ∧
               samples_of w test = samples_of w te0 ++ slice_from sh k) ∧
      (w ∉ wids →
       samples_of w train = samples_of w tr0 ∧
       samples_of w test = samples_of w te0).
Proof.
  revert tr0 te0 g. induction wids as [|w0 ws IH]; intros tr0 te0 g Hnd Hm Hret.
  - exists tr0, te0, g. split; [done|]. split; [by rewrite app_nil_r|].
    intros w. split; [by intros ?%elem_of_nil|done].
  - apply NoDup_cons in Hnd as [Hw0 Hnd].
    destruct (Hret w0 ltac:(left)) as [k0 Hk0].
    destruct (split_writer_spec m rows r tr0 te0 g w0 k0
                (Hm w0 ltac:(left)) Hk0) as (sh0 & g1 & Hsh0 & Hstep).
    rewrite for_each_cons, Hstep, bind_Return.
    destruct (IH (tr0 ++ slice_to sh0 k0) (te0 ++ slice_from sh0 k0) g1 Hnd)
      as (train & test & g' & -> & Hperm & Hcount).
    { intros w Hw. apply Hm. by right. }
    { intros w Hw. apply Hret. by right. }
    exists train, test, g'. split; [done|]. split.
    + assert (samples_of w0 rows ≡ₚ slice_to sh0 k0 ++ slice_from sh0 k0) as Hs
        by (by rewrite slice_to_from).
      rewrite Hperm.
      change (mjoin ((λ w, samples_of w rows) <$> w0 :: ws))
        with (samples_of w0 rows ++ mjoin ((λ w, samples_of w rows) <$> ws)).
      rewrite Hs.
      rewrite <- !(assoc_L (++)). apply Permutation_app_head.
      apply Permutation_app_swap_app.
    + intros w. destruct (Hcount w) as [Hin Hout].
      destruct (samples_of_slices w w0 rows sh0 k0 Hsh0) as [Hto Hfrom].
      split.
      * intros [->|Hw]%elem_of_cons.
        -- destruct (Hout Hw0) as [-> ->]. rewrite !samples_of_app, Hto, Hfrom.
           rewrite !decide_True by done. exists sh0, k0. by split_and!.
        -- destruct (Hin Hw) as (sh & k & Hsh & Hk & -> & ->).
           rewrite !samples_of_app, Hto, Hfrom.
           rewrite !decide_False by (by intros ->). rewrite !app_nil_r.
           exists sh, k. by split_and!.
      * intros Hw. apply not_elem_of_cons in Hw as [Hne Hw].
        destruct (Hout Hw) as [-> ->]. rewrite !samples_of_app, Hto, Hfrom.
        rewrite !decide_False by done. by rewrite !app_nil_r.
Qed.

(** The groups of all writers together are the input. *)
Lemma samples_of_filter_other (w w' : Z) (rows : list Row) :
  w ≠ w' →
  samples_of w (filter (λ r, ¬ py_int (writer_id r) = Some w') rows)
  = samples_of w rows.
Proof.
  intros Hne. unfold samples_of. rewrite list_filter_filter.
  apply list_filter_iff. intros x. split; [by intros [? _]|].
  intros Hx. split; [done|]. rewrite Hx. congruence.
Qed.

Lemma groups_Permutation (wids : list Z) (rows : list Row) :
  NoDup wids →
  (∀ r, r ∈ rows → ∃ w, w ∈ wids ∧ py_int (writer_id r) = Some w) →
  mjoin ((λ w, samples_of w rows) <$> wids) ≡ₚ rows.
Proof.
  revert rows. induction wids as [|w0 ws IH]; intros rows Hnd Hcover.
  - destruct rows as [|r rows]; [done|].
    destruct (Hcover r ltac:(left)) as (w & Hw & _). by apply elem_of_nil in Hw.
  - apply NoDup_cons in Hnd as [Hw0 Hnd].
    change (mjoin ((λ w, samples_of w rows) <$> w0 :: ws))
      with (samples_of w0 rows ++ mjoin ((λ w, samples_of w rows) <$> ws)).
    etrans; [|apply (filter_app_complement
                       (λ r, py_int (writer_id r) = Some w0) rows)].
    apply Permutation_app; [done|].
    set (rest := filter (λ r, ¬ py_int (writer_id r) = Some w0) rows).
    assert ((λ w, samples_of w rows) <$> ws = (λ w, samples_of w rest) <$> ws)
      as ->.
    { apply list_fmap_ext. intros i w Hw.
      symmetry. apply samples_of_filter_other. intros ->.
      apply Hw0. by eapply list_elem_of_lookup_2. }
    apply IH; [done|].
    intros r [Hr Hin]%list_elem_of_filter.
    destruct (Hcover r Hin) as (w & [->|Hw]%elem_of_cons & Hid); [done|eauto].
Qed.

End Split.

(** ** Console and disk *)

Section IO.
Context `{RT : Runtime}.

Lemma io_bind_Return {A B} (m : io A) (f : A → io B) (w w' : world) (a : A) :
  m w = (Return a, w') → (m ≫= f) w = f a w'.
Proof. intros Hm. unfold mbind, io_bind. by rewrite Hm. Qed.

Lemma io_bind_Raise {A B} (m : io A) (f : A → io B) (w w' : world) (e : exn) :
  m w = (Raise e, w') → (m ≫= f) w = (Raise e, w').
Proof. intros Hm. unfold mbind, io_bind. by rewrite Hm. Qed.

Lemma prints_only_ret {A} (a : A) : prints_only (mret a) a.
Proof. intros isf rd out wr. by exists out. Qed.

Lemma prints_only_print_end (s e : list N) : prints_only (print_end s e) ().
Proof. intros isf rd out wr. by eexists. Qed.

Lemma prints_only_print (s : list N) : prints_only (print s) ().
Proof. apply prints_only_print_end. Qed.

Lemma prints_only_bind {A B} (m : io A) (f : A → io B) (a : A) (b : B) :
  prints_only m a → prints_only (f a) b → prints_only (m ≫= f) b.
Proof.
  intros Hm Hf isf rd out wr.
  destruct (Hm isf rd out wr) as [out1 H1].
  destruct (Hf isf rd out1 wr) as [out2 H2].
  exists out2. by rewrite (io_bind_Return _ _ _ _ _ H1).
Qed.

Lemma prints_only_for_each {A} (xs : list A) (body : () → A → io ()) :
  (∀ x, prints_only (body () x) ()) → prints_only (for_each xs () body) ().
Proof.
  intros Hbody. induction xs as [|x xs IH].
  - apply prints_only_ret.
  - rewrite for_each_cons. eapply prints_only_bind; [apply Hbody|apply IH].
Qed.

Lemma prints_only_print_section (title : list N) :
  prints_only (print_section title) ().
Proof.
  unfold print_section.
  repeat (eapply prints_only_bind; [apply prints_only_print|]).
  apply prints_only_print.
Qed.

Lemma prints_only_report_missing (missing : list (list N)) :
  prints_only (report_missing missing) ().
Proof.
  unfold report_missing.
  eapply prints_only_bind; [apply prints_only_print|].
  eapply prints_only_bind.
  { apply prints_only_for_each. intros x. apply prints_only_print. }
  destruct (20 <? len missing);
    [apply prints_only_print|apply prints_only_ret].
Qed.

(** The loop of [verify_images] collects the absent names in order and
    leaves the world as it is. *)
Lemma find_missing_loop (rows : list Row) (acc : list (list N)) (w : world) :
  for_each rows acc check_image w = (Return (acc ++ missing_names w rows), w).
Proof.
  revert acc. induction rows as [|r rows IH]; intros acc.
  - unfold missing_names. simpl. by rewrite app_nil_r.
  - rewrite for_each_cons.
    erewrite io_bind_Return; [|reflexivity]. rewrite IH.
    unfold missing_names. rewrite filter_cons.
    destruct (is_file w (in_base_dir (file_name r))) eqn:Hf.
    + by rewrite decide_False by done.
    + rewrite decide_True by done. by rewrite fmap_cons, <- app_assoc.
Qed.

Lemma find_missing_spec (rows : list Row) (w : world) :
  find_missing rows w = (Return (missing_names w rows), w).
Proof. apply find_missing_loop. Qed.

Lemma missing_names_disk (isf : list N → bool) rd rd' out out' wr wr'
    (rows : list Row) :
  missing_names (World isf rd out wr) rows
  = missing_names (World isf rd' out' wr') rows.
Proof. done. Qed.

Lemma verify_images_spec (rows : list Row) (w : world) :
  ∃ w', verify_images rows w
        = (Return (bool_decide (missing_names w rows = [])), w') ∧
        same_files w w'.
Proof.
  destruct w as [isf rd out wr]. unfold verify_images.
  destruct (prints_only_print_section (u "Image Verification") isf rd out wr)
    as [out1 H1].
  rewrite (io_bind_Return _ _ _ _ _ H1).
  rewrite (io_bind_Return _ _ _ _ _ (find_missing_spec rows _)).
  rewrite (missing_names_disk isf rd rd out1 out wr wr).
  destruct (missing_names (World isf rd out wr) rows) as [|x missing] eqn:Hmiss.
  - destruct (prints_only_print
                (u "  " ++ [10003%N] ++ u " All " ++ str_of_int (len rows)
                   ++ u " images verified.") isf rd out1 wr) as [out2 H2].
    rewrite (io_bind_Return _ _ _ _ _ H2). by eexists.
  - destruct (prints_only_report_missing (x :: missing) isf rd out1 wr)
      as [out2 H2].
    rewrite (io_bind_Return _ _ _ _ _ H2). by eexists.
Qed.

Lemma path_read_bytes_Some (p : list N) (b : list byte) (w : world) :
  read_bytes w p = Some b → path_read_bytes p w = (Return b, w).
Proof. intros Hr. unfold path_read_bytes. by rewrite Hr. Qed.

Lemma path_read_bytes_None (p : list N) (w : world) :
  read_bytes w p = None → path_read_bytes p w = (Raise OSError, w).
Proof. intros Hr. unfold path_read_bytes. by rewrite Hr. Qed.

(** One iteration of the checksum loop on a fixed disk. *)
Lemma checksum_image_spec (total : Z) (entries : list (list N)) (i : Z) (r : Row)
    (isf : list N → bool) (rd : list N → option (list byte)) out wr :
  ∃ out',
    checksum_image total entries (i, r) (World isf rd out wr)
    = (if isf (in_base_dir (file_name r))
       then match rd (in_base_dir (file_name r)) with
            | Some b => Return (entries ++ [sha256_hexdigest b ++ u "  " ++ file_name r])
            | None => Raise OSError
            end
       else Return entries,
       World isf rd out' wr).
Proof.
  set (w := World isf rd out wr). unfold checksum_image.
  erewrite io_bind_Return; [|reflexivity]. simpl is_file.
  assert (∀ x : list (list N),
            prints_only
              ((if (i mod 1000 =? 0) || (i =? total)
                then print_end (u "  Processed " ++ str_of_int i ++ u "/"
                                  ++ str_of_int total ++ u " files ...") [13%N]
                else mret ());; mret x) x) as Hprogress.
  { intros x. eapply prints_only_bind; [|apply prints_only_ret].
    destruct ((i mod 1000 =? 0) || (i =? total));
      [apply prints_only_print_end|apply prints_only_ret]. }
  destruct (isf (in_base_dir (file_name r))) eqn:Hf.
  - destruct (rd (in_base_dir (file_name r))) as [b|] eqn:Hr.
    + erewrite io_bind_Return.
      2: { erewrite io_bind_Return; [reflexivity|].
           by apply path_read_bytes_Some. }
      apply Hprogress.
    + erewrite io_bind_Raise.
      2: { erewrite io_bind_Raise; [reflexivity|].
           by apply path_read_bytes_None. }
      by exists out.
  - erewrite io_bind_Return; [|reflexivity]. apply Hprogress.
Qed.

(** The checksum loop on a fixed disk: it appends one line per existing
    image, or stops with [OSError] at the first unreadable one. *)
Lemma checksum_loop_spec (total : Z) (irs : list (Z * Row))
    (entries : list (list N))
    (isf : list N → bool) (rd : list N → option (list byte)) out wr :
  let w := World isf rd out wr in
  ∃ out',
    (images_readable w irs.*2 →
     for_each irs entries (checksum_image total) w
     = (Return (entries ++ checksum_lines w irs.*2), World isf rd out' wr)) ∧
    (¬ images_readable w irs.*2 →
     for_each irs entries (checksum_image total) w
     = (Raise OSError, World isf rd out' wr)).
Proof.
  revert entries out. induction irs as [|[i r] irs IH]; intros entries out w.
  - exists out. split.
    + intros _. unfold checksum_lines. simpl. by rewrite app_nil_r.
    + intros Hn. destruct Hn. constructor.
  - rewrite for_each_cons.
    destruct (checksum_image_spec total entries i r isf rd out wr)
      as [out1 Hstep]. fold w in Hstep.
    unfold images_readable, checksum_lines. rewrite !fmap_cons. cbn [snd].
    rewrite filter_cons. simpl is_file. simpl read_bytes.
    destruct (isf (in_base_dir (file_name r))) eqn:Hf.
    + destruct (rd (in_base_dir (file_name r))) as [b|] eqn:Hr.
      * rewrite (io_bind_Return _ _ _ _ _ Hstep).
        destruct (IH (entries ++ [sha256_hexdigest b ++ u "  " ++ file_name r])
                    out1) as (out2 & Hok & Hfail).
        exists out2. split.
        -- intros [_ Hall]%Forall_cons. rewrite (Hok Hall).
           rewrite decide_True by done. rewrite fmap_cons. simpl read_bytes.
           rewrite Hr. simpl. by rewrite <- app_assoc.
        -- intros Hn. apply Hfail. intros Hall. apply Hn.
           apply Forall_cons. split; [by eexists|done].
      * rewrite (io_bind_Raise _ _ _ _ _ Hstep). exists out1. split; [|done].
        intros [Hr' _]%Forall_cons. destruct (Hr' Hf) as [? ?]. congruence.
    + rewrite (io_bind_Return _ _ _ _ _ Hstep).
      destruct (IH entries out1) as (out2 & Hok & Hfail).
      exists out2. split.
      * intros [_ Hall]%Forall_cons. rewrite (Hok Hall).
        destruct (decide (false = true)); [done|]. reflexivity.
      * intros Hn. apply Hfail. intros Hall. apply Hn.
        apply Forall_cons. split; [intros Hx; congruence|done].
Qed.

Lemma enumerate1_snd {A} (xs : list A) : (enumerate1 xs).*2 = xs.
Proof.
  unfold enumerate1. apply snd_zip. rewrite length_seqZ. unfold len. lia.
Qed.

(** [generate_checksums] as a whole. *)
Lemma generate_checksums_spec (rows : list Row) (w : world) :
  ∃ w',
    generate_checksums rows w
    = (match read_bytes w CSV_PATH with
       | Some _ => if decide (images_readable w rows) then Return () else Raise OSError
       | None => Raise OSError
       end, w') ∧
    is_file w' = is_file w ∧ read_bytes w' = read_bytes w ∧
    written w' =
      match read_bytes w CSV_PATH with
      | Some csv =>
          if decide (images_readable w rows)
          then written w ++
               [(in_base_dir (u "checksums.sha256"),
                 join [10%N] ((sha256_hexdigest csv ++ u "  data.csv")
                                :: checksum_lines w rows) ++ [10%N])]
          else written w
      | None => written w
      end.
Proof.
  destruct w as [isf rd out wr]. unfold generate_checksums. simpl read_bytes.
  simpl is_file. simpl written.
  destruct (prints_only_print_section (u "Generating SHA-256 Checksums")
              isf rd out wr) as [out1 H1].
  rewrite (io_bind_Return _ _ _ _ _ H1).
  destruct (rd CSV_PATH) as [csv|] eqn:Hcsv.
  2: { erewrite io_bind_Raise; [|by apply path_read_bytes_None]. by eexists. }
  erewrite io_bind_Return; [|by apply path_read_bytes_Some].
  unfold checksum_images.
  destruct (checksum_loop_spec (len rows) (enumerate1 rows)
              [sha256_hexdigest csv ++ u "  data.csv"] isf rd out1 wr)
    as (out2 & Hok & Hfail).
  rewrite enumerate1_snd in Hok, Hfail.
  assert (∀ o o', images_readable (World isf rd o wr) rows
                  ↔ images_readable (World isf rd o' wr) rows) as Hsame by done.
  destruct (decide (images_readable (World isf rd out wr) rows)) as [Hall|Hn].
  - rewrite (io_bind_Return _ _ _ _ _ (Hok (proj1 (Hsame out out1) Hall))).
    erewrite io_bind_Return; [|reflexivity].
    erewrite io_bind_Return; [|reflexivity].
    eexists. split; [reflexivity|]. done.
  - rewrite (io_bind_Raise _ _ _ _ _
               (Hfail (λ H, Hn (proj2 (Hsame out out1) H)))).
    by eexists.
Qed.

End IO.

(** ** Statistics *)

Lemma foldl_add (a : Z) (xs : list Z) : foldl Z.add a xs = a + py_sum xs.
Proof.
  unfold py_sum. revert a. induction xs as [|x xs IH]; intros a; simpl; [lia|].
  rewrite (IH (a + x)), (IH (0 + x)). lia.
Qed.

Lemma py_sum_cons (x : Z) (xs : list Z) : py_sum (x :: xs) = x + py_sum xs.
Proof. unfold py_sum at 1. simpl. by rewrite foldl_add. Qed.

Lemma py_sum_nonneg (xs : list Z) : Forall (λ x, 0 ≤ x) xs → 0 ≤ py_sum xs.
Proof.
  induction 1 as [|x xs Hx _ IH]; [done|]. rewrite py_sum_cons. lia.
Qed.

Lemma py_min_returns (xs : list Z) : xs ≠ [] → returns (py_min xs).
Proof. destruct xs; [done|]. intros _. by eexists. Qed.

Lemma py_max_returns (xs : list Z) : xs ≠ [] → returns (py_max xs).
Proof. destruct xs; [done|]. intros _. by eexists. Qed.

Section CounterFacts.
Context {K : Type} `{EqDecision K}.

Lemma counter_incr_sum (k : K) (c : list (K * Z)) :
  py_sum (values (counter_incr k c)) = py_sum (values c) + 1.
Proof.
  unfold values. induction c as [|[k' n] c IH]; [done|]. cbn [counter_incr].
  destruct (decide (k = k')); rewrite !fmap_cons, !py_sum_cons; cbn [snd];
    rewrite ?IH; lia.
Qed.

Lemma counter_incr_nonempty (k : K) (c : list (K * Z)) : counter_incr k c ≠ [].
Proof. destruct c as [|[k' n] c]; simpl; [done|]. by destruct (decide (k = k')). Qed.

Lemma Counter_snoc (xs : list K) (x : K) :
  Counter (xs ++ [x]) = counter_incr x (Counter xs).
Proof. unfold Counter. by rewrite foldl_app. Qed.

(** The counts of a [Counter] add up to the number of items counted. *)
Lemma Counter_sum (xs : list K) : py_sum (values (Counter xs)) = len xs.
Proof.
  induction xs as [|x xs IH] using rev_ind; [done|].
  rewrite Counter_snoc, counter_incr_sum, IH. unfold len.
  rewrite length_app. simpl. lia.
Qed.

Lemma Counter_nonempty (xs : list K) : xs ≠ [] → Counter xs ≠ [].
Proof.
  destruct xs as [|x xs] using rev_ind; [done|]. intros _.
  rewrite Counter_snoc. apply counter_incr_nonempty.
Qed.

End CounterFacts.

Section Statistics.
Context `{RT : Runtime}.

Lemma int_Some (s : list N) (n : Z) : py_int s = Some n → int s = Return n.
Proof. intros Hs. unfold int. by rewrite Hs. Qed.

Lemma mapM_int (rows : list Row) :
  int_ids rows →
  ∃ ids, mapM (λ r, int (writer_id r)) rows = Return ids ∧
         length ids = length rows.
Proof.
  induction 1 as [|r rows [n Hn] _ (ids & IH & Hlen)].
  - by exists [].
  - exists (n :: ids). simpl. rewrite (int_Some _ _ Hn). simpl.
    rewrite IH. simpl. split; [done|]. by rewrite Hlen.
Qed.

Lemma len_nonneg {A} (l : list A) : 0 ≤ len l.
Proof. unfold len. lia. Qed.

Lemma sum_lengths_nonneg {A} (ls : list (list A)) : 0 ≤ py_sum (len <$> ls).
Proof.
  apply py_sum_nonneg, Forall_fmap, Forall_forall. intros l _. apply len_nonneg.
Qed.

(** [sorted] keeps the members. *)
Lemma elem_of_sorted_chars (c : N) (l : list N) : c ∈ sorted_chars l ↔ c ∈ l.
Proof. unfold sorted_chars. by rewrite merge_sort_Permutation. Qed.

Lemma NoDup_sorted_chars (l : list N) : NoDup l → NoDup (sorted_chars l).
Proof. unfold sorted_chars. by rewrite merge_sort_Permutation. Qed.

(** The members of [required] that are in [seen] and those that are not
    split [required]. *)
Lemma present_missing_partition (required seen : gset N) :
  sorted_chars (elements (required ∩ seen))
    ++ sorted_chars (elements (required ∖ seen))
  ≡ₚ elements required.
Proof.
  apply NoDup_Permutation.
  - apply NoDup_app. split_and!.
    + apply NoDup_sorted_chars, NoDup_elements.
    + intros c. rewrite !elem_of_sorted_chars, !elem_of_elements.
      rewrite elem_of_intersection, elem_of_difference. tauto.
    + apply NoDup_sorted_chars, NoDup_elements.
  - apply NoDup_elements.
  - intros c. rewrite elem_of_app, !elem_of_sorted_chars, !elem_of_elements.
    rewrite elem_of_intersection, elem_of_difference.
    destruct (decide (c ∈ seen)); tauto.
Qed.

Lemma compute_statistics_spec (rows : list Row) :
  rows ≠ [] → int_ids rows → dataset_size rows < 2 ^ 1023 →
  ∃ s, compute_statistics rows = Return s ∧
       total_images s = len rows ∧
       py_sum (values (writer_counts s)) = len rows ∧
       german_chars_present s
       = sorted_chars (elements (GERMAN_SPECIAL ∩ list_to_set (mjoin (text <$> rows)))) ∧
       german_chars_missing s
       = sorted_chars (elements (GERMAN_SPECIAL ∖ list_to_set (mjoin (text <$> rows)))).
Proof.
  intros Hne Hids Hsize. unfold compute_statistics.
  destruct (mapM_int rows Hids) as (ids & -> & Hlen). rewrite bind_Return.
  assert (ids ≠ []) as Hids_ne.
  { intros ->. destruct rows; [done|]. simpl in Hlen. lia. }
  unfold dataset_size in Hsize.
  pose proof (len_nonneg rows) as Hrows0.
  pose proof (sum_lengths_nonneg (text <$> rows)) as Hchars0.
  assert (len rows ≠ 0) as Hrows_pos.
  { unfold len. destruct rows; [done|]. simpl. lia. }
  destruct (py_min_returns (values (Counter ids))) as [min_w ->].
  { unfold values. intros Hnil%fmap_nil_inv. by apply Counter_nonempty in Hnil. }
  rewrite bind_Return.
  destruct (py_max_returns (values (Counter ids))) as [max_w ->].
  { unfold values. intros Hnil%fmap_nil_inv. by apply Counter_nonempty in Hnil. }
  rewrite bind_Return.
  assert (len ids = len rows) as Hlen' by (unfold len; lia).
  destruct (int_true_div_returns (py_sum (values (Counter ids)))
              (len (Counter ids))) as [avg_w ->].
  { rewrite Counter_sum. lia. }
  { pose proof (Counter_nonempty ids Hids_ne). unfold len.
    destruct (Counter ids); [done|]. simpl. lia. }
  rewrite bind_Return.
  destruct (int_true_div_returns (py_sum (len <$> (text <$> rows)))
              (len (len <$> (text <$> rows)))) as [avg_l ->].
  { lia. }
  { unfold len at 1. rewrite !length_fmap. fold (len rows). lia. }
  rewrite bind_Return.
  destruct (py_min_returns (len <$> (text <$> rows))) as [min_l ->].
  { intros Hnil%fmap_nil_inv%fmap_nil_inv. done. }
  rewrite bind_Return.
  destruct (py_max_returns (len <$> (text <$> rows))) as [max_l ->].
  { intros Hnil%fmap_nil_inv%fmap_nil_inv. done. }
  rewrite bind_Return.
  eexists. split; [reflexivity|]. simpl.
  split_and!; try done. by rewrite Counter_sum.
Qed.

End Statistics.

(** ** The split as a whole *)

Lemma split_index_inv (n : Z) (r : float) (k : Z) :
  split_index n r = Return k →
  ∃ x t, Float.int_mul n (Float.one_minus r) = Return x ∧
         Float.to_int x = Return t ∧ k = Z.max 1 t.
Proof.
  unfold split_index.
  destruct (Float.int_mul n (Float.one_minus r)) as [x|e]; [|done].
  rewrite bind_Return. destruct (Float.to_int x) as [t|e] eqn:Ht; [|done].
  rewrite bind_Return. intros [= <-]. by exists x, t.
Qed.

Lemma of_int_Raise (n : Z) (e : exn) :
  Float.of_int n = Raise e → e = OverflowError.
Proof.
  unfold Float.of_int.
  destruct (binary_normalize Float.prec Float.emax n 0 false); congruence.
Qed.

Lemma to_int_Raise (x : float) (e : exn) :
  Float.to_int x = Raise e → e = ValueError ∨ e = OverflowError.
Proof. destruct x; simpl; intros [= <-]; auto. Qed.

(** [int(n * (1 - test_ratio))] fails in two ways only. *)
Lemma split_index_Raise (n : Z) (r : float) (e : exn) :
  split_index n r = Raise e → e = ValueError ∨ e = OverflowError.
Proof.
  unfold split_index, Float.int_mul.
  destruct (Float.of_int n) as [fn|e1] eqn:Hfn.
  - rewrite !bind_Return.
    destruct (Float.to_int _) as [t|e2] eqn:Ht; [done|].
    rewrite bind_Raise. intros [= <-]. by eapply to_int_Raise.
  - rewrite !bind_Raise. intros [= <-]. right. by eapply of_int_Raise.
Qed.

(** Equal floats have the same complement to one, also when they differ
    in representation as the two zeros do. *)
Lemma one_minus_eqb (r1 r2 : float) :
  Float.eqb r1 r2 = true → Float.one_minus r1 = Float.one_minus r2.
Proof.
  unfold Float.eqb, SFeqb, SFcompare.
  destruct r1 as [s1|s1| |s1 m1 e1], r2 as [s2|s2| |s2 m2 e2]; try done;
    try (by destruct s1); try (by destruct s2); try (by destruct s1, s2).
  destruct s1, s2; try done;
    (destruct (e1 ?= e2) eqn:He; try done;
     apply Z.compare_eq in He as ->;
     destruct (Pos.compare_cont Eq m1 m2) eqn:Hm; try done;
     by apply Pcompare_Eq_eq in Hm as ->).
Qed.

Lemma for_each_ext {A S : Type} (xs : list A) (s : S)
    (f g : S → A → result S) :
  (∀ s x, f s x = g s x) → for_each xs s f = for_each xs s g.
Proof.
  intros Hfg. revert s. induction xs as [|x xs IH]; intros s; [done|].
  rewrite !for_each_cons, Hfg. destruct (g s x) as [s'|e]; [|done].
  rewrite !bind_Return. apply IH.
Qed.

Section Whole.
Context `{RT : Runtime} `{RG : RandomGen}.

Lemma split_writer_Raise (m : gmap Z (list Row)) (rows : list Row) (r : float)
    (tr te : list Row) (g : rng) (w : Z) (e : exn) :
  m !! w = Some (samples_of w rows) →
  split_index (len (samples_of w rows)) r = Raise e →
  split_writer m r (tr, te, g) w = Raise e.
Proof.
  intros Hm He. unfold split_writer.
  rewrite (getitem_Some _ _ _ Hm), bind_Return.
  destruct (shuffle_Permutation g (samples_of w rows)) as (sh & g' & -> & Hsh).
  rewrite bind_Return. unfold len in *.
  by rewrite (Permutation_length Hsh), He, bind_Raise.
Qed.

Lemma split_loop_Raise (m : gmap Z (list Row)) (rows : list Row) (r : float)
    (wids : list Z) (tr0 te0 : list Row) (g : rng) (e : exn) :
  (∀ w, w ∈ wids → m !! w = Some (samples_of w rows)) →
  for_each wids (tr0, te0, g) (split_writer m r) = Raise e →
  e = ValueError ∨ e = OverflowError.
Proof.
  revert tr0 te0 g. induction wids as [|w0 ws IH]; intros tr0 te0 g Hm; [done|].
  rewrite for_each_cons.
  destruct (split_index (len (samples_of w0 rows)) r) as [k|e'] eqn:Hk.
  - destruct (split_writer_spec m rows r tr0 te0 g w0 k
                (Hm w0 ltac:(left)) Hk) as (sh & g1 & _ & ->).
    rewrite bind_Return. apply IH. intros w Hw. apply Hm. by right.
  - rewrite (split_writer_Raise m rows r tr0 te0 g w0 e'
               (Hm w0 ltac:(left)) Hk), bind_Raise.
    intros [= <-]. by eapply split_index_Raise.
Qed.

Lemma group_loop_Return (rows : list Row) (m0 m : gmap Z (list Row)) :
  for_each rows m0 setdefault_append = Return m → int_ids rows.
Proof.
  revert m0. induction rows as [|r rows IH]; intros m0; [by constructor|].
  rewrite for_each_cons.
  destruct (py_int (writer_id r)) as [wid|] eqn:Hwid.
  - rewrite (setdefault_append_Some _ _ _ Hwid), bind_Return. intros Hr.
    constructor; [by eexists|by eapply IH].
  - by rewrite (setdefault_append_None _ _ Hwid), bind_Raise.
Qed.

(** What [stratified_split] returns whenever [split_index] is defined at
    the size of every group. *)
Lemma stratified_split_spec (rows : list Row) (r : float) (seed : Z) :
  int_ids rows →
  (∀ w, samples_of w rows ≠ [] →
        returns (split_index (len (samples_of w rows)) r)) →
  ∃ train test,
    stratified_split rows r seed = Return (train, test) ∧
    train ++ test ≡ₚ rows ∧
    ∀ w, samples_of w rows ≠ [] →
      ∃ sh k, sh ≡ₚ samples_of w rows ∧
              split_index (len (samples_of w rows)) r = Return k ∧
              samples_of w train = slice_to sh k ∧
              samples_of w test = slice_from sh k.
Proof.
  intros Hids Hret. unfold stratified_split.
  destruct (group_by_writer_spec rows Hids) as (m & -> & Hm).
  rewrite bind_Return.
  destruct (sorted_keys_spec m rows Hm) as [Hnd Hkeys].
  destruct (split_loop_spec m rows r (sorted_int (elements (dom m))) [] []
              (Random seed) Hnd) as (train & test & g' & Hloop & Hperm & Hcount).
  { intros w Hw%Hkeys. rewrite Hm. by destruct (samples_of w rows). }
  { intros w Hw%Hkeys. by apply Hret. }
  unfold split_groups. rewrite Hloop, bind_Return.
  exists train, test. split; [done|]. split.
  - rewrite Hperm. simpl. apply groups_Permutation; [done|].
    intros row Hrow.
    destruct (proj1 (Forall_forall _ _) Hids row Hrow) as [w Hw].
    exists w. split; [|done]. apply Hkeys. intros Hnil.
    assert (row ∈ samples_of w rows) as Hin by (by apply elem_of_samples_of).
    rewrite Hnil in Hin. by apply elem_of_nil in Hin.
  - intros w Hw. destruct (Hcount w) as [Hin _].
    destruct (Hin (proj2 (Hkeys w) Hw)) as (sh & k & Hsh & Hk & Htr & Hte).
    by exists sh, k.
Qed.

(** The only exceptions that [stratified_split] raises. *)
Lemma stratified_split_Raise (rows : list Row) (r : float) (seed : Z) (e : exn) :
  stratified_split rows r seed = Raise e → e = ValueError ∨ e = OverflowError.
Proof.
  unfold stratified_split.
  destruct (group_by_writer rows) as [m|e'] eqn:Hg.
  - rewrite bind_Return.
    pose proof (group_loop_Return rows ∅ m Hg) as Hids.
    destruct (group_by_writer_spec rows Hids) as (m' & Hg' & Hm).
    assert (m' = m) as -> by congruence.
    destruct (sorted_keys_spec m rows Hm) as [_ Hkeys].
    destruct (split_groups m _ r (Random seed)) as [[[train test] g']|e'] eqn:Hs.
    + by rewrite bind_Return.
    + rewrite bind_Raise. intros [= <-].
      eapply (split_loop_Raise m rows r); [|exact Hs].
      intros w Hw%Hkeys. rewrite Hm. by destruct (samples_of w rows).
  - rewrite bind_Raise. intros [= <-]. left.
    by destruct (group_loop_Raise rows ∅ e' Hg).
Qed.

(** The split depends on [test_ratio] through [1 - test_ratio] only. *)
Lemma stratified_split_ratio_ext (rows : list Row) (r1 r2 : float) (seed : Z) :
  Float.one_minus r1 = Float.one_minus r2 →
  stratified_split rows r1 seed = stratified_split rows r2 seed.
Proof.
  intros Hr. unfold stratified_split, split_groups.
  destruct (group_by_writer rows) as [m|e]; [|done]. rewrite !bind_Return.
  rewrite (for_each_ext _ _ (split_writer m r1) (split_writer m r2)); [done|].
  intros [[tr te] g] w. unfold split_writer, split_index. by rewrite Hr.
Qed.

End Whole.

Lemma slice_from_length {A} (x : list A) (k : Z) :
  0 ≤ k ≤ len x → len (slice_from x k) = len x - k.
Proof.
  unfold slice_from, len. intros Hk. assert ((k <? 0) = false) as -> by lia.
  rewrite length_drop. lia.
Qed.

Section Claims.
Context `{RT : Runtime} `{RG : RandomGen}.

Lemma samples_of_len (w : Z) (rows : list Row) :
  len (samples_of w rows) ≤ len rows ∧
  (samples_of w rows ≠ [] ↔ 1 ≤ len (samples_of w rows)).
Proof.
  unfold len. split.
  - pose proof (length_filter (λ r, py_int (writer_id r) = Some w) rows).
    unfold samples_of. lia.
  - destruct (samples_of w rows); simpl; split; (done || lia).
Qed.

(** With fewer than [2 ^ 53] records and a ratio in (0, 1) the split
    index of every group is defined and within the group. *)
Lemma split_index_group (rows : list Row) (r : float) (w : Z) :
  len rows < 2 ^ 53 → Float.in_unit_interval r → samples_of w rows ≠ [] →
  ∃ k, split_index (len (samples_of w rows)) r = Return k ∧
       1 ≤ k ≤ len (samples_of w rows).
Proof.
  intros Hlen Hr Hw. destruct (samples_of_len w rows) as [Hle Hne].
  apply split_index_bounds; [|done]. apply Hne in Hw. lia.
Qed.


(** C2. For all records whose writer ids are integers, fewer than
    [2 ^ 53] of them, every [test_ratio] in (0, 1) and every seed, the
    split returns [train] and [test] whose concatenation is a permutation
    of the input, so that no record is lost or duplicated; when the input
    records are pairwise distinct, no record is in both. *)
Theorem stratified_split_partition (rows : list Row) (test_ratio : float) (seed : Z) :
  int_ids rows → len rows < 2 ^ 53 → Float.in_unit_interval test_ratio →
  ∃ train test,
    stratified_split rows test_ratio seed = Return (train, test) ∧
    train ++ test ≡ₚ rows ∧
    (NoDup rows → ∀ r, r ∈ train → r ∉ test).
Proof.
  intros Hids Hlen Hr.
  destruct (stratified_split_spec rows test_ratio seed Hids)
    as (train & test & Hsplit & Hperm & _).
  { intros w Hw.
    destruct (split_index_group rows test_ratio w Hlen Hr Hw) as (k & Hk & _).
    by exists k. }
  exists train, test. split_and!; [done|done|].
  intros Hnd. rewrite <- Hperm in Hnd. by apply NoDup_app in Hnd as (_ & ? & _).
Qed.


(** C5 (as amended). The split does not validate [test_ratio]: for every
    record list, seed and ratio, in (0, 1) or not, a call that fails
    fails with [ValueError] or [OverflowError], raised by [int] on a
    writer id or on the float product, and never with
    [InvalidRatioError]. *)
Theorem stratified_split_never_InvalidRatioError
    (rows : list Row) (test_ratio : float) (seed : Z) (e : exn) :
  stratified_split rows test_ratio seed = Raise e →
  (e = ValueError ∨ e = OverflowError) ∧ e ≠ InvalidRatioError.
Proof.
  intros He. apply stratified_split_Raise in He.
  split; [done|]. by destruct He as [->| ->].
Qed.


End Claims.

Section StatisticsClaims.
Context `{RT : Runtime}.

(** C4 (as amended). Given no records, the aggregator fails with the
    built-in [ValueError] that [min] raises on the empty writer counts;
    it returns no snapshot. *)
Theorem compute_statistics_empty :
  compute_statistics [] = Raise ValueError ∧ ¬ returns (compute_statistics []).
Proof.
  assert (compute_statistics [] = Raise ValueError) as Hempty by reflexivity.
  split; [done|]. rewrite Hempty. by intros [s Hs].
Qed.

Lemma elem_of_all_chars (c : N) (rows : list Row) :
  c ∈ (list_to_set (mjoin (text <$> rows)) : gset N) ↔
  ∃ r, r ∈ rows ∧ c ∈ text r.
Proof.
  rewrite elem_of_list_to_set, list_elem_of_join. split.
  - intros (l & Hc & (r & -> & Hr)%list_elem_of_fmap). eauto.
  - intros (r & Hr & Hc). exists (text r). split; [done|].
    apply list_elem_of_fmap. eauto.
Qed.

(** C6. For every non-empty list of records with integer writer ids
    whose rows and label characters number fewer than [2 ^ 1023], the
    aggregator returns a snapshot in which [total_images] is the number
    of records, the counts of [writer_counts] add up to [total_images],
    and [german_chars_present] and [german_chars_missing] together hold
    each of the seven characters Ä Ö Ü ß ä ö ü exactly once, so that no
    character is in both; the present ones are those that occur in some
    label. *)
Theorem compute_statistics_invariants (rows : list Row) :
  rows ≠ [] → int_ids rows → dataset_size rows < 2 ^ 1023 →
  ∃ s, compute_statistics rows = Return s ∧
       total_images s = len rows ∧
       py_sum (values (writer_counts s)) = total_images s ∧
       german_chars_present s ++ german_chars_missing s
       ≡ₚ [196; 214; 220; 223; 228; 246; 252]%N ∧
       (∀ c, c ∈ german_chars_present s → c ∉ german_chars_missing s) ∧
       (∀ c, c ∈ german_chars_present s ↔
             c ∈ GERMAN_SPECIAL ∧ ∃ r, r ∈ rows ∧ c ∈ text r).
Proof.
  intros Hne Hids Hsize.
  destruct (compute_statistics_spec rows Hne Hids Hsize)
    as (s & Hs & Htotal & Hsum & Hpresent & Hmissing).
  assert (german_chars_present s ++ german_chars_missing s
          ≡ₚ [196; 214; 220; 223; 228; 246; 252]%N) as Hperm.
  { rewrite Hpresent, Hmissing, present_missing_partition.
    change [196; 214; 220; 223; 228; 246; 252]%N
      with (merge_sort N.le [196; 214; 220; 223; 228; 246; 252]%N).
    rewrite merge_sort_Permutation.
    apply NoDup_Permutation;
      [apply NoDup_elements|apply (bool_decide_unpack _); by vm_compute|].
    intros c. rewrite elem_of_elements. unfold GERMAN_SPECIAL.
    rewrite elem_of_list_to_set. rewrite !elem_of_cons. tauto. }
  exists s. split_and!; try done.
  - congruence.
  - intros c. assert (NoDup (german_chars_present s ++ german_chars_missing s))
      as Hnd.
    { rewrite Hperm. apply (bool_decide_unpack _). by vm_compute. }
    apply NoDup_app in Hnd as (_ & Hdis & _). apply Hdis.
  - intros c. rewrite Hpresent, elem_of_sorted_chars, elem_of_elements.
    by rewrite elem_of_intersection, elem_of_all_chars.
Qed.

End StatisticsClaims.

Section DiskClaims.
Context `{RT : Runtime}.


(** C8. When reading [data.csv] fails, or reading an image that exists
    fails, the generator stops with [OSError] and has written no file. *)
Theorem generate_checksums_unreadable (rows : list Row) (w : world) :
  read_bytes w CSV_PATH = None ∨
  (∃ r, r ∈ rows ∧ is_file w (in_base_dir (file_name r)) = true ∧
        read_bytes w (in_base_dir (file_name r)) = None) →
  ∃ w', generate_checksums rows w = (Raise OSError, w') ∧
        written w' = written w.
Proof.
  intros Hfail.
  destruct (generate_checksums_spec rows w) as (w' & Hrun & _ & _ & Hwritten).
  exists w'. destruct (read_bytes w CSV_PATH) as [csv|] eqn:Hcsv; [|done].
  destruct Hfail as [|(r & Hr & Hf & Hnone)]; [done|].
  destruct (decide (images_readable w rows)) as [Hall|]; [|done].
  destruct (proj1 (Forall_forall _ _) Hall r Hr Hf) as [b Hb]. congruence.
Qed.

End DiskClaims.

Lemma missing_names_single (w : world) (rows : list Row) (f : list N) :
  f ∈ file_name <$> rows →
  (∀ r, r ∈ rows →
        is_file w (in_base_dir (file_name r)) = false ↔ file_name r = f) →
  missing_names w rows ≠ [] ∧
  (∀ x, x ∈ missing_names w rows → x = f) ∧
  (NoDup (file_name <$> rows) → missing_names w rows = [f]).
Proof.
  intros Hf Habsent. unfold missing_names. split_and!.
  - apply list_elem_of_fmap in Hf as (r & -> & Hr).
    intros Hnil%fmap_nil_inv.
    assert (r ∈ filter (λ r, is_file w (in_base_dir (file_name r)) = false) rows)
      as Hin by (apply list_elem_of_filter; split; [by apply Habsent|done]).
    rewrite Hnil in Hin. by apply elem_of_nil in Hin.
  - intros x (r & -> & [Hr Hin]%list_elem_of_filter)%list_elem_of_fmap.
    by apply Habsent.
  - revert Hf Habsent. induction rows as [|r rows IH]; intros Hf Habsent Hnd.
    + by apply elem_of_nil in Hf.
    + rewrite fmap_cons in Hnd. apply NoDup_cons in Hnd as [Hr Hnd].
      rewrite filter_cons.
      destruct (decide (is_file w (in_base_dir (file_name r)) = false))
        as [Hfalse|Htrue].
      * apply Habsent in Hfalse as Hname; [|by left].
        rewrite fmap_cons, Hname. f_equal.
        rewrite filter_none; [done|]. intros r' Hr' Hfalse'.
        apply Habsent in Hfalse'; [|by right]. apply Hr. rewrite Hname, <- Hfalse'.
        by apply list_elem_of_fmap_2.
      * apply IH; [|intros r' Hr'; apply Habsent; by right|done].
        rewrite fmap_cons in Hf. apply elem_of_cons in Hf as [Hf|Hf]; [|done].
        destruct Htrue. apply Habsent; [by left|done].
Qed.


(** * Further properties *)

(** ** Counters, extrema and sorted lists *)

Section CounterMore.
Context {K : Type} `{EqDecision K}.

Lemma count_of_snoc (k x : K) (xs : list K) :
  count_of k (xs ++ [x]) = count_of k xs + (if decide (x = k) then 1 else 0).
Proof.
  unfold count_of, len. rewrite filter_app, length_app.
  rewrite filter_cons, filter_nil. destruct (decide (x = k)); simpl; lia.
Qed.

Lemma count_of_pos (k : K) (xs : list K) : k ∈ xs ↔ 1 ≤ count_of k xs.
Proof.
  unfold count_of, len. split.
  - intros Hk. assert (k ∈ filter (λ y, y = k) xs) as Hin.
    { by apply list_elem_of_filter. }
    destruct (filter (λ y, y = k) xs); [by apply elem_of_nil in Hin|]. simpl. lia.
  - intros Hc. destruct (filter (λ y, y = k) xs) as [|y l] eqn:Hf; [simpl in Hc; lia|].
    assert (y ∈ filter (λ y, y = k) xs) as Hin by (rewrite Hf; left).
    apply list_elem_of_filter in Hin as [-> Hin]. done.
Qed.

Lemma count_of_zero (k : K) (xs : list K) : k ∉ xs → count_of k xs = 0.
Proof.
  intros Hk. unfold count_of. rewrite filter_none; [done|]. by intros x Hx ->.
Qed.

Lemma first_occurrences_snoc (x : K) (xs : list K) :
  first_occurrences (xs ++ [x])
  = if decide (x ∈ xs) then first_occurrences xs else first_occurrences xs ++ [x].
Proof.
  induction xs as [|a xs IH]; [done|].
  change ((a :: xs) ++ [x]) with (a :: (xs ++ [x])). cbn [first_occurrences].
  rewrite IH.
  destruct (decide (x ∈ a :: xs)) as [H1|H1], (decide (x ∈ xs)) as [H2|H2];
    try done.
  - apply elem_of_cons in H1 as [->|H1]; [|done].
    rewrite filter_app, filter_cons, filter_nil.
    rewrite decide_False by (by intros H; apply H). by rewrite app_nil_r.
  - exfalso. apply H1. by right.
  - rewrite filter_app, filter_cons, filter_nil. rewrite decide_True; [done|].
    intros ->. apply H1. by left.
Qed.

Lemma elem_of_first_occurrences (x : K) (xs : list K) :
  x ∈ first_occurrences xs ↔ x ∈ xs.
Proof.
  induction xs as [|a xs IH]; [done|]. cbn [first_occurrences].
  rewrite !elem_of_cons, list_elem_of_filter, IH.
  destruct (decide (x = a)); tauto.
Qed.

Lemma NoDup_first_occurrences (xs : list K) : NoDup (first_occurrences xs).
Proof.
  induction xs as [|a xs IH]; [constructor|]. cbn [first_occurrences].
  constructor.
  - rewrite list_elem_of_filter. by intros [? _].
  - by apply NoDup_filter.
Qed.

Lemma keys_counter_incr (k : K) (c : list (K * Z)) :
  keys (counter_incr k c) = if decide (k ∈ keys c) then keys c else keys c ++ [k].
Proof.
  unfold keys. induction c as [|[k' n] c IH]; [done|]. cbn [counter_incr].
  destruct (decide (k = k')) as [->|Hk].
  - rewrite fmap_cons. cbn [fst]. rewrite decide_True by left. done.
  - rewrite !fmap_cons. cbn [fst]. rewrite IH.
    destruct (decide (k ∈ c.*1)) as [Hin|Hin].
    + by rewrite decide_True by (by right).
    + by rewrite decide_False by (by intros [?|?]%elem_of_cons).
Qed.

Lemma elem_of_counter_incr (k k' : K) (n : Z) (c : list (K * Z)) :
  NoDup (keys c) →
  (k', n) ∈ counter_incr k c ↔
    (k' ≠ k ∧ (k', n) ∈ c) ∨
    (k' = k ∧ ((k, n - 1) ∈ c ∨ ((k ∉ keys c) ∧ n = 1))).
Proof.
  unfold keys. induction c as [|[k0 n0] c IH]; intros Hnd.
  - cbn [counter_incr]. rewrite list_elem_of_singleton. split.
    + intros [= -> ->]. right. split; [done|]. right. split; [|done].
      apply not_elem_of_nil.
    + intros [[_ H%elem_of_nil]|[-> [H%elem_of_nil|[_ ->]]]]; done.
  - rewrite fmap_cons in Hnd. cbn [fst] in Hnd. apply NoDup_cons in Hnd as [Hk0 Hnd].
    cbn [counter_incr]. destruct (decide (k = k0)) as [->|Hk].
    + rewrite !elem_of_cons, fmap_cons, elem_of_cons. cbn [fst]. split.
      * intros [[= -> ->]|Hin].
        -- right. split; [done|]. left. left. f_equal. lia.
        -- destruct (decide (k' = k0)) as [->|Hne].
           ++ exfalso. apply Hk0. apply list_elem_of_fmap. by exists (k0, n).
           ++ left. split; [done|]. by right.
      * intros [[Hne [[= -> ->]|Hin]]|[-> [[[= Hn]|Hin]|[Hnot _]]]].
        -- done.
        -- by right.
        -- left. f_equal. lia.
        -- exfalso. apply Hk0. apply list_elem_of_fmap. by exists (k0, n - 1).
        -- exfalso. apply Hnot. by left.
    + rewrite !elem_of_cons, IH by done. rewrite fmap_cons, elem_of_cons. cbn [fst].
      split.
      * intros [[= -> ->]|[[Hne Hin]|[-> [Hin|[Hnot ->]]]]].
        -- left. split; [by intros ->|by left].
        -- left. split; [done|by right].
        -- right. split; [done|]. left. by right.
        -- right. split; [done|]. right. split; [|done]. by intros [?|?].
      * intros [[Hne [[= -> ->]|Hin]]|[-> [[[= Heq _]|Hin]|[Hnot ->]]]].
        -- by left.
        -- right. left. done.
        -- done.
        -- right. right. split; [done|]. by left.
        -- right. right. split; [done|]. right. split; [|done].
           intros Hin. apply Hnot. by right.
Qed.

(** A [Counter] lists the distinct items in the order of their first
    occurrence, each with the number of its occurrences. *)
Lemma Counter_spec (xs : list K) :
  keys (Counter xs) = first_occurrences xs ∧
  ∀ k n, (k, n) ∈ Counter xs ↔ k ∈ xs ∧ n = count_of k xs.
Proof.
  induction xs as [|x xs [IHk IHn]] using rev_ind.
  - split; [done|]. intros k n. split; [by intros ?%elem_of_nil|].
    by intros [?%elem_of_nil _].
  - rewrite Counter_snoc. split.
    + rewrite keys_counter_incr, first_occurrences_snoc, IHk.
      destruct (decide (x ∈ xs)) as [Hx|Hx],
        (decide (x ∈ first_occurrences xs)) as [Hx'|Hx']; try done.
      * exfalso. by apply Hx', elem_of_first_occurrences.
      * exfalso. by apply Hx, elem_of_first_occurrences.
    + intros k n. rewrite elem_of_counter_incr.
      2:{ rewrite IHk. apply NoDup_first_occurrences. }
      rewrite !IHn, IHk, elem_of_first_occurrences, elem_of_app,
        list_elem_of_singleton, count_of_snoc.
      destruct (decide (x = k)) as [->|Hxk].
      * split.
        -- intros [[Hne _]|[_ [[Hin Hn]|[Hnot ->]]]]; [done| |].
           ++ split; [by left|lia].
           ++ split; [by right|]. rewrite count_of_zero by done. done.
        -- intros [_ ->]. right. split; [done|].
           destruct (decide (k ∈ xs)) as [Hin|Hnot].
           ++ left. split; [done|lia].
           ++ right. split; [done|]. rewrite count_of_zero by done. done.
      * split.
        -- intros [[Hne [Hin ->]]|[-> _]]; [|done]. split; [by left|lia].
        -- intros [[Hin| ->] ->]; [|done]. left. split; [congruence|].
           split; [done|lia].
Qed.

End CounterMore.

Lemma foldl_min_spec (a : Z) (xs : list Z) :
  foldl Z.min a xs ∈ a :: xs ∧ ∀ x, x ∈ a :: xs → foldl Z.min a xs ≤ x.
Proof.
  revert a. induction xs as [|b xs IH]; intros a; simpl.
  - split; [left|]. intros x ->%list_elem_of_singleton. lia.
  - destruct (IH (Z.min a b)) as [Hin Hle]. split.
    + apply elem_of_cons in Hin as [Hin|Hin]; [|by do 2 right].
      rewrite Hin. destruct (Z.min_spec a b) as [[_ ->]|[_ ->]]; [left|right; left].
    + pose proof (Hle (Z.min a b) ltac:(left)) as Hab.
      intros x Hx. rewrite !elem_of_cons in Hx. destruct Hx as [->|[->|Hx]]; [lia|lia|].
      apply Hle. by right.
Qed.

Lemma foldl_max_spec (a : Z) (xs : list Z) :
  foldl Z.max a xs ∈ a :: xs ∧ ∀ x, x ∈ a :: xs → x ≤ foldl Z.max a xs.
Proof.
  revert a. induction xs as [|b xs IH]; intros a; simpl.
  - split; [left|]. intros x ->%list_elem_of_singleton. lia.
  - destruct (IH (Z.max a b)) as [Hin Hle]. split.
    + apply elem_of_cons in Hin as [Hin|Hin]; [|by do 2 right].
      rewrite Hin. destruct (Z.max_spec a b) as [[_ ->]|[_ ->]]; [right; left|left].
    + pose proof (Hle (Z.max a b) ltac:(left)) as Hab.
      intros x Hx. rewrite !elem_of_cons in Hx. destruct Hx as [->|[->|Hx]]; [lia|lia|].
      apply Hle. by right.
Qed.

(** [min(xs)] is the least member of [xs]. *)
Lemma py_min_spec (xs : list Z) (m : Z) :
  py_min xs = Return m ↔ m ∈ xs ∧ ∀ x, x ∈ xs → m ≤ x.
Proof.
  destruct xs as [|a xs]; simpl.
  - split; [done|]. by intros [?%elem_of_nil _].
  - destruct (foldl_min_spec a xs) as [Hin Hle]. split.
    + by intros [= <-].
    + intros [Hm Hm']. f_equal. specialize (Hle m Hm). specialize (Hm' _ Hin). lia.
Qed.

Lemma py_max_spec (xs : list Z) (m : Z) :
  py_max xs = Return m ↔ m ∈ xs ∧ ∀ x, x ∈ xs → x ≤ m.
Proof.
  destruct xs as [|a xs]; simpl.
  - split; [done|]. by intros [?%elem_of_nil _].
  - destruct (foldl_max_spec a xs) as [Hin Hle]. split.
    + by intros [= <-].
    + intros [Hm Hm']. f_equal. specialize (Hle m Hm). specialize (Hm' _ Hin). lia.
Qed.

Lemma py_min_Permutation (xs ys : list Z) : xs ≡ₚ ys → py_min xs = py_min ys.
Proof.
  intros Hp. destruct (py_min xs) as [m|e] eqn:Hx.
  - symmetry. apply py_min_spec. apply py_min_spec in Hx as [Hin Hle].
    split; [by rewrite <- Hp|]. intros x Hx. apply Hle. by rewrite Hp.
  - destruct xs; [|done]. apply Permutation_nil_l in Hp. by subst.
Qed.

Lemma py_max_Permutation (xs ys : list Z) : xs ≡ₚ ys → py_max xs = py_max ys.
Proof.
  intros Hp. destruct (py_max xs) as [m|e] eqn:Hx.
  - symmetry. apply py_max_spec. apply py_max_spec in Hx as [Hin Hle].
    split; [by rewrite <- Hp|]. intros x Hx. apply Hle. by rewrite Hp.
  - destruct xs; [|done]. apply Permutation_nil_l in Hp. by subst.
Qed.

Lemma py_sum_Permutation (xs ys : list Z) : xs ≡ₚ ys → py_sum xs = py_sum ys.
Proof.
  induction 1 as [|x xs ys _ IH|x y xs|xs ys zs _ IH1 _ IH2];
    rewrite ?py_sum_cons; lia.
Qed.

Lemma py_sum_app (xs ys : list Z) : py_sum (xs ++ ys) = py_sum xs + py_sum ys.
Proof.
  induction xs as [|x xs IH]; [done|].
  change ((x :: xs) ++ ys) with (x :: (xs ++ ys)). rewrite !py_sum_cons, IH. lia.
Qed.

Lemma len_mjoin {A} (ls : list (list A)) : len (mjoin ls) = py_sum (len <$> ls).
Proof.
  induction ls as [|l ls IH]; [done|]. rewrite fmap_cons, py_sum_cons, <- IH.
  unfold len. simpl. rewrite length_app. lia.
Qed.

Lemma StronglySorted_le_lt (l : list Z) :
  StronglySorted Z.le l → NoDup l → StronglySorted Z.lt l.
Proof.
  induction 1 as [|x l Hl IH Hx]; intros Hnd; [constructor|].
  apply NoDup_cons in Hnd as [Hx' Hnd]. constructor; [by apply IH|].
  apply Forall_forall. intros y Hy.
  pose proof (proj1 (Forall_forall _ _) Hx y Hy).
  assert (x ≠ y) by (by intros ->). lia.
Qed.

Lemma StronglySorted_N_le_lt (l : str) :
  StronglySorted N.le l → NoDup l → StronglySorted N.lt l.
Proof.
  induction 1 as [|x l Hl IH Hx]; intros Hnd; [constructor|].
  apply NoDup_cons in Hnd as [Hx' Hnd]. constructor; [by apply IH|].
  apply Forall_forall. intros y Hy.
  pose proof (proj1 (Forall_forall _ _) Hx y Hy).
  assert (x ≠ y) by (by intros ->). lia.
Qed.

Lemma sorted_int_spec (l : list Z) :
  NoDup l → StronglySorted Z.lt (sorted_int l) ∧ ∀ x, x ∈ sorted_int l ↔ x ∈ l.
Proof.
  intros Hnd. unfold sorted_int. split.
  - apply StronglySorted_le_lt.
    + apply Sorted_StronglySorted; [apply _|]. apply Sorted_merge_sort. apply _.
    + by rewrite merge_sort_Permutation.
  - intros x. by rewrite merge_sort_Permutation.
Qed.

Lemma sorted_chars_spec (l : str) :
  NoDup l → StronglySorted N.lt (sorted_chars l) ∧ ∀ x, x ∈ sorted_chars l ↔ x ∈ l.
Proof.
  intros Hnd. unfold sorted_chars. split.
  - apply StronglySorted_N_le_lt.
    + apply Sorted_StronglySorted; [apply _|]. apply Sorted_merge_sort. apply _.
    + by rewrite merge_sort_Permutation.
  - intros x. by rewrite merge_sort_Permutation.
Qed.

Lemma sorted_int_Permutation (l k : list Z) : l ≡ₚ k → sorted_int l = sorted_int k.
Proof.
  intros Hp. unfold sorted_int. apply (Sorted_unique Z.le).
  - apply Sorted_merge_sort. apply _.
  - apply Sorted_merge_sort. apply _.
  - by rewrite !merge_sort_Permutation.
Qed.

Lemma length_first_occurrences {A} `{EqDecision A} (l : list A) :
  (length (first_occurrences l) ≤ length l)%nat ∧
  (length (first_occurrences l) = length l → NoDup l).
Proof.
  induction l as [|a l [IH1 IH2]]; [split; [done|constructor]|].
  cbn [first_occurrences length].
  pose proof (length_filter (λ y, y ≠ a) (first_occurrences l)) as Hf.
  split; [lia|]. intros Heq.
  assert (length (first_occurrences l) = length l) as Hl by lia.
  constructor; [|by apply IH2]. intros Ha.
  apply elem_of_first_occurrences in Ha.
  pose proof (length_filter_lt (λ y, y ≠ a) (first_occurrences l) a Ha) as Hlt.
  assert (¬ a ≠ a) as Hna by (by intros H; apply H). specialize (Hlt Hna). lia.
Qed.

Lemma first_occurrences_NoDup {A} `{EqDecision A} (l : list A) :
  NoDup l → first_occurrences l = l.
Proof.
  induction 1 as [|a l Ha _ IH]; [done|]. cbn [first_occurrences]. rewrite IH.
  f_equal. apply filter_all. by intros x Hx ->.
Qed.

Lemma size_list_to_set_first_occurrences `{Countable A} (l : list A) :
  size (list_to_set l : gset A) = length (first_occurrences l).
Proof.
  rewrite <- (size_list_to_set (C := gset A) (first_occurrences l))
    by apply NoDup_first_occurrences.
  f_equal. apply set_eq. intros x.
  by rewrite !elem_of_list_to_set, elem_of_first_occurrences.
Qed.

(** ** The fields of a snapshot *)

(** One step of a computation in the [result] monad that is known to
    return. *)
Ltac bind_case :=
  lazymatch goal with
  | |- (?m ≫= _) = Return _ → _ =>
      let H := fresh "Hstep" in
      destruct m eqn:H; [rewrite bind_Return|by rewrite bind_Raise]
  end.

Lemma int_true_div_Raise (a b : Z) (e : exn) :
  Float.int_true_div a b = Raise e →
  e = ZeroDivisionError ∧ b = 0 ∨ e = OverflowError.
Proof.
  unfold Float.int_true_div. destruct (b =? 0) eqn:Hb.
  - intros [= <-]. left. split; [done|lia].
  - destruct (a =? 0); [done|].
    destruct (SFdiv_core_binary _ _ _ _ _ _) as [[q e'] l].
    destruct (binary_round_aux _ _ _ _ _ _); intros [= <-]; by right.
Qed.

Section StatisticsMore.
Context `{RT : Runtime}.

Lemma int_None (s : str) : py_int s = None → int s = Raise ValueError.
Proof. intros Hs. unfold int. by rewrite Hs. Qed.

Lemma wid_of_Some (r : Row) (n : Z) : py_int (writer_id r) = Some n → wid_of r = n.
Proof. intros Hn. unfold wid_of. by rewrite Hn. Qed.

Lemma mapM_int_inv (rows : list Row) (ids : list Z) :
  mapM (λ r, int (writer_id r)) rows = Return ids ↔
  int_ids rows ∧ ids = wid_of <$> rows.
Proof.
  revert ids. induction rows as [|r rows IH]; intros ids.
  - simpl. split.
    + intros [= <-]. split; [constructor|done].
    + by intros [_ ->].
  - cbn [mapM]. rewrite fmap_cons.
    destruct (py_int (writer_id r)) as [n|] eqn:Hn.
    + rewrite (int_Some _ _ Hn), bind_Return, (wid_of_Some _ _ Hn).
      destruct (mapM (λ r, int (writer_id r)) rows) as [ids'|e] eqn:Hm.
      * rewrite bind_Return. destruct (proj1 (IH ids') eq_refl) as [Hids ->].
        split.
        -- intros [= <-]. split; [constructor; [by eexists|done]|done].
        -- by intros [_ ->].
      * rewrite bind_Raise. split; [done|]. intros [Hids _].
        apply Forall_cons in Hids as [_ Hids].
        pose proof (proj2 (IH (wid_of <$> rows)) (conj Hids eq_refl)). congruence.
    + rewrite (int_None _ Hn), bind_Raise. split; [done|]. intros [Hids _].
      apply Forall_cons in Hids as [[n Hn'] _]. congruence.
Qed.

Lemma mapM_int_Raise (rows : list Row) (e : exn) :
  mapM (λ r, int (writer_id r)) rows = Raise e → e = ValueError ∧ ¬ int_ids rows.
Proof.
  induction rows as [|r rows IH]; [done|]. cbn [mapM].
  destruct (py_int (writer_id r)) as [n|] eqn:Hn.
  - rewrite (int_Some _ _ Hn), bind_Return.
    destruct (mapM (λ r, int (writer_id r)) rows) as [ids'|e'] eqn:Hm.
    + by rewrite bind_Return.
    + rewrite bind_Raise. intros [= <-]. destruct (IH eq_refl) as [-> Hno].
      split; [done|]. intros Hids. apply Forall_cons in Hids as [_ Hids]. done.
  - rewrite (int_None _ Hn), bind_Raise. intros [= <-]. split; [done|]. intros Hids.
    apply Forall_cons in Hids as [[n Hn'] _]. congruence.
Qed.

Lemma count_of_wid (w : Z) (rows : list Row) :
  int_ids rows → count_of w (wid_of <$> rows) = len (samples_of w rows).
Proof.
  unfold count_of, samples_of, len.
  induction 1 as [|r rows [n Hn] _ IH]; [done|].
  rewrite fmap_cons, !filter_cons, (wid_of_Some _ _ Hn), Hn.
  destruct (decide (n = w)) as [->|Hne].
  - rewrite decide_True by done. simpl. lia.
  - rewrite decide_False by congruence. done.
Qed.

(** The fields of the snapshot that [compute_statistics] returns. *)
Lemma compute_statistics_inv (rows : list Row) (s : Statistics) :
  compute_statistics rows = Return s →
  let ids := wid_of <$> rows in
  let texts := text <$> rows in
  int_ids rows ∧
  total_images s = len rows ∧
  total_writers s = len (Counter ids) ∧
  unique_words s = Z.of_nat (size (list_to_set texts : gset (str))) ∧
  writer_counts s = Counter ids ∧
  py_min (values (Counter ids)) = Return (min_words_per_writer s) ∧
  py_max (values (Counter ids)) = Return (max_words_per_writer s) ∧
  Float.int_true_div (py_sum (values (Counter ids))) (len (Counter ids))
    = Return (avg_words_per_writer s) ∧
  german_chars_present s
    = sorted_chars (elements (GERMAN_SPECIAL ∩ list_to_set (mjoin texts))) ∧
  german_chars_missing s
    = sorted_chars (elements (GERMAN_SPECIAL ∖ list_to_set (mjoin texts))) ∧
  char_freq s = Counter (mjoin texts) ∧
  Float.int_true_div (py_sum (len <$> texts)) (len (len <$> texts))
    = Return (avg_word_length s) ∧
  py_min (len <$> texts) = Return (min_word_length s) ∧
  py_max (len <$> texts) = Return (max_word_length s) ∧
  writer_ids_sorted s = sorted_int (keys (Counter ids)).
Proof.
  unfold compute_statistics.
  destruct (mapM (λ r, int (writer_id r)) rows) as [ids|e] eqn:Hm;
    [|by rewrite bind_Raise].
  apply mapM_int_inv in Hm as [Hids ->]. rewrite bind_Return.
  repeat bind_case. intros [= <-]. simpl. by split_and!.
Qed.

End StatisticsMore.

Section CounterPerm.
Context {K : Type} `{EqDecision K}.

Lemma count_of_Permutation (k : K) (xs ys : list K) :
  xs ≡ₚ ys → count_of k xs = count_of k ys.
Proof. intros Hp. unfold count_of, len. by rewrite Hp. Qed.

Lemma NoDup_Counter (xs : list K) : NoDup (keys (Counter xs)).
Proof. rewrite (proj1 (Counter_spec xs)). apply NoDup_first_occurrences. Qed.

(** Counting a rearranged sequence gives the same entries, in another
    order. *)
Lemma Counter_Permutation (xs ys : list K) : xs ≡ₚ ys → Counter xs ≡ₚ Counter ys.
Proof.
  intros Hp. apply NoDup_Permutation.
  - eapply NoDup_fmap_1. apply (NoDup_Counter xs).
  - eapply NoDup_fmap_1. apply (NoDup_Counter ys).
  - intros [k n]. rewrite !(proj2 (Counter_spec _)).
    rewrite (count_of_Permutation k xs ys Hp).
    split; intros [Hin ->]; (split; [|done]); [by rewrite <- Hp|by rewrite Hp].
Qed.

End CounterPerm.

Lemma fmap_length_len {A B} (f : A → B) (l : list A) : len (f <$> l) = len l.
Proof. unfold len. by rewrite length_fmap. Qed.

Section StatisticsTheorems.
Context `{RT : Runtime}.

Lemma elem_of_wid_of (w : Z) (rows : list Row) :
  int_ids rows → w ∈ wid_of <$> rows ↔ samples_of w rows ≠ [].
Proof.
  intros Hids. rewrite count_of_pos, (count_of_wid w rows Hids).
  pose proof (samples_of_len w rows) as [_ H]. by rewrite H.
Qed.

(** X1: [writer_counts] has one entry per writer, holding the number of
    that writer's records, in the order in which the writers first occur
    in the manifest; [total_writers] is the number of entries. *)
Theorem compute_statistics_writer_counts (rows : list Row) (s : Statistics) :
  compute_statistics rows = Return s →
  keys (writer_counts s) = first_occurrences (wid_of <$> rows) ∧
  NoDup (keys (writer_counts s)) ∧
  total_writers s = len (writer_counts s) ∧
  ∀ w n, (w, n) ∈ writer_counts s ↔ 1 ≤ n ∧ n = len (samples_of w rows).
Proof.
  intros Hs. destruct (compute_statistics_inv rows s Hs)
    as (Hids & _ & Htw & _ & Hwc & _).
  rewrite Hwc, Htw. destruct (Counter_spec (wid_of <$> rows)) as [Hk Hn].
  split_and!; [done|apply NoDup_Counter|done|].
  intros w n. rewrite Hn, count_of_pos, (count_of_wid w rows Hids). split.
  - intros [H ->]. done.
  - intros [H ->]. done.
Qed.

(** X2: [writer_ids_sorted] lists every writer of the manifest exactly
    once, in strictly ascending order. *)
Theorem compute_statistics_writer_ids_sorted (rows : list Row) (s : Statistics) :
  compute_statistics rows = Return s →
  StronglySorted Z.lt (writer_ids_sorted s) ∧
  (∀ w, w ∈ writer_ids_sorted s ↔ samples_of w rows ≠ []) ∧
  len (writer_ids_sorted s) = total_writers s.
Proof.
  intros Hs. destruct (compute_statistics_inv rows s Hs)
    as (Hids & _ & Htw & _ & _ & _ & _ & _ & _ & _ & _ & _ & _ & _ & Hsorted).
  rewrite Hsorted, Htw.
  destruct (sorted_int_spec (keys (Counter (wid_of <$> rows)))
              (NoDup_Counter _)) as [Hss Hin].
  split_and!; [done| |].
  - intros w. rewrite Hin, (proj1 (Counter_spec _)), elem_of_first_occurrences.
    by apply elem_of_wid_of.
  - unfold sorted_int, len, keys.
    by rewrite merge_sort_Permutation, length_fmap.
Qed.

(** X3: the least and the greatest number of records of one writer, and
    their average. *)
Theorem compute_statistics_words_per_writer (rows : list Row) (s : Statistics) :
  compute_statistics rows = Return s →
  (∀ w, samples_of w rows ≠ [] →
        1 ≤ min_words_per_writer s ≤ len (samples_of w rows) ∧
        len (samples_of w rows) ≤ max_words_per_writer s) ∧
  (∃ w, len (samples_of w rows) = min_words_per_writer s) ∧
  (∃ w, len (samples_of w rows) = max_words_per_writer s) ∧
  Float.int_true_div (total_images s) (total_writers s)
  = Return (avg_words_per_writer s).
Proof.
  intros Hs. destruct (compute_statistics_inv rows s Hs)
    as (Hids & Hti & Htw & _ & _ & Hmin & Hmax & Havg & _).
  destruct (Counter_spec (wid_of <$> rows)) as [_ Hn].
  apply py_min_spec in Hmin as [Hmin_in Hmin_le].
  apply py_max_spec in Hmax as [Hmax_in Hmax_le].
  assert (∀ n, n ∈ values (Counter (wid_of <$> rows)) ↔
               ∃ w, 1 ≤ n ∧ n = len (samples_of w rows)) as Hval.
  { intros n. unfold values. rewrite list_elem_of_fmap. split.
    - intros ([w n'] & -> & Hin). apply Hn in Hin as [Hw ->]. exists w.
      apply count_of_pos in Hw. by rewrite <- (count_of_wid w rows Hids).
    - intros (w & H1 & ->). exists (w, len (samples_of w rows)). split; [done|].
      apply Hn. rewrite count_of_pos, (count_of_wid w rows Hids). done. }
  split_and!.
  - intros w Hw. apply samples_of_len in Hw.
    assert (len (samples_of w rows) ∈ values (Counter (wid_of <$> rows))) as Hin.
    { apply Hval. by exists w. }
    apply Hval in Hmin_in as (w' & Hw' & _).
    pose proof (Hmin_le _ Hin). pose proof (Hmax_le _ Hin). lia.
  - apply Hval in Hmin_in as (w & _ & ->). by exists w.
  - apply Hval in Hmax_in as (w & _ & ->). by exists w.
  - rewrite <- Havg, Hti, Htw. by rewrite Counter_sum, fmap_length_len.
Qed.

(** X4: the shortest and the longest label, counted in code points, and
    the average length. *)
Theorem compute_statistics_word_lengths (rows : list Row) (s : Statistics) :
  compute_statistics rows = Return s →
  (∀ r, r ∈ rows → min_word_length s ≤ len (text r) ≤ max_word_length s) ∧
  (∃ r, r ∈ rows ∧ len (text r) = min_word_length s) ∧
  (∃ r, r ∈ rows ∧ len (text r) = max_word_length s) ∧
  Float.int_true_div (py_sum (len <$> (text <$> rows))) (total_images s)
  = Return (avg_word_length s).
Proof.
  intros Hs. destruct (compute_statistics_inv rows s Hs)
    as (_ & Hti & _ & _ & _ & _ & _ & _ & _ & _ & _ & Havg & Hmin & Hmax & _).
  apply py_min_spec in Hmin as [Hmin_in Hmin_le].
  apply py_max_spec in Hmax as [Hmax_in Hmax_le].
  assert (∀ n, n ∈ len <$> (text <$> rows) ↔ ∃ r, r ∈ rows ∧ len (text r) = n)
    as Hval.
  { intros n. rewrite <- list_fmap_compose, list_elem_of_fmap.
    split; intros (r & ? & ?); by exists r. }
  split_and!.
  - intros r Hr.
    assert (len (text r) ∈ len <$> (text <$> rows)) as Hin.
    { apply Hval. by exists r. }
    pose proof (Hmin_le _ Hin). pose proof (Hmax_le _ Hin). lia.
  - by apply Hval.
  - by apply Hval.
  - rewrite <- Havg, Hti. by rewrite !fmap_length_len.
Qed.

(** X5: [char_freq] lists the distinct characters of the labels in the
    order of their first occurrence, each with the number of its
    occurrences; the counts add up to the number of characters. *)
Theorem compute_statistics_char_freq (rows : list Row) (s : Statistics) :
  compute_statistics rows = Return s →
  let chars := mjoin (text <$> rows) in
  keys (char_freq s) = first_occurrences chars ∧
  (∀ c n, (c, n) ∈ char_freq s ↔ c ∈ chars ∧ n = count_of c chars) ∧
  py_sum (values (char_freq s)) = py_sum (len <$> (text <$> rows)).
Proof.
  intros Hs. destruct (compute_statistics_inv rows s Hs)
    as (_ & _ & _ & _ & _ & _ & _ & _ & _ & _ & Hcf & _).
  simpl. rewrite Hcf. destruct (Counter_spec (mjoin (text <$> rows))) as [Hk Hn].
  split_and!; [done|done|]. by rewrite Counter_sum, len_mjoin.
Qed.

(** X6: [unique_words] is the number of distinct labels: at least one, at
    most the number of records, and equal to it exactly when no label
    occurs twice. *)
Theorem compute_statistics_unique_words (rows : list Row) (s : Statistics) :
  compute_statistics rows = Return s →
  unique_words s = len (first_occurrences (text <$> rows)) ∧
  1 ≤ unique_words s ≤ total_images s ∧
  (unique_words s = total_images s ↔ NoDup (text <$> rows)).
Proof.
  intros Hs. destruct (compute_statistics_inv rows s Hs)
    as (_ & Hti & _ & Huw & _ & _ & _ & _ & _ & _ & _ & _ & Hmin & _).
  rewrite Huw, Hti, size_list_to_set_first_occurrences. fold (len (first_occurrences (text <$> rows))).
  destruct (length_first_occurrences (text <$> rows)) as [Hle Heq].
  rewrite length_fmap in Hle, Heq.
  assert (rows ≠ []) as Hne by (by intros ->).
  split_and!; [done| |unfold len; lia|].
  - destruct rows as [|r rows]; [done|]. unfold len. simpl. lia.
  - split.
    + unfold len. intros H. apply Heq. lia.
    + intros Hnd. rewrite (first_occurrences_NoDup _ Hnd). apply fmap_length_len.
Qed.

(** X7: [german_chars_present] holds the required characters that occur
    in some label and [german_chars_missing] those that occur in none,
    both in ascending order of code point. *)
Theorem compute_statistics_german_chars (rows : list Row) (s : Statistics) :
  compute_statistics rows = Return s →
  (∀ c, c ∈ german_chars_present s ↔
        c ∈ GERMAN_SPECIAL ∧ ∃ r, r ∈ rows ∧ c ∈ text r) ∧
  (∀ c, c ∈ german_chars_missing s ↔
        c ∈ GERMAN_SPECIAL ∧ ∀ r, r ∈ rows → c ∉ text r) ∧
  StronglySorted N.lt (german_chars_present s) ∧
  StronglySorted N.lt (german_chars_missing s).
Proof.
  intros Hs. destruct (compute_statistics_inv rows s Hs)
    as (_ & _ & _ & _ & _ & _ & _ & _ & Hp & Hm & _).
  rewrite Hp, Hm.
  assert (∀ c, c ∈ (list_to_set (mjoin (text <$> rows)) : gset N) ↔
               ∃ r, r ∈ rows ∧ c ∈ text r) as Hall.
  { intros c. rewrite elem_of_list_to_set, list_elem_of_join. split.
    - intros (t & Hc & (r & -> & Hr)%list_elem_of_fmap). by exists r.
    - intros (r & Hr & Hc). exists (text r). split; [done|].
      apply list_elem_of_fmap. by exists r. }
  destruct (sorted_chars_spec
              (elements (GERMAN_SPECIAL ∩ list_to_set (mjoin (text <$> rows))))
              (NoDup_elements _)) as [Hs1 Hin1].
  destruct (sorted_chars_spec
              (elements (GERMAN_SPECIAL ∖ list_to_set (mjoin (text <$> rows))))
              (NoDup_elements _)) as [Hs2 Hin2].
  split_and!; [| |done|done].
  - intros c. by rewrite Hin1, elem_of_elements, elem_of_intersection, Hall.
  - intros c. rewrite Hin2, elem_of_elements, elem_of_difference, Hall.
    split; intros [? H]; (split; [done|]).
    + intros r Hr Hc. apply H. by exists r.
    + intros (r & Hr & Hc). by apply (H r).
Qed.

(** X8: a [writer_id] that is not a numeral makes [compute_statistics]
    fail with [ValueError]. *)
Theorem compute_statistics_bad_writer_id (rows : list Row) :
  ¬ int_ids rows → compute_statistics rows = Raise ValueError.
Proof.
  intros Hids. unfold compute_statistics.
  destruct (mapM (λ r, int (writer_id r)) rows) as [ids|e] eqn:Hm.
  - apply mapM_int_inv in Hm as [Hids' _]. done.
  - apply mapM_int_Raise in Hm as [-> _]. by rewrite bind_Raise.
Qed.

(** X9: the failures of [compute_statistics]: [ValueError] on an empty
    manifest or a [writer_id] that is not a numeral, [OverflowError] when
    an average exceeds the range of [float], and nothing else. *)
Theorem compute_statistics_failures (rows : list Row) (e : exn) :
  compute_statistics rows = Raise e →
  e = ValueError ∧ (rows = [] ∨ ¬ int_ids rows) ∨
  e = OverflowError ∧ 2 ^ 1023 ≤ dataset_size rows.
Proof.
  intros He.
  destruct (decide (Forall (λ r, is_Some (py_int (writer_id r))) rows))
    as [Hids|Hids].
  2:{ left. revert He. unfold compute_statistics.
      destruct (mapM (λ r, int (writer_id r)) rows) as [ids|e'] eqn:Hm.
      - by apply mapM_int_inv in Hm as [Hids' _].
      - apply mapM_int_Raise in Hm as [-> _]. rewrite bind_Raise.
        intros [= <-]. split; [done|by right]. }
  destruct rows as [|r0 rows0] eqn:Hrows.
  { left. injection He as <-. split; [done|by left]. }
  rewrite <- Hrows in *. assert (rows ≠ []) as Hne by (by rewrite Hrows).
  destruct (Z_lt_le_dec (dataset_size rows) (2 ^ 1023)) as [Hsz|Hsz].
  { destruct (compute_statistics_spec rows Hne Hids Hsz) as (s & Hs & _).
    congruence. }
  right. split; [|done]. clear Hsz. revert He. unfold compute_statistics.
  rewrite (proj2 (mapM_int_inv rows _) (conj Hids eq_refl)), bind_Return.
  assert (Counter (wid_of <$> rows) ≠ []) as Hc.
  { apply Counter_nonempty. by intros ?%fmap_nil_inv. }
  destruct (py_min_returns (values (Counter (wid_of <$> rows)))) as [min_w ->].
  { unfold values. by intros ?%fmap_nil_inv. }
  rewrite bind_Return.
  destruct (py_max_returns (values (Counter (wid_of <$> rows)))) as [max_w ->].
  { unfold values. by intros ?%fmap_nil_inv. }
  rewrite bind_Return.
  destruct (py_min_returns (len <$> (text <$> rows))) as [min_l ->].
  { by intros ?%fmap_nil_inv%fmap_nil_inv. }
  destruct (py_max_returns (len <$> (text <$> rows))) as [max_l ->].
  { by intros ?%fmap_nil_inv%fmap_nil_inv. }
  destruct (Float.int_true_div _ (len (Counter _))) as [avg_w|e1] eqn:H1.
  - rewrite bind_Return.
    destruct (Float.int_true_div _ (len (len <$> _))) as [avg_l|e2] eqn:H2.
    + by rewrite !bind_Return.
    + rewrite bind_Raise. intros [= <-].
      apply int_true_div_Raise in H2 as [[_ H2]|H2]; [|done].
      rewrite !fmap_length_len in H2. unfold len in H2. rewrite Hrows in H2.
      simpl in H2. lia.
  - rewrite bind_Raise. intros [= <-].
    apply int_true_div_Raise in H1 as [[_ H1]|H1]; [|done].
    unfold len in H1. destruct (Counter (wid_of <$> rows)); [done|].
    simpl in H1. lia.
Qed.

(** X10: the snapshot does not depend on the order of the records, but for
    the order of the entries of the two counters. *)
Theorem compute_statistics_Permutation (rows rows' : list Row) (s : Statistics) :
  rows ≡ₚ rows' → compute_statistics rows = Return s →
  ∃ s', compute_statistics rows' = Return s' ∧
    total_images s' = total_images s ∧
    total_writers s' = total_writers s ∧
    unique_words s' = unique_words s ∧
    writer_counts s' ≡ₚ writer_counts s ∧
    min_words_per_writer s' = min_words_per_writer s ∧
    max_words_per_writer s' = max_words_per_writer s ∧
    avg_words_per_writer s' = avg_words_per_writer s ∧
    german_chars_present s' = german_chars_present s ∧
    german_chars_missing s' = german_chars_missing s ∧
    char_freq s' ≡ₚ char_freq s ∧
    avg_word_length s' = avg_word_length s ∧
    min_word_length s' = min_word_length s ∧
    max_word_length s' = max_word_length s ∧
    writer_ids_sorted s' = writer_ids_sorted s.
Proof.
  intros Hp Hs. destruct (compute_statistics_inv rows s Hs)
    as (Hids & Hti & Htw & Huw & Hwc & Hmin & Hmax & Havg & Hgp & Hgm & Hcf
        & Havl & Hminl & Hmaxl & Hsorted).
  assert (int_ids rows') as Hids' by (unfold int_ids; by rewrite <- Hp).
  assert (Counter (wid_of <$> rows') ≡ₚ Counter (wid_of <$> rows)) as Hc.
  { apply Counter_Permutation. by rewrite Hp. }
  assert (mjoin (text <$> rows') ≡ₚ mjoin (text <$> rows)) as Hj.
  { by rewrite Hp. }
  assert (len rows' = len rows) as Hlen by (unfold len; by rewrite Hp).
  assert ((list_to_set (mjoin (text <$> rows')) : gset N)
          = list_to_set (mjoin (text <$> rows))) as Hset.
  { apply set_eq. intros c. by rewrite !elem_of_list_to_set, Hj. }
  unfold compute_statistics.
  rewrite (proj2 (mapM_int_inv rows' _) (conj Hids' eq_refl)), bind_Return.
  assert (values (Counter (wid_of <$> rows'))
          ≡ₚ values (Counter (wid_of <$> rows))) as Hv.
  { unfold values. by rewrite Hc. }
  rewrite (py_min_Permutation _ _ Hv), Hmin, bind_Return.
  rewrite (py_max_Permutation _ _ Hv), Hmax, bind_Return.
  rewrite !Counter_sum, !fmap_length_len, Hlen.
  assert (len (Counter (wid_of <$> rows')) = len (Counter (wid_of <$> rows)))
    as -> by (unfold len; by rewrite Hc).
  rewrite Counter_sum, fmap_length_len in Havg. rewrite Havg, bind_Return.
  rewrite (py_sum_Permutation (len <$> (text <$> rows')) (len <$> (text <$> rows)))
    by (by rewrite Hp).
  rewrite !fmap_length_len in Havl. rewrite Havl, bind_Return.
  rewrite (py_min_Permutation (len <$> (text <$> rows')) (len <$> (text <$> rows))),
    Hminl, bind_Return by (by rewrite Hp).
  rewrite (py_max_Permutation (len <$> (text <$> rows')) (len <$> (text <$> rows))),
    Hmaxl, bind_Return by (by rewrite Hp).
  eexists. split; [reflexivity|]. simpl.
  rewrite Hti, Htw, Huw, Hwc, Hgp, Hgm, Hcf, Hsorted, Hset.
  split_and!; try done.
  - f_equal. f_equal. apply set_eq. intros t. by rewrite !elem_of_list_to_set, Hp.
  - by apply Counter_Permutation.
  - apply sorted_int_Permutation. unfold keys. by rewrite Hc.
Qed.

End StatisticsTheorems.

(** ** The split index at the ends of the ratio *)

Section FloatSigns.

Lemma binary_round_aux_sign (mx ex : Z) (lx : location) :
  not_positive (binary_round_aux 53 1024 true mx ex lx).
Proof.
  unfold binary_round_aux.
  destruct (shr_fexp _ _ _ _ _) as [mrs' e'].
  destruct (shr_fexp _ _ _ _ _) as [mrs'' e''].
  destruct (shr_m mrs''); simpl; [done| |done].
  by destruct (e'' <=? 1024 - 53).
Qed.

Lemma one_minus_not_positive (r : float) :
  at_least_one r → not_positive (Float.one_minus r).
Proof.
  intros [Hv Hle]. destruct r as [s|s| |s m e]; try done.
  - by destruct s.
  - destruct s; [done|].
    unfold Float.valid, valid_binary, bounded, canonical_mantissa in Hv.
    apply andb_prop in Hv as [Hc _]. apply Z.eqb_eq in Hc.
    unfold fexp, emin, Float.prec, Float.emax in Hc.
    pose proof (digits2_pos_bounds m) as [Hm _].
    assert (-52 ≤ e ∧ 2 ^ 52 ≤ Zpos m * 2 ^ (e + 52)) as [He Hbig].
    { unfold SFleb, Float.one, SFcompare in Hle.
      destruct (-52 ?= e) eqn:Hcmp.
      - apply Z.compare_eq in Hcmp as <-. split; [lia|].
        simpl. rewrite Z.mul_1_r.
        destruct (Pos.compare_cont Eq 4503599627370496 m) eqn:Hc2; [| |done].
        + apply Pcompare_Eq_eq in Hc2 as <-. done.
        + change (4503599627370496 < Zpos m) in Hc2. lia.
      - rewrite Z.compare_lt_iff in Hcmp. split; [lia|].
        assert (Zpos (digits2_pos m) = 53) as Hd by lia. rewrite Hd in Hm.
        pose proof (pow2_pos (e + 52) ltac:(lia)). simpl in Hm. simpl. nia.
      - done. }
    unfold Float.one_minus, Float.sub, Float.one, SFsub.
    replace (Z.min (-52) e) with (-52) by lia.
    destruct (shl_align_spec 4503599627370496 (-52) (-52)) as (m1 & E1 & Hm1).
    destruct (shl_align_spec m e (-52)) as (m2 & E2 & Hm2).
    replace (Z.min e (-52)) with (-52) in * by lia.
    rewrite E1, E2. simpl fst.
    assert (Zpos m1 = 2 ^ 52) as Hm1' by (rewrite Hm1; reflexivity).
    replace (e - -52) with (e + 52) in Hm2 by lia.
    unfold cond_Zopp.
    destruct (Zpos m1 - Zpos m2) as [|p|p] eqn:Hd; [done|lia|].
    simpl. unfold binary_round.
    destruct (shl_align p (-52) _) as [mz ez]. apply binary_round_aux_sign.
Qed.

Lemma of_int_sign (n : Z) (x : float) :
  0 ≤ n → Float.of_int n = Return x → not_negative x.
Proof.
  intros Hn. unfold Float.of_int, binary_normalize.
  destruct n as [|p|p]; [by intros [= <-]| |lia].
  unfold binary_round. destruct (shl_align _ _ _) as [mz ez].
  unfold binary_round_aux.
  destruct (shr_fexp _ _ _ _ _) as [mrs' e'].
  destruct (shr_fexp _ _ _ _ _) as [mrs'' e''].
  destruct (shr_m mrs''); [by intros [= <-]| |by intros [= <-]].
  destruct (e'' <=? Float.emax - Float.prec); [by intros [= <-]|done].
Qed.

Lemma to_int_not_positive (x : float) (t : Z) :
  not_positive x → Float.to_int x = Return t → t ≤ 0.
Proof.
  destruct x as [s|s| |s m e]; try done.
  - intros _ [= <-]. done.
  - destruct s; [|done]. intros _ [= <-]. unfold cond_Zopp.
    destruct e as [|e|e].
    + lia.
    + pose proof (pow2_pos (Zpos e) ltac:(lia)). nia.
    + pose proof (pow2_pos (Zpos e) ltac:(lia)).
      pose proof (Z.div_pos (Zpos m) (2 ^ Zpos e) ltac:(lia) ltac:(lia)). lia.
Qed.

Lemma mul_not_positive (x y : float) :
  not_negative x → not_positive y → not_positive (Float.mul x y).
Proof.
  unfold Float.mul, SFmul.
  destruct x as [sx|sx| |sx mx ex], y as [sy|sy| |sy my ey]; try done;
    try (by destruct sx, sy).
  destruct sx, sy; try done. intros _ _. apply binary_round_aux_sign.
Qed.

(** With a ratio of at least one, [max(1, int(n * (1 - ratio)))] is 1
    whenever it is defined. *)
Lemma split_index_at_least_one (n : Z) (r : float) (k : Z) :
  0 ≤ n → at_least_one r → split_index n r = Return k → k = 1.
Proof.
  intros Hn Hr Hk. apply split_index_inv in Hk as (x & t & Hx & Ht & ->).
  unfold Float.int_mul in Hx.
  destruct (Float.of_int n) as [fn|e] eqn:Hfn; [|by rewrite bind_Raise in Hx].
  rewrite bind_Return in Hx. injection Hx as <-.
  pose proof (of_int_sign n fn Hn Hfn) as Hs.
  pose proof (mul_not_positive fn _ Hs (one_minus_not_positive r Hr)) as Hnp.
  pose proof (to_int_not_positive _ _ Hnp Ht). lia.
Qed.

(** Rounding a number that is representable leaves it as it is. *)
Lemma binary_round_aux_exact (sx : bool) (N mx ex : Z) :
  0 < N < 2 ^ 53 → ex ≤ 0 → mx = N * 2 ^ (- ex) →
  ∃ m e, binary_round_aux 53 1024 sx mx ex loc_Exact = S754_finite sx m e ∧
         e ≤ 0 ∧ Zpos m = N * 2 ^ (- e).
Proof.
  intros HN Hex Hmx. unfold binary_round_aux, shr_fexp.
  set (s1 := fexp 53 1024 (Zdigits2 mx + ex) - ex).
  pose proof (pow2_pos (- ex) ltac:(lia)) as Hpex.
  assert (0 ≤ mx) as Hmx0 by nia.
  assert (mx < 2 ^ (53 - ex)) as Hlt.
  { replace (53 - ex) with (53 + - ex) by lia. rewrite pow2_split by lia. nia. }
  assert (Zdigits2 mx ≤ 53 - ex) as Hd by (apply Zdigits2_le; lia).
  pose proof (Zdigits2_nonneg mx) as Hd0.
  assert (ex + Z.max 0 s1 ≤ 0) as He1 by (unfold s1, fexp, emin; lia).
  destruct (shr_spec mx ex s1 loc_Exact Hmx0) as (st1 & -> & Hm1 & Hex1).
  set (t1 := Z.max 0 s1) in *. set (e1 := ex + t1) in *.
  pose proof (pow2_pos t1 ltac:(lia)) as Hpt1.
  pose proof (pow2_pos (- e1) ltac:(lia)) as Hpe1.
  assert (2 ^ (- ex) = 2 ^ (- e1) * 2 ^ t1) as Hsplit1.
  { rewrite <- pow2_split by lia. f_equal. lia. }
  assert (mx = N * 2 ^ (- e1) * 2 ^ t1) as Hmx' by (rewrite Hmx, Hsplit1; lia).
  assert (mx mod 2 ^ t1 = 0) as Hmod by (rewrite Hmx'; apply Z.mod_mul; lia).
  assert (shr_m st1 = N * 2 ^ (- e1)) as Hst1.
  { rewrite Hm1, Hmx'. apply Z.div_mul. lia. }
  rewrite (Hex1 eq_refl Hmod). cbn [round_nearest_even]. rewrite Hst1.
  set (m1 := N * 2 ^ (- e1)).
  set (s2 := fexp 53 1024 (Zdigits2 m1 + e1) - e1).
  assert (0 ≤ m1) as Hm10 by (unfold m1; nia).
  assert (m1 < 2 ^ (53 - e1)) as Hlt2.
  { replace (53 - e1) with (53 + - e1) by lia. rewrite pow2_split by lia.
    unfold m1. nia. }
  assert (Zdigits2 m1 ≤ 53 - e1) as Hd2 by (apply Zdigits2_le; lia).
  pose proof (Zdigits2_nonneg m1) as Hd20.
  assert (e1 + Z.max 0 s2 ≤ 0) as He2 by (unfold s2, fexp, emin; lia).
  destruct (shr_spec m1 e1 s2 loc_Exact Hm10) as (st2 & -> & Hm2 & _).
  set (t2 := Z.max 0 s2) in *. set (e2 := e1 + t2) in *.
  pose proof (pow2_pos t2 ltac:(lia)) as Hpt2.
  pose proof (pow2_pos (- e2) ltac:(lia)) as Hpe2.
  assert (2 ^ (- e1) = 2 ^ (- e2) * 2 ^ t2) as Hsplit2.
  { rewrite <- pow2_split by lia. f_equal. lia. }
  assert (shr_m st2 = N * 2 ^ (- e2)) as Hst2.
  { rewrite Hm2. unfold m1. rewrite Hsplit2, Z.mul_assoc. apply Z.div_mul. lia. }
  destruct (shr_m st2) as [|m2|m2] eqn:Em2; [nia| |nia].
  assert ((e2 <=? 1024 - 53) = true) as -> by lia.
  exists m2, e2. done.
Qed.

Lemma of_int_exact (n : Z) :
  0 < n < 2 ^ 53 →
  ∃ m e, Float.of_int n = Return (S754_finite false m e) ∧
         e ≤ 0 ∧ Zpos m = n * 2 ^ (- e).
Proof.
  intros Hn. unfold Float.of_int, binary_normalize.
  destruct n as [|p|p]; [lia| |lia]. unfold binary_round.
  destruct (shl_align_spec p 0 (fexp Float.prec Float.emax (Zpos (digits2_pos p) + 0)))
    as (mz & -> & Hmz).
  set (ez := Z.min 0 _) in *.
  destruct (binary_round_aux_exact false (Zpos p) (Zpos mz) ez Hn ltac:(lia))
    as (m & e & Hr & He & Hm).
  { rewrite Hmz. reflexivity. }
  fold Float.prec Float.emax in Hr. rewrite Hr. by exists m, e.
Qed.

(** [int(n * 1.0)] is [n]. *)
Lemma split_index_zero (n : Z) :
  0 < n < 2 ^ 53 → split_index n Float.zero = Return n.
Proof.
  intros Hn. unfold split_index, Float.int_mul.
  destruct (of_int_exact n Hn) as (m & e & -> & He & Hm). rewrite !bind_Return.
  change (Float.one_minus Float.zero) with Float.one.
  unfold Float.mul, Float.one, SFmul. simpl xorb.
  destruct (binary_round_aux_exact false n (Zpos (m * 4503599627370496)) (e + -52)
              Hn ltac:(lia)) as (m' & e' & Hr & He' & Hm').
  { rewrite Pos2Z.inj_mul, Hm. change (Zpos 4503599627370496) with (2 ^ 52).
    replace (- (e + -52)) with (- e + 52) by lia. rewrite pow2_split by lia. lia. }
  fold Float.prec Float.emax in Hr. rewrite Hr. simpl Float.to_int.
  rewrite bind_Return. unfold mret, result_ret. f_equal.
  destruct e' as [|e'|e'].
  - simpl in Hm'. lia.
  - lia.
  - change (- Zneg e') with (Zpos e') in Hm'. rewrite Hm'.
    rewrite Z.div_mul by (pose proof (pow2_pos (Zpos e') ltac:(lia)); lia). lia.
Qed.

End FloatSigns.

(** ** More on the split *)

Section SplitMore.
Context `{RT : Runtime} `{RG : RandomGen}.

(** A loop that returns has evaluated [split_index] at every group. *)
Lemma split_loop_Return_inv (m : gmap Z (list Row)) (rows : list Row) (r : float)
    (wids : list Z) (tr0 te0 : list Row) (g : rng)
    (s : list Row * list Row * rng) :
  (∀ w, w ∈ wids → m !! w = Some (samples_of w rows)) →
  for_each wids (tr0, te0, g) (split_writer m r) = Return s →
  ∀ w, w ∈ wids → returns (split_index (len (samples_of w rows)) r).
Proof.
  revert tr0 te0 g. induction wids as [|w0 ws IH]; intros tr0 te0 g Hm Hloop w Hw.
  { by apply elem_of_nil in Hw. }
  rewrite for_each_cons in Hloop.
  destruct (split_index (len (samples_of w0 rows)) r) as [k|e] eqn:Hk.
  - destruct (split_writer_spec m rows r tr0 te0 g w0 k
                (Hm w0 ltac:(left)) Hk) as (sh & g1 & _ & Hstep).
    rewrite Hstep, bind_Return in Hloop.
    apply elem_of_cons in Hw as [->|Hw]; [by eexists|].
    eapply IH; [|exact Hloop|done]. intros w' Hw'. apply Hm. by right.
  - by rewrite (split_writer_Raise m rows r tr0 te0 g w0 e
                  (Hm w0 ltac:(left)) Hk), bind_Raise in Hloop.
Qed.

(** The two lists that the loop builds are made of one segment per
    writer, in the order of the loop. *)
Lemma split_loop_grouped (m : gmap Z (list Row)) (rows : list Row) (r : float)
    (wids : list Z) (tr0 te0 train test : list Row) (g g' : rng) :
  (∀ w, w ∈ wids → m !! w = Some (samples_of w rows)) →
  for_each wids (tr0, te0, g) (split_writer m r) = Return (train, test, g') →
  ∃ ptr pte,
    train = tr0 ++ mjoin ptr ∧ test = te0 ++ mjoin pte ∧
    Forall2 (λ w p, Forall (λ x, py_int (writer_id x) = Some w) p) wids ptr ∧
    Forall2 (λ w p, Forall (λ x, py_int (writer_id x) = Some w) p) wids pte.
Proof.
  revert tr0 te0 g. induction wids as [|w0 ws IH]; intros tr0 te0 g Hm Hloop.
  { injection Hloop as <- <- <-. exists [], []. simpl. by rewrite !app_nil_r. }
  rewrite for_each_cons in Hloop.
  destruct (split_index (len (samples_of w0 rows)) r) as [k|e] eqn:Hk.
  - destruct (split_writer_spec m rows r tr0 te0 g w0 k
                (Hm w0 ltac:(left)) Hk) as (sh & g1 & Hsh & Hstep).
    rewrite Hstep, bind_Return in Hloop.
    destruct (IH _ _ _ (λ w Hw, Hm w ltac:(by right)) Hloop)
      as (ptr & pte & -> & -> & Htr & Hte).
    exists (slice_to sh k :: ptr), (slice_from sh k :: pte). simpl.
    rewrite <- !app_assoc. split_and!; try done.
    + constructor; [|done]. apply Forall_forall. intros x Hx.
      apply slice_to_elem_of in Hx. rewrite Hsh in Hx.
      by apply elem_of_samples_of in Hx as [Hx _].
    + constructor; [|done]. apply Forall_forall. intros x Hx.
      apply slice_from_elem_of in Hx. rewrite Hsh in Hx.
      by apply elem_of_samples_of in Hx as [Hx _].
  - by rewrite (split_writer_Raise m rows r tr0 te0 g w0 e
                  (Hm w0 ltac:(left)) Hk), bind_Raise in Hloop.
Qed.

Lemma grouped_sorted (wids : list Z) (parts : list (list Row)) :
  StronglySorted Z.lt wids →
  Forall2 (λ w p, Forall (λ x, py_int (writer_id x) = Some w) p) wids parts →
  StronglySorted Z.le (wid_of <$> mjoin parts) ∧
  Forall (λ x, ∃ w, w ∈ wids ∧ wid_of x = w) (mjoin parts).
Proof.
  intros Hs Hf. induction Hf as [|w p ws ps Hp Hf IH]; [split; constructor|].
  apply StronglySorted_inv in Hs as [Hs Hw]. destruct (IH Hs) as [IH1 IH2].
  simpl. split.
  - rewrite fmap_app. clear IH Hf. induction Hp as [|x p Hx Hp IHp]; [done|].
    simpl. constructor; [done|]. rewrite (wid_of_Some _ _ Hx).
    apply Forall_app. split.
    + apply Forall_fmap, Forall_forall. intros y Hy. simpl.
      rewrite (wid_of_Some _ _ (proj1 (Forall_forall _ _) Hp y Hy)). lia.
    + apply Forall_fmap, Forall_forall. intros y Hy. simpl.
      destruct (proj1 (Forall_forall _ _) IH2 y Hy) as (w' & Hw' & ->).
      pose proof (proj1 (Forall_forall _ _) Hw w' Hw'). lia.
  - apply Forall_app. split.
    + apply Forall_forall. intros x Hx. exists w. split; [left|].
      apply wid_of_Some. by apply (proj1 (Forall_forall _ _) Hp).
    + apply Forall_forall. intros x Hx.
      destruct (proj1 (Forall_forall _ _) IH2 x Hx) as (w' & Hw' & Heq).
      exists w'. split; [by right|done].
Qed.

(** What a returned split tells about the call. *)
Lemma stratified_split_Return_inv (rows : list Row) (r : float) (seed : Z)
    (train test : list Row) :
  stratified_split rows r seed = Return (train, test) →
  int_ids rows ∧
  (∀ w, samples_of w rows ≠ [] →
        returns (split_index (len (samples_of w rows)) r)) ∧
  StronglySorted Z.le (wid_of <$> train) ∧
  StronglySorted Z.le (wid_of <$> test).
Proof.
  unfold stratified_split.
  destruct (group_by_writer rows) as [m|e] eqn:Hg; [|by rewrite bind_Raise].
  rewrite bind_Return.
  pose proof (group_loop_Return rows ∅ m Hg) as Hids.
  destruct (group_by_writer_spec rows Hids) as (m' & Hg' & Hm).
  assert (m' = m) as -> by congruence.
  destruct (sorted_keys_spec m rows Hm) as [Hnd Hkeys].
  destruct (split_groups m _ r (Random seed)) as [[[tr te] g']|e] eqn:Hs;
    [|by rewrite bind_Raise].
  rewrite bind_Return. intros [= <- <-].
  assert (∀ w, w ∈ sorted_int (elements (dom m)) →
               m !! w = Some (samples_of w rows)) as Hm'.
  { intros w Hw%Hkeys. rewrite Hm. by destruct (samples_of w rows). }
  split; [done|]. split.
  - intros w Hw. eapply split_loop_Return_inv; [exact Hm'|exact Hs|].
    by apply Hkeys.
  - destruct (split_loop_grouped m rows r _ [] [] tr te _ g' Hm' Hs)
      as (ptr & pte & -> & -> & Htr & Hte).
    destruct (sorted_int_spec (elements (dom m)) (NoDup_elements _)) as [Hss _].
    simpl. split.
    + by apply (grouped_sorted _ ptr Hss).
    + by apply (grouped_sorted _ pte Hss).
Qed.

(** The content of a returned split, for any ratio. *)
Lemma stratified_split_Return_spec (rows : list Row) (r : float) (seed : Z)
    (train test : list Row) :
  stratified_split rows r seed = Return (train, test) →
  train ++ test ≡ₚ rows ∧
  ∀ w, samples_of w rows ≠ [] →
    ∃ sh k, sh ≡ₚ samples_of w rows ∧
            split_index (len (samples_of w rows)) r = Return k ∧
            samples_of w train = slice_to sh k ∧
            samples_of w test = slice_from sh k.
Proof.
  intros Hs. destruct (stratified_split_Return_inv _ _ _ _ _ Hs) as (Hids & Hret & _).
  destruct (stratified_split_spec rows r seed Hids Hret)
    as (train' & test' & Hs' & Hperm & Hw).
  rewrite Hs in Hs'. by injection Hs' as <- <-.
Qed.

(** X11: a [writer_id] that is not a numeral makes the split fail with
    [ValueError], whatever the ratio and the seed. *)
Theorem stratified_split_bad_writer_id (rows : list Row) (r : float) (seed : Z) :
  ¬ int_ids rows → stratified_split rows r seed = Raise ValueError.
Proof.
  intros Hids. unfold stratified_split.
  destruct (group_by_writer rows) as [m|e] eqn:Hg.
  - exfalso. apply Hids. by apply (group_loop_Return rows ∅ m).
  - destruct (group_loop_Raise rows ∅ e Hg) as [-> _]. by rewrite bind_Raise.
Qed.

(** X12: [train] and [test] each list their records by ascending writer
    id. *)
Theorem stratified_split_sorted_by_writer (rows : list Row) (r : float) (seed : Z)
    (train test : list Row) :
  stratified_split rows r seed = Return (train, test) →
  StronglySorted Z.le (wid_of <$> train) ∧ StronglySorted Z.le (wid_of <$> test).
Proof.
  intros Hs. by destruct (stratified_split_Return_inv _ _ _ _ _ Hs) as (_ & _ & ?).
Qed.

(** X13: with a ratio of one or more, every writer has exactly one record
    in [train] and the others in [test]. *)
Theorem stratified_split_ratio_at_least_one (rows : list Row) (r : float) (seed : Z)
    (train test : list Row) :
  at_least_one r → stratified_split rows r seed = Return (train, test) →
  ∀ w, samples_of w rows ≠ [] →
       len (samples_of w train) = 1 ∧
       len (samples_of w test) = len (samples_of w rows) - 1.
Proof.
  intros Hr Hs w Hw.
  destruct (stratified_split_Return_spec _ _ _ _ _ Hs) as [_ Hspec].
  destruct (Hspec w Hw) as (sh & k & Hsh & Hk & -> & ->).
  apply split_index_at_least_one in Hk as ->; [|apply len_nonneg|done].
  apply samples_of_len in Hw.
  assert (len sh = len (samples_of w rows)) as Hlen.
  { unfold len. by rewrite Hsh. }
  rewrite slice_to_length, slice_from_length by lia. lia.
Qed.

(** X14: with a ratio of zero every record goes to [train] and [test] is
    empty. *)
Theorem stratified_split_ratio_zero (rows : list Row) (r : float) (seed : Z) :
  int_ids rows → len rows < 2 ^ 53 → Float.eqb r Float.zero = true →
  ∃ train, stratified_split rows r seed = Return (train, []) ∧ train ≡ₚ rows.
Proof.
  intros Hids Hlen Hr.
  rewrite (stratified_split_ratio_ext rows r Float.zero seed (one_minus_eqb _ _ Hr)).
  assert (∀ w, samples_of w rows ≠ [] →
               split_index (len (samples_of w rows)) Float.zero
               = Return (len (samples_of w rows))) as Hidx.
  { intros w Hw. apply split_index_zero.
    pose proof (samples_of_len w rows) as [H1 H2]. apply H2 in Hw. lia. }
  destruct (stratified_split_spec rows Float.zero seed Hids)
    as (train & test & Hs & Hperm & Hw).
  { intros w Hne. rewrite (Hidx w Hne). by eexists. }
  assert (test = []) as ->.
  { destruct test as [|x test]; [done|]. exfalso.
    assert (x ∈ rows) as Hx.
    { rewrite <- Hperm. apply elem_of_app. right. left. }
    destruct (proj1 (Forall_forall _ _) Hids x Hx) as [w Hxw].
    assert (samples_of w rows ≠ []) as Hne.
    { intros Hnil. assert (x ∈ samples_of w rows) as Hin
        by (by apply elem_of_samples_of).
      rewrite Hnil in Hin. by apply elem_of_nil in Hin. }
    destruct (Hw w Hne) as (sh & k & Hsh & Hk & _ & Hte).
    rewrite (Hidx w Hne) in Hk. injection Hk as <-.
    assert (x ∈ samples_of w (x :: test)) as Hin.
    { apply elem_of_samples_of. split; [done|left]. }
    rewrite Hte in Hin.
    assert (len (slice_from sh (len (samples_of w rows))) = 0) as Hz.
    { assert (len sh = len (samples_of w rows)) as Hl by (unfold len; by rewrite Hsh).
      rewrite slice_from_length; [lia|]. pose proof (len_nonneg sh). lia. }
    destruct (slice_from sh _); [by apply elem_of_nil in Hin|].
    unfold len in Hz. simpl in Hz. lia. }
  exists train. split; [done|]. by rewrite app_nil_r in Hperm.
Qed.

End SplitMore.

(** ** Reading back what the writer wrote *)

Lemma bind_assoc {A B C} (m : result A) (f : A → result B) (g : B → result C) :
  (m ≫= f) ≫= g = m ≫= (λ a, f a ≫= g).
Proof. by destruct m. Qed.

Lemma split_lines_nonempty (s : str) : s ≠ [] → split_lines s ≠ [].
Proof.
  destruct s as [|c s]; [done|]. intros _. simpl.
  destruct (c =? 10)%N; [done|]. by destruct (split_lines s).
Qed.

Lemma read_records_cons_char (c : N) (l : str) (ls : list str) (rd : Reader) :
  read_records ((c :: l) :: ls) rd
  = (rd' ← parse_process_char rd (Some c); read_records (l :: ls) rd').
Proof.
  cbn [read_records]. unfold parse_line. rewrite for_each_cons.
  destruct (parse_process_char rd (Some c)) as [rd'|e]; [|done].
  by rewrite !bind_Return.
Qed.

(** A character other than the newline, before the end of the text. *)
Lemma run_cons (c : N) (s : str) (rd : Reader) :
  c ≠ 10%N → s ≠ [] →
  run (c :: s) rd = (rd' ← parse_process_char rd (Some c); run s rd').
Proof.
  intros Hc Hs. unfold run. cbn [split_lines].
  assert ((c =? 10)%N = false) as -> by (by apply N.eqb_neq).
  pose proof (split_lines_nonempty s Hs).
  destruct (split_lines s) as [|l ls]; [done|]. apply read_records_cons_char.
Qed.

(** A newline, which ends a line. *)
Lemma run_newline (s : str) (rd : Reader) :
  run (10%N :: s) rd
  = (rd ← parse_process_char rd (Some 10%N);
     rd ← parse_process_char rd None;
     if bool_decide (state rd = START_RECORD)
     then records ← run s (parse_reset rd); mret (fields rd :: records)
     else run s rd).
Proof.
  unfold run. cbn [split_lines]. simpl (10 =? 10)%N. cbn iota.
  cbn [read_records]. unfold parse_line. rewrite for_each_cons.
  destruct (parse_process_char rd (Some 10%N)) as [rd'|e]; [|done].
  rewrite !bind_Return. cbn [for_each]. unfold mret at 1, result_ret.
  by rewrite bind_Return.
Qed.

Lemma parse_add_char_ok (st : parser_state) (fs : list str) (f : str) (c : N) :
  len f < field_limit →
  parse_add_char (Build_Reader st fs f) c = Return (Build_Reader st fs (f ++ [c])).
Proof.
  intros Hf. unfold parse_add_char. cbn [field state fields].
  by assert ((field_limit <=? len f) = false) as -> by lia.
Qed.

Lemma length_app_len {A} (l k : list A) : len (l ++ k) = len l + len k.
Proof. unfold len. rewrite length_app. lia. Qed.

Lemma len_app_singleton {A} (f : list A) (c : A) : len (f ++ [c]) = len f + 1.
Proof. unfold len. rewrite length_app. simpl. lia. Qed.

Lemma len_snoc_app {A} (f s : list A) (c : A) :
  len (f ++ c :: s) = len ((f ++ [c]) ++ s).
Proof. by rewrite <- app_assoc. Qed.

Lemma plain_step (st : parser_state) (fs : list str) (f : str) (c : N) :
  plain c → len f < field_limit → st = START_FIELD ∨ st = IN_FIELD →
  parse_process_char (Build_Reader st fs f) (Some c)
  = Return (Build_Reader IN_FIELD fs (f ++ [c])).
Proof.
  intros (Hd & Hq & Hn & Hr) Hf Hst.
  assert (is_newline c = false) as Hnl.
  { unfold is_newline. apply orb_false_intro; by apply N.eqb_neq. }
  assert ((c =? quotechar)%N = false) as Hq' by (by apply N.eqb_neq).
  assert ((c =? delimiter)%N = false) as Hd' by (by apply N.eqb_neq).
  destruct Hst as [-> | ->]; unfold parse_process_char; cbn [state].
  - unfold start_field. rewrite Hnl, Hq', Hd', parse_add_char_ok by done. done.
  - rewrite Hnl, Hd', parse_add_char_ok by done. done.
Qed.

(** An unquoted field. *)
Lemma run_plain (s rest : str) (st : parser_state) (fs : list str) (f : str) :
  Forall plain s → rest ≠ [] → len (f ++ s) ≤ field_limit →
  st = START_FIELD ∨ st = IN_FIELD →
  run (s ++ rest) (Build_Reader st fs f)
  = run rest (Build_Reader (if s is [] then st else IN_FIELD) fs (f ++ s)).
Proof.
  intros Hs Hrest. revert st f.
  induction Hs as [|c s Hc Hs IH]; intros st f Hlen Hst.
  { by rewrite app_nil_r. }
  change ((c :: s) ++ rest) with (c :: (s ++ rest)).
  rewrite run_cons; [|by destruct Hc as (_ & _ & ? & _)|by destruct s].
  rewrite len_snoc_app in Hlen.
  rewrite plain_step; [|done| |done].
  2:{ rewrite length_app_len in Hlen. rewrite len_app_singleton in Hlen.
      pose proof (len_nonneg s). lia. }
  rewrite bind_Return, IH by auto. rewrite <- app_assoc. simpl.
  by destruct s.
Qed.

Lemma step_open_quote (fs : list str) (f : str) :
  parse_process_char (Build_Reader START_FIELD fs f) (Some quotechar)
  = Return (Build_Reader IN_QUOTED_FIELD fs f).
Proof. done. Qed.

Lemma step_close_quote (fs : list str) (f : str) :
  parse_process_char (Build_Reader IN_QUOTED_FIELD fs f) (Some quotechar)
  = Return (Build_Reader QUOTE_IN_QUOTED_FIELD fs f).
Proof. done. Qed.

Lemma step_second_quote (fs : list str) (f : str) :
  len f < field_limit →
  parse_process_char (Build_Reader QUOTE_IN_QUOTED_FIELD fs f) (Some quotechar)
  = Return (Build_Reader IN_QUOTED_FIELD fs (f ++ [quotechar])).
Proof.
  intros Hf. unfold parse_process_char. cbn [state].
  simpl (quotechar =? quotechar)%N. cbn iota.
  by rewrite parse_add_char_ok.
Qed.

Lemma step_quoted_char (fs : list str) (f : str) (c : N) :
  c ≠ quotechar → len f < field_limit →
  parse_process_char (Build_Reader IN_QUOTED_FIELD fs f) (Some c)
  = Return (Build_Reader IN_QUOTED_FIELD fs (f ++ [c])).
Proof.
  intros Hc Hf. unfold parse_process_char. cbn [state].
  assert ((c =? quotechar)%N = false) as -> by (by apply N.eqb_neq).
  by rewrite parse_add_char_ok.
Qed.

Lemma step_quoted_eol (fs : list str) (f : str) :
  parse_process_char (Build_Reader IN_QUOTED_FIELD fs f) None
  = Return (Build_Reader IN_QUOTED_FIELD fs f).
Proof. done. Qed.

Lemma step_delimiter (st : parser_state) (fs : list str) (f : str) :
  st = START_FIELD ∨ st = IN_FIELD ∨ st = QUOTE_IN_QUOTED_FIELD →
  parse_process_char (Build_Reader st fs f) (Some delimiter)
  = Return (Build_Reader START_FIELD (fs ++ [f]) []).
Proof. by intros [->|[->| ->]]. Qed.

Lemma step_newline (st : parser_state) (fs : list str) (f : str) :
  st = START_FIELD ∨ st = IN_FIELD ∨ st = QUOTE_IN_QUOTED_FIELD →
  parse_process_char (Build_Reader st fs f) (Some 10%N)
  = Return (Build_Reader EAT_CRNL (fs ++ [f]) []).
Proof. by intros [->|[->| ->]]. Qed.

Lemma step_eat_eol (fs : list str) (f : str) :
  parse_process_char (Build_Reader EAT_CRNL fs f) None
  = Return (Build_Reader START_RECORD fs f).
Proof. done. Qed.

Lemma double_quotes_cons (c : N) (s : str) :
  double_quotes (c :: s)
  = (if (c =? quotechar)%N then [quotechar; quotechar] else [c]) ++ double_quotes s.
Proof. done. Qed.

(** The content of a quoted field. *)
Lemma run_quoted (s rest : str) (fs : list str) (f : str) :
  rest ≠ [] → len (f ++ s) ≤ field_limit →
  run (double_quotes s ++ rest) (Build_Reader IN_QUOTED_FIELD fs f)
  = run rest (Build_Reader IN_QUOTED_FIELD fs (f ++ s)).
Proof.
  intros Hrest. revert f. induction s as [|c s IH]; intros f Hlen.
  { by rewrite app_nil_r. }
  rewrite len_snoc_app in Hlen.
  assert (len f < field_limit) as Hf.
  { rewrite length_app_len, len_app_singleton in Hlen.
    pose proof (len_nonneg s). lia. }
  assert (double_quotes s ++ rest ≠ []) as Hne.
  { destruct (double_quotes s); [done|done]. }
  rewrite double_quotes_cons.
  destruct (c =? quotechar)%N eqn:Hq.
  - apply N.eqb_eq in Hq as ->.
    change (([quotechar; quotechar] ++ double_quotes s) ++ rest)
      with (quotechar :: quotechar :: (double_quotes s ++ rest)).
    rewrite run_cons, step_close_quote, bind_Return by done.
    rewrite run_cons, step_second_quote, bind_Return by done.
    rewrite IH by done. by rewrite <- app_assoc.
  - apply N.eqb_neq in Hq.
    change (([c] ++ double_quotes s) ++ rest) with (c :: (double_quotes s ++ rest)).
    destruct (decide (c = 10%N)) as [->|Hc].
    + rewrite run_newline, step_quoted_char, bind_Return by done.
      rewrite step_quoted_eol, bind_Return. cbn [state].
      rewrite bool_decide_false by done.
      rewrite IH by done. by rewrite <- app_assoc.
    + rewrite run_cons, step_quoted_char, bind_Return by done.
      rewrite IH by done. by rewrite <- app_assoc.
Qed.

Lemma needs_quotes_false (s : str) : needs_quotes s = false → Forall plain s.
Proof.
  unfold needs_quotes. intros H%bool_decide_eq_false.
  apply Forall_forall. intros c Hc. unfold plain.
  assert (¬ (c = delimiter ∨ c = quotechar ∨ c ∈ lineterminator)) as Hn.
  { intros Hx. apply H. apply Exists_exists. by exists c. }
  unfold lineterminator in Hn. rewrite !elem_of_cons in Hn.
  split_and!; intros ->; apply Hn; auto.
Qed.

(** A field, as the writer renders it, up to the reader state in which
    its end is recognised. *)
Lemma run_field (f0 rest : str) (fs : list str) :
  rest ≠ [] → len f0 ≤ field_limit →
  ∃ st, (st = START_FIELD ∨ st = IN_FIELD ∨ st = QUOTE_IN_QUOTED_FIELD) ∧
    run (csv_field f0 ++ rest) (Build_Reader START_FIELD fs [])
    = run rest (Build_Reader st fs f0).
Proof.
  intros Hrest Hlen. unfold csv_field. destruct (needs_quotes f0) eqn:Hq.
  - exists QUOTE_IN_QUOTED_FIELD. split; [auto|].
    change (([quotechar] ++ double_quotes f0 ++ [quotechar]) ++ rest)
      with (quotechar :: ((double_quotes f0 ++ [quotechar]) ++ rest)).
    rewrite <- app_assoc.
    rewrite run_cons; [|done|by destruct (double_quotes f0)].
    rewrite step_open_quote, bind_Return, run_quoted by done. simpl ([] ++ f0).
    change ([quotechar] ++ rest) with (quotechar :: rest).
    by rewrite run_cons, step_close_quote, bind_Return by done.
  - apply needs_quotes_false in Hq.
    exists (if f0 is [] then START_FIELD else IN_FIELD).
    split; [destruct f0; auto|].
    rewrite run_plain; [|done|done|done|by left]. done.
Qed.

(** A field and the delimiter after it. *)
Lemma run_field_delimiter (f0 rest : str) (fs : list str) :
  rest ≠ [] → len f0 ≤ field_limit →
  run (csv_field f0 ++ delimiter :: rest) (Build_Reader START_FIELD fs [])
  = run rest (Build_Reader START_FIELD (fs ++ [f0]) []).
Proof.
  intros Hrest Hlen.
  destruct (run_field f0 (delimiter :: rest) fs) as (st & Hst & ->); [done|done|].
  by rewrite run_cons, step_delimiter, bind_Return by done.
Qed.

(** The last field of a record and the newline after it. *)
Lemma run_field_newline (f0 rest : str) (fs : list str) :
  len f0 ≤ field_limit →
  run (csv_field f0 ++ 10%N :: rest) (Build_Reader START_FIELD fs [])
  = (records ← run rest new_reader; mret ((fs ++ [f0]) :: records)).
Proof.
  intros Hlen.
  destruct (run_field f0 (10%N :: rest) fs) as (st & Hst & ->); [done|done|].
  by rewrite run_newline, step_newline, bind_Return, step_eat_eol, bind_Return.
Qed.

Lemma join_cons_ne (sep x : str) (xs : list str) :
  xs ≠ [] → join sep (x :: xs) = x ++ sep ++ join sep xs.
Proof. by destruct xs. Qed.

(** The fields of a record, from the second on. *)
Lemma run_fields (fs : list str) (fl rest : str) (acc : list str) :
  Forall (λ f, len f ≤ field_limit) (fs ++ [fl]) →
  run (join [delimiter] (csv_field <$> (fs ++ [fl])) ++ 10%N :: rest)
      (Build_Reader START_FIELD acc [])
  = (records ← run rest new_reader; mret ((acc ++ fs ++ [fl]) :: records)).
Proof.
  revert acc. induction fs as [|f fs IH]; intros acc Hlen.
  - simpl. apply run_field_newline. by inversion Hlen.
  - change ((f :: fs) ++ [fl]) with (f :: (fs ++ [fl])) in *.
    apply Forall_cons in Hlen as [Hf Hlen].
    rewrite fmap_cons, join_cons_ne by (by destruct fs).
    rewrite <- !app_assoc.
    change ([delimiter] ++ ?x) with (delimiter :: x).
    rewrite run_field_delimiter; [|by destruct (join _ _)|done].
    rewrite IH by done. by rewrite <- app_assoc.
Qed.

Lemma start_record_step (fs : list str) (f : str) (c : N) :
  is_newline c = false →
  parse_process_char (Build_Reader START_RECORD fs f) (Some c)
  = parse_process_char (Build_Reader START_FIELD fs f) (Some c).
Proof. intros Hc. unfold parse_process_char. cbn [state]. by rewrite Hc. Qed.

Lemma csv_field_head (f rest : str) :
  ∃ c s, csv_field f ++ delimiter :: rest = c :: s ∧ is_newline c = false.
Proof.
  unfold csv_field. destruct (needs_quotes f) eqn:Hq.
  - eexists _, _. split; [reflexivity|done].
  - apply needs_quotes_false in Hq. destruct Hq as [|c f (_ & _ & H10 & H13) _].
    + eexists _, _. split; [reflexivity|done].
    + exists c, (f ++ delimiter :: rest). split; [done|].
      unfold is_newline. apply orb_false_intro; by apply N.eqb_neq.
Qed.

(** A record of two fields or more is read back as it was written. *)
Lemma run_record (f1 f2 : str) (fs : list str) (rest : str) :
  Forall (λ f, len f ≤ field_limit) (f1 :: f2 :: fs) →
  run (csv_line_nl (f1 :: f2 :: fs) ++ rest) new_reader
  = (records ← run rest new_reader; mret ((f1 :: f2 :: fs) :: records)).
Proof.
  intros Hlen. unfold csv_line_nl. rewrite <- app_assoc.
  change ([10%N] ++ rest) with (10%N :: rest).
  assert (f2 :: fs ≠ []) as Hne by done.
  destruct (exists_last Hne) as (fs' & fl & Hfs). clear Hne.
  rewrite Hfs in *. apply Forall_cons in Hlen as [Hf1 Hlen].
  rewrite fmap_cons, join_cons_ne by (by destruct fs').
  rewrite <- !app_assoc. change ([delimiter] ++ ?x) with (delimiter :: x).
  set (tail := join [delimiter] (csv_field <$> fs' ++ [fl]) ++ 10%N :: rest).
  assert (tail ≠ []) as Htail by (unfold tail; by destruct (join _ _)).
  destruct (csv_field_head f1 tail) as (c & s & Hcs & Hc).
  assert (run (csv_field f1 ++ delimiter :: tail) new_reader
          = run (csv_field f1 ++ delimiter :: tail) (Build_Reader START_FIELD [] []))
    as ->.
  { rewrite Hcs. unfold new_reader.
    assert (c ≠ 10%N) as Hc10.
    { intros ->. done. }
    assert (s ≠ []) as Hs.
    { intros ->. destruct (csv_field f1) as [|? [|? ?]]; simplify_eq/=. }
    by rewrite !run_cons, start_record_step by done. }
  rewrite run_field_delimiter by done. unfold tail.
  by rewrite run_fields.
Qed.

(** A whole file of such records. *)
Lemma run_records (rows : list (list str)) :
  Forall (λ row, (2 ≤ length row)%nat ∧ Forall (λ f, len f ≤ field_limit) row) rows →
  run (mjoin (csv_line_nl <$> rows)) new_reader = Return rows.
Proof.
  induction 1 as [|row rows [Hw Hlen] _ IH]; [done|].
  rewrite fmap_cons. simpl mjoin.
  destruct row as [|f1 [|f2 fs]]; [simpl in Hw; lia|simpl in Hw; lia|].
  by rewrite run_record, IH.
Qed.

(** Universal newlines leave a text without carriage returns as it is. *)
Lemma universal_newlines_app (a b : str) :
  13%N ∉ a → universal_newlines (a ++ b) = a ++ universal_newlines b.
Proof.
  induction a as [|c a IH]; [done|]. intros Hc.
  apply not_elem_of_cons in Hc as [Hc Ha].
  change ((c :: a) ++ b) with (c :: (a ++ b)). cbn [universal_newlines].
  assert ((c =? 13)%N = false) as -> by (apply N.eqb_neq; congruence).
  by rewrite IH.
Qed.

Lemma universal_newlines_crlf (b : str) :
  universal_newlines (13%N :: 10%N :: b) = 10%N :: universal_newlines b.
Proof. done. Qed.

Lemma elem_of_double_quotes (c : N) (s : str) :
  c ∈ double_quotes s → c = quotechar ∨ c ∈ s.
Proof.
  induction s as [|x s IH]; [by intros ?%elem_of_nil|].
  rewrite double_quotes_cons, elem_of_app, elem_of_cons.
  destruct (x =? quotechar)%N; rewrite ?elem_of_cons, ?elem_of_nil; tauto.
Qed.

Lemma elem_of_csv_field (c : N) (s : str) :
  c ∈ csv_field s → c = quotechar ∨ c ∈ s.
Proof.
  unfold csv_field. destruct (needs_quotes s); [|auto].
  rewrite !elem_of_app, !list_elem_of_singleton.
  intros [->|[H| ->]]; auto. by apply elem_of_double_quotes.
Qed.

Lemma elem_of_join (c : N) (sep : str) (xs : list str) :
  c ∈ join sep xs → c ∈ sep ∨ ∃ x, x ∈ xs ∧ c ∈ x.
Proof.
  induction xs as [|x xs IH]; [by intros ?%elem_of_nil|].
  destruct xs as [|y xs].
  - simpl. intros H. right. exists x. split; [left|done].
  - rewrite join_cons_ne by done. rewrite !elem_of_app.
    intros [H|[H|H]]; [right; exists x; split; [left|done]|by left|].
    destruct (IH H) as [?|(z & Hz & Hc)]; [by left|].
    right. exists z. split; [by right|done].
Qed.

Lemma csv_line_universal_newlines (row : list str) (rest : str) :
  Forall (λ f, 13%N ∉ f) row →
  universal_newlines (csv_line row ++ rest)
  = csv_line_nl row ++ universal_newlines rest.
Proof.
  intros Hrow. unfold csv_line, csv_line_nl, lineterminator.
  rewrite <- !app_assoc. rewrite universal_newlines_app.
  - done.
  - intros [H|(x & (f & -> & Hf)%list_elem_of_fmap & Hx)]%elem_of_join.
    + by apply list_elem_of_singleton in H.
    + apply elem_of_csv_field in Hx as [Hx|Hx]; [done|].
      by apply (proj1 (Forall_forall _ _) Hrow f).
Qed.

Lemma csv_lines_universal_newlines (rows : list (list str)) :
  Forall (Forall (λ f, 13%N ∉ f)) rows →
  universal_newlines (mjoin (csv_line <$> rows)) = mjoin (csv_line_nl <$> rows).
Proof.
  induction 1 as [|row rows Hrow _ IH]; [done|].
  rewrite !fmap_cons. simpl mjoin.
  by rewrite csv_line_universal_newlines, IH.
Qed.

(** The reader returns the header and the records of a text that the
    writer produced. *)
Lemma csv_reader_csv_text (rows : list Row) :
  Forall portable rows →
  csv_reader (split_lines (universal_newlines (csv_text rows)))
  = Return (fieldnames :: (row_fields <$> rows)).
Proof.
  intros Hrows. unfold csv_text, csv_reader.
  assert (csv_line fieldnames ++ mjoin ((λ r, csv_line (row_fields r)) <$> rows)
          = mjoin (csv_line <$> (fieldnames :: (row_fields <$> rows)))) as ->.
  { rewrite fmap_cons. simpl mjoin. by rewrite <- list_fmap_compose. }
  assert (Forall (λ f, (13%N ∉ f) ∧ len f ≤ field_limit) fieldnames) as Hfn.
  { apply (bool_decide_unpack _). by vm_compute. }
  rewrite csv_lines_universal_newlines.
  - change (read_records (split_lines ?s) ?rd) with (run s rd).
    rewrite run_records; [done|]. constructor.
    + split; [simpl; lia|]. eapply Forall_impl; [exact Hfn|]. by intros f [_ ?].
    + apply Forall_fmap, Forall_forall. intros r Hr. simpl. split; [lia|].
      pose proof (proj1 (Forall_forall _ _) Hrows r Hr) as Hp.
      eapply Forall_impl; [exact Hp|]. by intros f [_ ?].
  - constructor.
    + eapply Forall_impl; [exact Hfn|]. by intros f [? _].
    + apply Forall_fmap, Forall_forall. intros r Hr. simpl.
      pose proof (proj1 (Forall_forall _ _) Hrows r Hr) as Hp.
      eapply Forall_impl; [exact Hp|]. by intros f [? _].
Qed.

Lemma DictReader_rows (rows : list Row) :
  DictReader (fieldnames :: (row_fields <$> rows)) = dict_of_row <$> rows.
Proof.
  unfold DictReader. rewrite filter_all.
  - rewrite <- list_fmap_compose. apply list_fmap_ext. by intros i [a b c] _.
  - by intros row (r & -> & _)%list_elem_of_fmap.
Qed.

(** ** UTF-8 *)

Lemma to_N_byte_of (n : N) : (n < 256)%N → Byte.to_N (byte_of n) = n.
Proof.
  intros Hn. unfold byte_of. destruct (Byte.of_N n) as [b|] eqn:Hb.
  - simpl. by apply Byte.to_of_N.
  - apply Byte.of_N_None_iff in Hb. lia.
Qed.

Lemma continuation_byte_of (n : N) :
  (n < 64)%N → continuation (byte_of (128 + n)) = Some n.
Proof.
  intros Hn. unfold continuation. rewrite to_N_byte_of by lia.
  assert ((128 <=? 128 + n)%N && (128 + n <=? 191)%N = true) as ->.
  { apply andb_true_intro. split; apply N.leb_le; lia. }
  f_equal. lia.
Qed.

Lemma utf8_decode_encode_char (c : N) (b : bytes) :
  scalar c →
  utf8_decode (utf8_encode_char c ++ b) = (c ::.) <$> utf8_decode b.
Proof.
  intros Hc. unfold utf8_encode_char.
  destruct (c <? 128)%N eqn:H1; [|destruct (c <? 2048)%N eqn:H2;
    [|destruct (c <? 65536)%N eqn:H3]].
  - apply N.ltb_lt in H1.
    change ([byte_of c] ++ b) with (byte_of c :: b). cbn [utf8_decode].
    rewrite to_N_byte_of by lia.
    by assert ((c <? 128)%N = true) as -> by (by apply N.ltb_lt).
  - apply N.ltb_ge in H1. apply N.ltb_lt in H2.
    pose proof (N.Div0.div_lt_upper_bound c 64 32 ltac:(lia)).
    pose proof (N.mod_upper_bound c 64 ltac:(lia)).
    pose proof (N.div_mod c 64 ltac:(lia)).
    assert (2 ≤ c / 64)%N.
    { apply N.div_le_lower_bound; lia. }
    change ([?x; ?y] ++ b) with (x :: y :: b). cbn [utf8_decode].
    rewrite to_N_byte_of by lia.
    assert ((192 + c / 64 <? 128)%N = false) as -> by (apply N.ltb_ge; lia).
    assert ((192 + c / 64 <? 194)%N = false) as -> by (apply N.ltb_ge; lia).
    assert ((192 + c / 64 <? 224)%N = true) as -> by (apply N.ltb_lt; lia).
    rewrite continuation_byte_of by done. cbn [mbind option_bind].
    do 2 f_equal. lia.
  - apply N.ltb_ge in H1, H2. apply N.ltb_lt in H3.
    pose proof (N.mod_upper_bound c 64 ltac:(lia)).
    pose proof (N.div_mod c 64 ltac:(lia)).
    pose proof (N.mod_upper_bound (c / 64) 64 ltac:(lia)).
    pose proof (N.div_mod (c / 64) 64 ltac:(lia)) as Hd2.
    rewrite N.Div0.div_div in Hd2. change (64 * 64)%N with 4096%N in Hd2.
    assert (c / 4096 < 16)%N by (apply N.Div0.div_lt_upper_bound; lia).
    change ([?x; ?y; ?z] ++ b) with (x :: y :: z :: b). cbn [utf8_decode].
    rewrite to_N_byte_of by lia.
    assert ((224 + c / 4096 <? 128)%N = false) as -> by (apply N.ltb_ge; lia).
    assert ((224 + c / 4096 <? 194)%N = false) as -> by (apply N.ltb_ge; lia).
    assert ((224 + c / 4096 <? 224)%N = false) as -> by (apply N.ltb_ge; lia).
    assert ((224 + c / 4096 <? 240)%N = true) as -> by (apply N.ltb_lt; lia).
    rewrite !continuation_byte_of by done. cbn [mbind option_bind].
    assert (((224 + c / 4096 - 224) * 4096 + (c / 64) mod 64 * 64 + c mod 64)%N = c)
      as -> by lia.
    assert ((c <? 2048)%N = false) as -> by (apply N.ltb_ge; lia).
    unfold scalar in Hc.
    assert ((55296 <=? c)%N && (c <=? 57343)%N = false) as ->.
    { apply andb_false_iff. destruct Hc as [Hc|[Hc _]];
        [left|right]; apply N.leb_gt; lia. }
    done.
  - apply N.ltb_ge in H1, H2, H3.
    assert (c ≤ 1114111)%N as Hmax by (unfold scalar in Hc; lia).
    pose proof (N.mod_upper_bound c 64 ltac:(lia)).
    pose proof (N.div_mod c 64 ltac:(lia)).
    pose proof (N.mod_upper_bound (c / 64) 64 ltac:(lia)).
    pose proof (N.div_mod (c / 64) 64 ltac:(lia)) as Hd2.
    rewrite N.Div0.div_div in Hd2. change (64 * 64)%N with 4096%N in Hd2.
    pose proof (N.mod_upper_bound (c / 4096) 64 ltac:(lia)).
    pose proof (N.div_mod (c / 4096) 64 ltac:(lia)) as Hd3.
    rewrite N.Div0.div_div in Hd3. change (4096 * 64)%N with 262144%N in Hd3.
    assert (c / 262144 < 5)%N by (apply N.Div0.div_lt_upper_bound; lia).
    change ([?x; ?y; ?z; ?t] ++ b) with (x :: y :: z :: t :: b). cbn [utf8_decode].
    rewrite to_N_byte_of by lia.
    assert ((240 + c / 262144 <? 128)%N = false) as -> by (apply N.ltb_ge; lia).
    assert ((240 + c / 262144 <? 194)%N = false) as -> by (apply N.ltb_ge; lia).
    assert ((240 + c / 262144 <? 224)%N = false) as -> by (apply N.ltb_ge; lia).
    assert ((240 + c / 262144 <? 240)%N = false) as -> by (apply N.ltb_ge; lia).
    assert ((240 + c / 262144 <? 245)%N = true) as -> by (apply N.ltb_lt; lia).
    rewrite !continuation_byte_of by done. cbn [mbind option_bind].
    assert (((240 + c / 262144 - 240) * 262144 + (c / 4096) mod 64 * 4096
             + (c / 64) mod 64 * 64 + c mod 64)%N = c) as -> by lia.
    assert ((c <? 65536)%N = false) as -> by (apply N.ltb_ge; lia).
    assert ((1114111 <? c)%N = false) as -> by (apply N.ltb_ge; lia).
    done.
Qed.

(** Decoding undoes encoding. *)
Lemma utf8_decode_encode (s : str) :
  Forall scalar s → utf8_decode (utf8_encode s) = Some s.
Proof.
  induction 1 as [|c s Hc _ IH]; [done|].
  unfold utf8_encode in *. cbn [mbind list_bind]. 
  change (utf8_decode (utf8_encode_char c ++ (s ≫= utf8_encode_char)) = Some (c :: s)).
  by rewrite utf8_decode_encode_char, IH.
Qed.

(** ** A split file read back *)

Lemma scalar_csv_line (row : list str) :
  Forall (Forall scalar) row → Forall scalar (csv_line row).
Proof.
  intros Hrow. apply Forall_forall. intros c. unfold csv_line, lineterminator.
  rewrite elem_of_app. intros [Hc|Hc].
  - apply elem_of_join in Hc as [Hc|(x & (f & -> & Hf)%list_elem_of_fmap & Hx)].
    + apply list_elem_of_singleton in Hc as ->. by left.
    + apply elem_of_csv_field in Hx as [->|Hx]; [by left|].
      by apply (proj1 (Forall_forall _ _) (proj1 (Forall_forall _ _) Hrow f Hf)).
  - rewrite !elem_of_cons in Hc. destruct Hc as [->|[->|[]%elem_of_nil]]; by left.
Qed.

Lemma scalar_csv_text (rows : list Row) :
  Forall storable rows → Forall scalar (csv_text rows).
Proof.
  intros Hrows. unfold csv_text. apply Forall_app. split.
  - apply scalar_csv_line. apply (bool_decide_unpack _). by vm_compute.
  - apply Forall_forall. intros c (l & Hc & (r & -> & Hr)%list_elem_of_fmap)%list_elem_of_join.
    revert c Hc. apply Forall_forall, scalar_csv_line.
    eapply Forall_impl; [exact (proj1 (Forall_forall _ _) Hrows r Hr)|].
    by intros f [? _].
Qed.

Lemma storable_portable (r : Row) : storable r → portable r.
Proof. intros H. eapply Forall_impl; [exact H|]. by intros f (_ & ? & ?). Qed.

Lemma mapM_as_row (rows : list Row) :
  mapM as_row (dict_of_row <$> rows) = Some rows.
Proof.
  induction rows as [|[f t i] rows IH]; [done|].
  rewrite fmap_cons. cbn [mapM]. rewrite IH. done.
Qed.

(** X15: a split file is loaded back as the records that were written to
    it: when a file holds the UTF-8 encoding of what [write_split_csv]
    wrote for [rows], [load_annotations] returns one dictionary per
    record, with the three fields of the record and nothing else. *)
Theorem write_split_csv_load_annotations
    (rows : list Row) (path : str) (w w' : world) (content : str) :
  Forall storable rows →
  written (snd (write_split_csv rows path w)) = written w ++ [(path, content)] →
  read_bytes w' path = Some (utf8_encode content) →
  load_annotations path w' = (Return (dict_of_row <$> rows), w') ∧
  mapM as_row (dict_of_row <$> rows) = Some rows.
Proof.
  intros Hrows Hwr Hb.
  assert (content = csv_text rows) as ->.
  { change (written w ++ [(path, csv_text rows)] = written w ++ [(path, content)])
      in Hwr.
    apply app_inv_head in Hwr. by injection Hwr as <-. }
  split; [|apply mapM_as_row]. unfold load_annotations.
  rewrite (io_bind_Return _ _ w' w' _ (path_read_bytes_Some _ _ _ Hb)).
  unfold lift at 1, decode.
  rewrite (utf8_decode_encode _ (scalar_csv_text rows Hrows)).
  rewrite (io_bind_Return _ _ w' w' (csv_text rows)) by done.
  unfold lift. rewrite (csv_reader_csv_text rows).
  - rewrite (io_bind_Return _ _ w' w' (fieldnames :: (row_fields <$> rows))) by done.
    by rewrite DictReader_rows.
  - eapply Forall_impl; [exact Hrows|]. apply storable_portable.
Qed.

Lemma load_annotations_world (p : str) (w : world) :
  snd (load_annotations p w) = w.
Proof.
  unfold load_annotations, mbind, io_bind, path_read_bytes, lift.
  destruct (read_bytes w p) as [b|]; [|done].
  destruct (decode b) as [s|e]; [|done].
  by destruct (csv_reader _).
Qed.

(** ** The keys of the loaded dictionaries *)

Lemma dict_get_set (k k' : option str) (v : pyval) (d : pydict) :
  dict_get k' (dict_set k v d) = if decide (k' = k) then Some v else dict_get k' d.
Proof.
  induction d as [|[k0 v0] d IH]; simpl.
  - by destruct (decide (k' = k)).
  - destruct (decide (k = k0)) as [->|Hk]; simpl.
    + by destruct (decide (k' = k0)).
    + rewrite IH. destruct (decide (k' = k0)) as [->|]; [|done].
      by rewrite decide_False by congruence.
Qed.

Lemma dict_get_zip (k : str) (names row : list str) (d : pydict) :
  is_Some (dict_get (Some k)
             (foldl (λ d kv, dict_set (Some kv.1) (VStr kv.2) d) d (zip names row)))
  ↔ is_Some (dict_get (Some k) d) ∨ k ∈ take (length row) names.
Proof.
  revert row d. induction names as [|n names IH]; intros row d.
  { simpl. rewrite take_nil, elem_of_nil. tauto. }
  destruct row as [|f row].
  { simpl. rewrite elem_of_nil. tauto. }
  simpl. rewrite IH, dict_get_set, elem_of_cons.
  destruct (decide (Some k = Some n)) as [[= ->]|Hne].
  - split; [auto|]. intros _. left. by eexists.
  - split; [intros [?|?]; auto|]. intros [?|[->|?]]; auto. done.
Qed.

Lemma dict_get_rest (k : str) (names : list str) (d : pydict) :
  is_Some (dict_get (Some k) (foldl (λ d key, dict_set (Some key) VNone d) d names))
  ↔ is_Some (dict_get (Some k) d) ∨ k ∈ names.
Proof.
  revert d. induction names as [|n names IH]; intros d.
  { simpl. rewrite elem_of_nil. tauto. }
  simpl. rewrite IH, dict_get_set, elem_of_cons.
  destruct (decide (Some k = Some n)) as [[= ->]|Hne].
  - split; [auto|]. intros _. left. by eexists.
  - split; [intros [?|?]; auto|]. intros [?|[->|?]]; auto. done.
Qed.

Lemma make_dict_keys (names row : list str) (k : str) :
  is_Some (dict_get (Some k) (make_dict names row)) ↔ k ∈ names.
Proof.
  unfold make_dict. destruct (length names <? length row)%nat eqn:Hlen.
  - apply Nat.ltb_lt in Hlen. rewrite dict_get_set.
    rewrite decide_False by done. rewrite dict_get_zip. simpl.
    rewrite take_ge by lia. split; [intros [[? [=]]|?]; done|auto].
  - apply Nat.ltb_ge in Hlen. rewrite dict_get_rest, dict_get_zip. simpl.
    rewrite <- (take_drop (length row) names) at 3. rewrite elem_of_app.
    split; [intros [[[? [=]]|?]|?]; auto|intros [?|?]; auto].
Qed.


(** ** The console *)

Lemma prints_ret {A} (a : A) : prints (mret a) a [].
Proof. intros isf rd out wr. by rewrite app_nil_r. Qed.

Lemma prints_print (s : str) : prints (print s) () [s ++ [10%N]].
Proof. done. Qed.

Lemma prints_bind {A B} (m : io A) (f : A → io B) (a : A) (b : B)
    (l1 l2 : list str) :
  prints m a l1 → prints (f a) b l2 → prints (m ≫= f) b (l1 ++ l2).
Proof.
  intros Hm Hf isf rd out wr.
  rewrite (io_bind_Return _ _ _ _ _ (Hm isf rd out wr)), Hf. by rewrite app_assoc.
Qed.

Lemma prints_for_each {A} (xs : list A) (body : () → A → io ()) (line : A → str) :
  (∀ x, prints (body () x) () [line x]) →
  prints (for_each xs () body) () (line <$> xs).
Proof.
  intros Hb. induction xs as [|x xs IH]; [apply prints_ret|].
  rewrite for_each_cons, fmap_cons.
  apply (prints_bind _ _ () () [line x] (line <$> xs)); [apply Hb|apply IH].
Qed.

Lemma prints_print_section (title : str) :
  prints (print_section title) () (section_lines title).
Proof.
  unfold print_section, section_lines.
  apply (prints_bind _ _ () () [_] [_; _]).
  { intros isf rd out wr. unfold print, print_end. by rewrite <- !app_assoc. }
  apply (prints_bind _ _ () () [_] [_]).
  { intros isf rd out wr. unfold print, print_end. by rewrite <- !app_assoc. }
  apply prints_print.
Qed.

Lemma prints_find_missing (rows : list Row) (isf : str → bool) rd out wr :
  find_missing rows (World isf rd out wr)
  = (Return (missing_names (World isf rd out wr) rows), World isf rd out wr).
Proof. apply find_missing_spec. Qed.


Section VerifyChecksums.
Context `{RT : Runtime}.

Lemma missing_names_nil (w : world) (rows : list Row) :
  missing_names w rows = [] →
  Forall (λ r, is_file w (in_base_dir (file_name r)) = true) rows.
Proof.
  unfold missing_names. intros H%fmap_nil_inv. apply Forall_forall. intros r Hr.
  destruct (is_file w (in_base_dir (file_name r))) eqn:Hf; [done|].
  assert (r ∈ filter (λ r, is_file w (in_base_dir (file_name r)) = false) rows) as Hin.
  { by apply list_elem_of_filter. }
  rewrite H in Hin. by apply elem_of_nil in Hin.
Qed.

(** X18: after a verification that passed, the checksum file has one line
    for [data.csv] and one for every record of the manifest, in its
    order. *)
Theorem verify_then_checksums (rows : list Row) (w w1 : world) (csv : bytes) :
  verify_images rows w = (Return true, w1) →
  read_bytes w CSV_PATH = Some csv →
  Forall (λ r, is_Some (read_bytes w (in_base_dir (file_name r)))) rows →
  ∃ w2,
    generate_checksums rows w1 = (Return (), w2) ∧
    written w2
    = written w1 ++
      [(in_base_dir (u "checksums.sha256"),
        join [10%N]
          ((sha256_hexdigest csv ++ u "  data.csv")
             :: ((λ r, sha256_hexdigest
                         (default [] (read_bytes w (in_base_dir (file_name r))))
                       ++ u "  " ++ file_name r) <$> rows))
          ++ [10%N])].
Proof.
  intros Hv Hcsv Hread.
  destruct (verify_images_spec rows w) as (w' & Hv' & Hisf & Hrd & Hwr).
  rewrite Hv in Hv'. injection Hv' as Hb <-. symmetry in Hb.
  apply bool_decide_eq_true in Hb. apply missing_names_nil in Hb.
  destruct (generate_checksums_spec rows w1) as (w2 & Hg & _ & _ & Hw2).
  assert (read_bytes w1 CSV_PATH = Some csv) as Hcsv1 by (by rewrite Hrd).
  rewrite Hcsv1 in Hg, Hw2.
  assert (images_readable w1 rows) as Hir.
  { unfold images_readable. rewrite Hrd. eapply Forall_impl; [exact Hread|]. auto. }
  rewrite decide_True in Hg by done. rewrite decide_True in Hw2 by done.
  exists w2. split; [done|]. rewrite Hw2. do 4 f_equal.
  unfold checksum_lines. rewrite Hisf, Hrd. rewrite filter_all; [done|].
  intros r Hr. by apply (proj1 (Forall_forall _ _) Hb).
Qed.

End VerifyChecksums.

(** ** The statistics on the console *)

Section MostCommonFacts.
Context {K : Type}.

Lemma insert_by_count_Permutation (x : K * Z) (l : list (K * Z)) :
  insert_by_count x l ≡ₚ x :: l.
Proof.
  induction l as [|y l IH]; [done|]. cbn [insert_by_count].
  destruct (x.2 <=? y.2); [|done]. rewrite IH. apply perm_swap.
Qed.

Lemma insert_by_count_sorted (x : K * Z) (l : list (K * Z)) :
  StronglySorted falling l → StronglySorted falling (insert_by_count x l).
Proof.
  induction 1 as [|y l Hl IH Hy]; [repeat constructor|]. cbn [insert_by_count].
  destruct (x.2 <=? y.2) eqn:Hxy.
  - constructor; [done|]. rewrite insert_by_count_Permutation.
    constructor; [|done]. unfold falling. lia.
  - constructor; [by constructor|]. constructor; [unfold falling; lia|].
    eapply Forall_impl; [exact Hy|]. unfold falling. intros z Hz. lia.
Qed.

Lemma insert_by_count_filter (x : K * Z) (l : list (K * Z)) (v : Z) :
  StronglySorted falling l →
  filter (λ y, y.2 = v) (insert_by_count x l)
  = filter (λ y, y.2 = v) l ++ filter (λ y, y.2 = v) [x].
Proof.
  induction 1 as [|y l Hl IH Hy]; [by rewrite app_nil_l|]. cbn [insert_by_count].
  destruct (x.2 <=? y.2) eqn:Hxy.
  - rewrite !filter_cons, IH. by destruct (decide (y.2 = v)).
  - rewrite (filter_cons _ x (y :: l)), (filter_cons _ x []), filter_nil.
    destruct (decide (x.2 = v)) as [Hx|Hx]; [|by rewrite app_nil_r].
    rewrite (filter_none _ (y :: l)); [done|].
    intros z Hz Hzv. apply elem_of_cons in Hz as [->|Hz]; [lia|].
    pose proof (proj1 (Forall_forall _ _) Hy z Hz) as Hyz. unfold falling in Hyz. lia.
Qed.

Lemma by_count_snoc (c : list (K * Z)) (x : K * Z) :
  by_count (c ++ [x]) = insert_by_count x (by_count c).
Proof. unfold by_count. by rewrite foldl_app. Qed.

(** Sorting by count is stable. *)
Lemma by_count_spec (c : list (K * Z)) :
  by_count c ≡ₚ c ∧ StronglySorted falling (by_count c) ∧
  ∀ v, filter (λ y, y.2 = v) (by_count c) = filter (λ y, y.2 = v) c.
Proof.
  induction c as [|x c (IH1 & IH2 & IH3)] using rev_ind.
  { split_and!; [done|constructor|done]. }
  rewrite by_count_snoc. split_and!.
  - rewrite insert_by_count_Permutation, IH1. by rewrite Permutation_cons_append. 
  - by apply insert_by_count_sorted.
  - intros v. rewrite insert_by_count_filter, filter_app, IH3 by done. done.
Qed.

End MostCommonFacts.

Lemma prints_exists_print_statistics (stats : Statistics) :
  ∃ lines, prints (print_statistics stats) ()
             (lines ++ (char_line <$> most_common 20 (char_freq stats))).
Proof.
  assert (∀ m l1 l2, prints m () l1 →
            ∀ k, (∃ lines, prints k () (lines ++ l2)) →
                 ∃ lines, prints (m;; k) () (lines ++ l2)) as Hseq.
  { intros m l1 l2 Hm k [lines Hk]. exists (l1 ++ lines). rewrite <- app_assoc.
    by apply (prints_bind _ _ () ()). }
  unfold print_statistics.
  do 12 (eapply Hseq; [first [apply prints_print_section|apply prints_print]|]).
  destruct (german_chars_present stats) eqn:Hpres,
    (german_chars_missing stats) eqn:Hmiss;
    (eapply Hseq; [first [apply prints_ret|apply prints_print]|]);
    (eapply Hseq; [apply prints_print|]);
    (eapply Hseq; [apply prints_print_section|]);
    (eapply Hseq;
       [apply (prints_for_each _ _ (writer_line stats)); intros wid ????;
        unfold print_writer, print, print_end, writer_line;
        by rewrite <- !app_assoc|]);
    (eapply Hseq; [apply prints_print_section|]);
    exists []; apply (prints_for_each _ _ char_line); intros [ch fr] ????;
    unfold print_char, print, print_end, char_line; simpl fst; simpl snd;
    by rewrite <- !app_assoc.
Qed.


(** ** The files that a procedure writes *)

Section OnDisk.
Context (isf : str → bool) (rd : str → option bytes).

Lemma on_disk_prints_only {A} (m : io A) (a : A) :
  prints_only m a → on_disk isf rd m (Return a) [].
Proof.
  intros Hm out wr. destruct (Hm isf rd out wr) as [out' ->].
  exists out'. by rewrite app_nil_r.
Qed.

Lemma on_disk_lift {A} (r : result A) : on_disk isf rd (lift r) r [].
Proof. intros out wr. exists out. by rewrite app_nil_r. Qed.

Lemma on_disk_ret {A} (a : A) : on_disk isf rd (mret a) (Return a) [].
Proof. intros out wr. exists out. by rewrite app_nil_r. Qed.

Lemma on_disk_bind {A B} (m : io A) (f : A → io B) (a : A) (r : result B)
    (l1 l2 : list (str * str)) :
  on_disk isf rd m (Return a) l1 → on_disk isf rd (f a) r l2 →
  on_disk isf rd (m ≫= f) r (l1 ++ l2).
Proof.
  intros Hm Hf out wr. destruct (Hm out wr) as [out1 H1].
  destruct (Hf out1 (wr ++ l1)) as [out2 H2]. exists out2.
  rewrite (io_bind_Return _ _ _ _ _ H1), H2. by rewrite app_assoc.
Qed.

Lemma on_disk_bind_nil {A B} (m : io A) (f : A → io B) (a : A) (r : result B)
    (l : list (str * str)) :
  on_disk isf rd m (Return a) [] → on_disk isf rd (f a) r l →
  on_disk isf rd (m ≫= f) r l.
Proof. intros Hm Hf. by apply (on_disk_bind m f a r [] l). Qed.

Lemma on_disk_bind_Raise {A B} (m : io A) (f : A → io B) (e : exn)
    (l : list (str * str)) :
  on_disk isf rd m (Raise e) l → on_disk isf rd (m ≫= f) (Raise e) l.
Proof.
  intros Hm out wr. destruct (Hm out wr) as [out1 H1]. exists out1.
  by rewrite (io_bind_Raise _ _ _ _ _ H1).
Qed.

Lemma on_disk_write_split_csv (rows : list Row) (path : str) :
  on_disk isf rd (write_split_csv rows path) (Return ()) [(path, csv_text rows)].
Proof. intros out wr. by eexists. Qed.

Lemma on_disk_verify_images (rows : list Row) :
  ∃ b, on_disk isf rd (verify_images rows) (Return b) [].
Proof.
  exists (bool_decide (missing_names (World isf rd [] []) rows = [])).
  intros out wr.
  destruct (verify_images_spec rows (World isf rd out wr))
    as ([isf' rd' out' wr'] & Hv & Hisf & Hrd & Hwr).
  simpl in *. subst. exists out'. rewrite Hv, app_nil_r.
  by rewrite (missing_names_disk isf rd rd out [] wr []).
Qed.

Lemma on_disk_unique {A} (m : io A) (r1 r2 : result A)
    (l1 l2 : list (str * str)) :
  on_disk isf rd m r1 l1 → on_disk isf rd m r2 l2 → r1 = r2 ∧ l1 = l2.
Proof.
  intros H1 H2. destruct (H1 [] []) as [o1 E1], (H2 [] []) as [o2 E2].
  rewrite E1 in E2. by injection E2 as -> _ ->.
Qed.

End OnDisk.

Lemma prints_only_print_statistics (stats : Statistics) :
  prints_only (print_statistics stats) ().
Proof.
  unfold print_statistics.
  repeat (eapply prints_only_bind;
          [first [apply prints_only_print_section | apply prints_only_print]|]).
  eapply prints_only_bind.
  { destruct (german_chars_present stats);
      [apply prints_only_ret|apply prints_only_print]. }
  eapply prints_only_bind.
  { destruct (german_chars_missing stats); apply prints_only_print. }
  eapply prints_only_bind; [apply prints_only_print_section|].
  eapply prints_only_bind.
  { apply prints_only_for_each. intros wid. apply prints_only_print. }
  eapply prints_only_bind; [apply prints_only_print_section|].
  apply prints_only_for_each. intros [c n]. apply prints_only_print.
Qed.

Section MainEffects.
Context `{RT : Runtime} `{RG : RandomGen}.
Context (isf : str → bool) (rd : str → option bytes).

Lemma on_disk_generate_checksums (rows : list Row) :
  on_disk isf rd (generate_checksums rows)
    (match rd CSV_PATH with
     | Some _ => if decide (images_readable (World isf rd [] []) rows)
                 then Return () else Raise OSError
     | None => Raise OSError
     end)
    (match rd CSV_PATH with
     | Some csv => if decide (images_readable (World isf rd [] []) rows)
                   then [checksum_file isf rd csv rows] else []
     | None => []
     end).
Proof.
  intros out wr.
  destruct (generate_checksums_spec rows (World isf rd out wr))
    as ([isf' rd' out' wr'] & Hg & Hisf & Hrd & Hwr).
  simpl in *. subst. exists out'. rewrite Hg. clear Hg.
  change (images_readable (World isf rd out wr) rows)
    with (images_readable (World isf rd [] []) rows) in *.
  change (checksum_lines (World isf rd out wr) rows)
    with (checksum_lines (World isf rd [] []) rows) in *.
  destruct (rd CSV_PATH) as [csv|]; [|by rewrite app_nil_r].
  destruct (decide (images_readable (World isf rd [] []) rows));
    [done|by rewrite app_nil_r].
Qed.

Lemma on_disk_print_share (label : str) (n total : Z) :
  ∃ r, on_disk isf rd (print_share label n total) r [] ∧
       (0 ≤ 100 * n < 2 ^ 1023 → 0 < total → r = Return ()).
Proof.
  unfold print_share. destruct (Float.int_true_div (100 * n) total) as [x|e] eqn:Hx.
  - exists (Return ()). split; [|done].
    eapply on_disk_bind_nil; [apply on_disk_lift|].
    apply on_disk_prints_only, prints_only_print.
  - exists (Raise e). split.
    + apply on_disk_bind_Raise, on_disk_lift.
    + intros Ha Hb. destruct (int_true_div_returns (100 * n) total Ha Hb) as [x Hx'].
      congruence.
Qed.

Lemma on_disk_split_step (rows : list Row) :
  ∃ r l, on_disk isf rd (split_step rows) r l ∧
    match stratified_split rows TEST_RATIO RANDOM_SEED with
    | Return (train, test) =>
        l = split_files train test ∧
        (rows ≠ [] → len rows < 2 ^ 53 → r = Return ())
    | Raise e => l = [] ∧ r = Raise e
    end.
Proof.
  unfold split_step.
  destruct (stratified_split rows TEST_RATIO RANDOM_SEED) as [[train test]|e] eqn:Hs.
  - destruct (on_disk_print_share ([10%N] ++ u "  Train : ") (len train) (len rows))
      as (r1 & H1 & Hr1).
    destruct (on_disk_print_share (u "  Test  : ") (len test) (len rows))
      as (r2 & H2 & Hr2).
    assert (len train + len test = len rows) as Hlen.
    { destruct (stratified_split_Return_spec _ _ _ _ _ Hs) as [Hp _].
      unfold len. rewrite <- Hp, length_app. lia. }
    pose proof (len_nonneg train). pose proof (len_nonneg test).
    assert (2 ^ 53 * 100 < 2 ^ 1023) as Hbig by (by vm_compute).
    assert (rows ≠ [] → 0 < len rows) as Hpos.
    { unfold len. destruct rows; [done|]. simpl. lia. }
    exists (match r1 with Return _ => r2 | Raise e1 => Raise e1 end),
      (split_files train test). split.
    + eapply on_disk_bind_nil;
        [apply on_disk_prints_only, prints_only_print_section|].
      eapply on_disk_bind_nil; [apply on_disk_lift|]. cbv beta iota.
      apply (on_disk_bind _ _ _ _ () _ [_] [_]); [apply on_disk_write_split_csv|].
      apply (on_disk_bind _ _ _ _ () _ [_] []); [apply on_disk_write_split_csv|].
      destruct r1 as [[]|e1].
      * eapply on_disk_bind_nil; [exact H1|exact H2].
      * apply on_disk_bind_Raise. exact H1.
    + split; [done|]. intros Hne Hlt.
      rewrite Hr1, Hr2 by (try apply Hpos; try done; lia). done.
  - exists (Raise e), []. split; [|done].
    eapply on_disk_bind_nil; [apply on_disk_prints_only, prints_only_print_section|].
    apply on_disk_bind_Raise. apply on_disk_lift.
Qed.

End MainEffects.

(** ** main *)

Section MainTheorems.
Context `{RT : Runtime} `{RG : RandomGen}.

Lemma on_disk_verify_step (isf : str → bool) (rd : str → option bytes)
    (flag : bool) (rows : list Row) :
  on_disk isf rd (if flag then verify_images rows;; mret () else mret ())
    (Return ()) [].
Proof.
  destruct flag; [|apply on_disk_ret].
  destruct (on_disk_verify_images isf rd rows) as [b Hb].
  eapply on_disk_bind_nil; [exact Hb|apply on_disk_ret].
Qed.

(** The effect of the optional steps that follow the statistics. *)
Lemma on_disk_tail (isf : str → bool) (rd : str → option bytes)
    (args : Args) (rows : list Row) :
  ∃ r1 l1,
    on_disk isf rd (if split args then split_step rows else mret ()) r1 l1 ∧
    on_disk isf rd
      ((if split args then split_step rows else mret ());;
       (if checksums args then generate_checksums rows else mret ()))
      (match r1 with
       | Return _ =>
           if checksums args
           then match rd CSV_PATH with
                | Some _ => if decide (images_readable (World isf rd [] []) rows)
                            then Return () else Raise OSError
                | None => Raise OSError
                end
           else Return ()
       | Raise e => Raise e
       end)
      (l1 ++ match r1 with
             | Return _ =>
                 if checksums args
                 then match rd CSV_PATH with
                      | Some csv =>
                          if decide (images_readable (World isf rd [] []) rows)
                          then [checksum_file isf rd csv rows] else []
                      | None => []
                      end
                 else []
             | Raise e => []
             end).
Proof.
  assert (∃ r1 l1, on_disk isf rd (if split args then split_step rows else mret ())
                     r1 l1) as (r1 & l1 & H1).
  { destruct (split args).
    - destruct (on_disk_split_step isf rd rows) as (r & l & H & _). by exists r, l.
    - exists (Return ()), []. apply on_disk_ret. }
  exists r1, l1. split; [done|]. destruct r1 as [[]|e].
  - eapply on_disk_bind; [exact H1|]. destruct (checksums args).
    + apply on_disk_generate_checksums.
    + apply on_disk_ret.
  - rewrite app_nil_r. by apply on_disk_bind_Raise.
Qed.

Lemma on_disk_main_rows (isf : str → bool) (rd : str → option bytes)
    (args : Args) (rows : list Row) (stats : Statistics) :
  compute_statistics rows = Return stats →
  ∃ r1 l1,
    on_disk isf rd (if split args then split_step rows else mret ()) r1 l1 ∧
    on_disk isf rd (main_rows args rows)
      (tail_result isf rd args rows r1) (l1 ++ tail_files isf rd args rows r1).
Proof.
  intros Hs. destruct (on_disk_tail isf rd args rows) as (r1 & l1 & H1 & Ht).
  exists r1, l1. split; [done|]. unfold main_rows. rewrite Hs.
  eapply on_disk_bind_nil; [apply on_disk_lift|].
  eapply on_disk_bind_nil;
    [apply on_disk_prints_only, prints_only_print_statistics|].
  eapply on_disk_bind_nil; [apply on_disk_verify_step|]. exact Ht.
Qed.

Lemma main_rows_Raise (args : Args) (rows : list Row) (e : exn) (w : world) :
  compute_statistics rows = Raise e → main_rows args rows w = (Raise e, w).
Proof. intros Hs. unfold main_rows. rewrite Hs. done. Qed.

(** X20: a run that finds no manifest, cannot load it or cannot compute
    its statistics ends with an exception and leaves the world as it
    was: nothing on standard output, no file written. *)
Theorem main_early_failure (base_dir : str) (args : Args) (w : world) :
  is_file w CSV_PATH = false ∨
  (∃ e, fst (load_annotations CSV_PATH w) = Raise e) ∨
  (∃ ds rows e, fst (load_annotations CSV_PATH w) = Return ds ∧
                mapM as_row ds = Some rows ∧
                compute_statistics rows = Raise e) →
  ∃ ex e, main base_dir args w = Some ex ∧ outcome ex = Raise e ∧ final ex = w.
Proof.
  intros H. unfold main. destruct (is_file w CSV_PATH) eqn:Hf; simpl.
  2:{ by eexists _, _. }
  pose proof (load_annotations_world CSV_PATH w) as Hw.
  destruct (load_annotations CSV_PATH w) as [[ds|e] w']; simpl in Hw; subst w'.
  - destruct H as [H|[[e H]|(ds' & rows & e & Hds & Hrows & Hs)]]; [done|done|].
    simpl in Hds. injection Hds as <-. rewrite Hrows. simpl.
    rewrite (main_rows_Raise args rows e w Hs). by eexists _, _.
  - by eexists _, _.
Qed.

(** X21: without [--split] and [--checksums], [main] writes no file. *)
Theorem main_read_only (base_dir : str) (args : Args) (w : world) (ex : Exit) :
  split args = false → checksums args = false →
  main base_dir args w = Some ex → same_files w (final ex).
Proof.
  intros Hsplit Hsums. unfold main. destruct (is_file w CSV_PATH) eqn:Hf; simpl.
  2:{ by intros [= <-]. }
  pose proof (load_annotations_world CSV_PATH w) as Hw.
  destruct (load_annotations CSV_PATH w) as [[ds|e] w']; simpl in Hw; subst w'.
  2:{ by intros [= <-]. }
  destruct (mapM as_row ds) as [rows|]; [|done]. simpl.
  destruct (compute_statistics rows) as [stats|e] eqn:Hs.
  - destruct (on_disk_main_rows (is_file w) (read_bytes w) args rows stats Hs)
      as (r1 & l1 & H1 & Hm).
    rewrite Hsplit in H1.
    destruct (on_disk_unique _ _ _ _ _ _ _ H1 (on_disk_ret _ _ ())) as [-> ->].
    unfold tail_result, tail_files in Hm. rewrite Hsums in Hm.
    destruct (Hm (stdout w) (written w)) as [out' Hout]. destruct w as [isf rd out wr].
    simpl in *. rewrite Hout. intros [= <-]. simpl. by rewrite app_nil_r.
  - rewrite (main_rows_Raise args rows e w Hs). by intros [= <-].
Qed.


Lemma test_ratio_in_unit_interval : Float.in_unit_interval TEST_RATIO.
Proof. by split_and!. Qed.

Lemma dataset_size_len (rows : list Row) : len rows ≤ dataset_size rows.
Proof.
  unfold dataset_size. pose proof (sum_lengths_nonneg (text <$> rows)). lia.
Qed.

(** The split of a manifest that [main] can process. *)
Lemma main_split_returns (rows : list Row) :
  int_ids rows → len rows < 2 ^ 53 →
  ∃ train test, stratified_split rows TEST_RATIO RANDOM_SEED = Return (train, test).
Proof.
  intros Hids Hlen.
  destruct (stratified_split_spec rows TEST_RATIO RANDOM_SEED Hids)
    as (train & test & Hs & _).
  - intros w Hw.
    destruct (split_index_group rows TEST_RATIO w Hlen
                test_ratio_in_unit_interval Hw) as (k & Hk & _).
    by exists k.
  - by exists train, test.
Qed.

(** How a run with [--split] goes on a manifest that can be processed. *)
Lemma main_split_run (base_dir : str) (args : Args) (w : world)
    (ds : list pydict) (rows : list Row) :
  is_file w CSV_PATH = true →
  fst (load_annotations CSV_PATH w) = Return ds → mapM as_row ds = Some rows →
  rows ≠ [] → int_ids rows → dataset_size rows < 2 ^ 53 →
  split args = true →
  ∃ train test ex,
    stratified_split rows TEST_RATIO RANDOM_SEED = Return (train, test) ∧
    main base_dir args w = Some ex ∧
    outcome ex = tail_result (is_file w) (read_bytes w) args rows (Return ()) ∧
    is_file (final ex) = is_file w ∧ read_bytes (final ex) = read_bytes w ∧
    written (final ex)
    = written w ++ split_files train test
        ++ tail_files (is_file w) (read_bytes w) args rows (Return ()).
Proof.
  intros Hf Hload Hrows Hne Hids Hsize Hsplit.
  pose proof (dataset_size_len rows) as Hlen.
  destruct (main_split_returns rows Hids ltac:(lia)) as (train & test & Hs).
  exists train, test.
  assert (2 ^ 53 < 2 ^ 1023) as Hbig by (by vm_compute).
  destruct (compute_statistics_spec rows Hne Hids ltac:(lia)) as (stats & Hstats & _).
  destruct (on_disk_main_rows (is_file w) (read_bytes w) args rows stats Hstats)
    as (r1 & l1 & H1 & Hm).
  rewrite Hsplit in H1.
  destruct (on_disk_split_step (is_file w) (read_bytes w) rows)
    as (r & l & H & Hspec).
  destruct (on_disk_unique _ _ _ _ _ _ _ H1 H) as [-> ->].
  rewrite Hs in Hspec. destruct Hspec as [-> Hr].
  rewrite (Hr Hne ltac:(lia)) in Hm.
  destruct (Hm (stdout w) (written w)) as [out' Hout].
  unfold main. rewrite Hf. simpl.
  pose proof (load_annotations_world CSV_PATH w) as Hw.
  destruct (load_annotations CSV_PATH w) as [[ds'|e] w']; simpl in *; [|done].
  subst w'. injection Hload as ->. rewrite Hrows. simpl.
  destruct w as [isf rd out wr]. simpl in *. rewrite Hout.
  eexists. split; [done|]. split; [reflexivity|]. simpl. done.
Qed.



End MainTheorems.

(** * Examples, witnesses and counterexamples

    All on the instances of [Example]: the decimal parser, the stand-in
    digest and the linear congruential generator. *)

Section Instances.
Import Example.

(** The scenario of the specification: writer 1 has two records and
    [max(1, int(2 * 0.8)) = 1] of them in [train]; writer 2 has one
    record, which is in [train]. *)
Example scenario_split :
  stratified_split rows3 TEST_RATIO RANDOM_SEED
  = Return ([strasse; schoen], [mueller]).
Proof. by vm_compute. Qed.

Example scenario_statistics :
  ∃ s, compute_statistics rows3 = Return s ∧
       total_images s = 3 ∧ writer_counts s = [(1, 2); (2, 1)] ∧
       german_chars_present s = [223; 246; 252]%N ∧
       german_chars_missing s = [196; 214; 220; 228]%N.
Proof. eexists. split; [by vm_compute|]. by vm_compute. Qed.

(** The int 1 converts to [Float.one]. *)
Example of_int_one : Float.of_int 1 = Return Float.one.
Proof. by vm_compute. Qed.

(** [5 * (1 - 0.2)] is [4.0] in binary64. *)
Example split_index_default : split_index 5 TEST_RATIO = Return 4.
Proof. by vm_compute. Qed.

(** The arithmetic is that of binary64: [1 - 2 ** -54] rounds to [1.0],
    so that both of two records go to [train]. *)
Example split_index_tiny_ratio :
  Float.in_unit_interval f_tiny ∧ split_index 2 f_tiny = Return 2.
Proof. by vm_compute. Qed.

Example verify_images_disk :
  (verify_images rows3 disk).1 = Return false ∧
  (find_missing rows3 disk).1 = Return [file_name mueller].
Proof. by vm_compute. Qed.

Example generate_checksums_disk :
  written (generate_checksums rows3 disk).2
  = [(u "checksums.sha256",
      join [10%N]
        [u "digest42  data.csv";
         u "digest42  german_hw_data/w1_strasse.png";
         u "digest42  german_hw_data/w2_schoen.png"] ++ [10%N])].
Proof. by vm_compute. Qed.


(** Witness of C2. *)
Lemma stratified_split_partition_witness :
  int_ids rows3 ∧ len rows3 < 2 ^ 53 ∧ Float.in_unit_interval TEST_RATIO ∧
  ∃ train test,
    stratified_split rows3 TEST_RATIO RANDOM_SEED = Return (train, test) ∧
    train ++ test ≡ₚ rows3 ∧
    (NoDup rows3 → ∀ r, r ∈ train → r ∉ test).
Proof.
  assert (int_ids rows3) as Hids by (repeat constructor; by eexists).
  assert (len rows3 < 2 ^ 53) as Hlen by (by vm_compute).
  assert (Float.in_unit_interval TEST_RATIO) as Hr by (by vm_compute).
  split_and!; [done|done|done|].
  exact (stratified_split_partition rows3 TEST_RATIO RANDOM_SEED Hids Hlen Hr).
Defined.


(** Counterexample to C4: on no records the exception is a [ValueError],
    not an [EmptyDatasetError]. *)
Lemma compute_statistics_empty_error :
  compute_statistics [] = Raise ValueError ∧
  compute_statistics [] ≠ Raise EmptyDatasetError.
Proof. split; [reflexivity|]. by vm_compute. Qed.

(** Counterexample to C5: the ratio [1.5] is outside (0, 1) and the call
    returns a split. *)
Lemma stratified_split_accepts_ratio_1_5 :
  ¬ Float.in_unit_interval f_1_5 ∧
  stratified_split rows3 f_1_5 RANDOM_SEED
  = Return ([strasse; schoen], [mueller]).
Proof.
  split; [|by vm_compute]. intros (_ & _ & Hlt). by vm_compute in Hlt.
Qed.

(** Witness of C5 (as amended): a call that fails. *)
Lemma stratified_split_never_InvalidRatioError_witness :
  stratified_split [strasse; mueller] S754_nan RANDOM_SEED = Raise ValueError ∧
  (ValueError = ValueError ∨ ValueError = OverflowError) ∧
  ValueError ≠ InvalidRatioError.
Proof.
  assert (stratified_split [strasse; mueller] S754_nan RANDOM_SEED
          = Raise ValueError) as Hraise by (by vm_compute).
  split; [done|].
  exact (stratified_split_never_InvalidRatioError _ _ _ _ Hraise).
Defined.

(** Witness of C6. *)
Lemma compute_statistics_invariants_witness :
  rows3 ≠ [] ∧ int_ids rows3 ∧ dataset_size rows3 < 2 ^ 1023 ∧
  ∃ s, compute_statistics rows3 = Return s ∧
       total_images s = len rows3 ∧
       py_sum (values (writer_counts s)) = total_images s ∧
       german_chars_present s ++ german_chars_missing s
       ≡ₚ [196; 214; 220; 223; 228; 246; 252]%N ∧
       (∀ c, c ∈ german_chars_present s → c ∉ german_chars_missing s) ∧
       (∀ c, c ∈ german_chars_present s ↔
             c ∈ GERMAN_SPECIAL ∧ ∃ r, r ∈ rows3 ∧ c ∈ text r).
Proof.
  assert (rows3 ≠ []) as Hne by done.
  assert (int_ids rows3) as Hids by (repeat constructor; by eexists).
  assert (dataset_size rows3 < 2 ^ 1023) as Hsize by (by vm_compute).
  split_and!; [done|done|done|].
  exact (compute_statistics_invariants rows3 Hne Hids Hsize).
Defined.


(** Witness of C8: the image of [schoen] exists on [locked_disk] and
    cannot be read. *)
Lemma generate_checksums_unreadable_witness :
  (read_bytes locked_disk CSV_PATH = None ∨
   (∃ r, r ∈ rows3 ∧ is_file locked_disk (in_base_dir (file_name r)) = true ∧
         read_bytes locked_disk (in_base_dir (file_name r)) = None)) ∧
  ∃ w', generate_checksums rows3 locked_disk = (Raise OSError, w') ∧
        written w' = written locked_disk.
Proof.
  assert (read_bytes locked_disk CSV_PATH = None ∨
          (∃ r, r ∈ rows3 ∧
                is_file locked_disk (in_base_dir (file_name r)) = true ∧
                read_bytes locked_disk (in_base_dir (file_name r)) = None))
    as Hfail.
  { right. exists schoen. split_and!; [|done|by vm_compute].
    unfold rows3. do 2 right. left. }
  split; [done|].
  exact (generate_checksums_unreadable rows3 locked_disk Hfail).
Defined.




(** The statistics of the three records. *)
Example statistics_rows3 : compute_statistics rows3 = Return stats3.
Proof. by vm_compute. Qed.

(** The manifest of the project directory is loaded as the three
    records. *)
Example load_annotations_project :
  load_annotations CSV_PATH project_disk
  = (Return (dict_of_row <$> rows3), project_disk).
Proof. by vm_compute. Qed.

(** A label with a comma is quoted and one with a quote doubled; a line
    break inside quotes belongs to the field. *)
Example csv_line_quoting :
  csv_line [u "a,b"; [34; 120; 34]%N; u "plain"]
  = [34; 97; 44; 98; 34; 44; 34; 34; 34; 120; 34; 34; 34; 44;
     112; 108; 97; 105; 110; 13; 10]%N ∧
  csv_reader [[34; 97; 10]%N; [98; 34; 44; 99; 10]%N]
  = Return [[[97; 10; 98]%N; [99]%N]].
Proof. by vm_compute. Qed.

(** A carriage return in a label does not survive the way to the disk
    and back: the universal newlines of the reading side turn it into a
    line feed. *)
Example carriage_return_lost :
  let r := {| file_name := u "a.png"; text := [13]%N; writer_id := u "1" |} in
  csv_reader (split_lines (universal_newlines (csv_text [r])))
  = Return [fieldnames; [u "a.png"; [10]%N; u "1"]].
Proof. by vm_compute. Qed.

(** [format(x, ".1f")] rounds the exact value, ties to even: [0.25] gives
    ["0.2"] and [0.75] gives ["0.8"]. *)
Example format_1f_ties :
  format_1f (S754_finite false 4503599627370496 (-54)) = u "0.2" ∧
  format_1f (S754_finite false 6755399441055744 (-53)) = u "0.8" ∧
  format_1f f_1_5 = u "1.5".
Proof. by vm_compute. Qed.

(** A run with the three flags on the project directory writes the two
    split files and the checksum file, in this order. *)
Example main_project :
  option_map (λ ex, (outcome ex, (written (final ex)).*1))
    (main base_dir all_flags project_disk)
  = Some (Return (), [u "train.csv"; u "test.csv"; u "checksums.sha256"]).
Proof. by vm_compute. Qed.

(** Without a manifest the run ends with [SystemExit] and one line on the
    standard error. *)
Example main_no_manifest :
  main base_dir all_flags empty_disk
  = Some {| outcome := Raise SystemExit;
            final := empty_disk;
            stderr := [u "Error: /srv/dhsd/data.csv not found." ++ [10%N]] |}.
Proof. by vm_compute. Qed.

(** Witness of X1. *)
Lemma compute_statistics_writer_counts_witness :
  compute_statistics rows3 = Return stats3 ∧
  keys (writer_counts stats3) = first_occurrences (wid_of <$> rows3) ∧
  NoDup (keys (writer_counts stats3)) ∧
  total_writers stats3 = len (writer_counts stats3) ∧
  ∀ w n, (w, n) ∈ writer_counts stats3 ↔ 1 ≤ n ∧ n = len (samples_of w rows3).
Proof.
  assert (compute_statistics rows3 = Return stats3) as Hs by (by vm_compute).
  split; [done|]. exact (compute_statistics_writer_counts rows3 stats3 Hs).
Defined.

(** Witness of X2. *)
Lemma compute_statistics_writer_ids_sorted_witness :
  compute_statistics rows3 = Return stats3 ∧
  StronglySorted Z.lt (writer_ids_sorted stats3) ∧
  (∀ w, w ∈ writer_ids_sorted stats3 ↔ samples_of w rows3 ≠ []) ∧
  len (writer_ids_sorted stats3) = total_writers stats3.
Proof.
  assert (compute_statistics rows3 = Return stats3) as Hs by (by vm_compute).
  split; [done|]. exact (compute_statistics_writer_ids_sorted rows3 stats3 Hs).
Defined.

(** Witness of X3. *)
Lemma compute_statistics_words_per_writer_witness :
  compute_statistics rows3 = Return stats3 ∧
  (∀ w, samples_of w rows3 ≠ [] →
        1 ≤ min_words_per_writer stats3 ≤ len (samples_of w rows3) ∧
        len (samples_of w rows3) ≤ max_words_per_writer stats3) ∧
  (∃ w, len (samples_of w rows3) = min_words_per_writer stats3) ∧
  (∃ w, len (samples_of w rows3) = max_words_per_writer stats3) ∧
  Float.int_true_div (total_images stats3) (total_writers stats3)
  = Return (avg_words_per_writer stats3).
Proof.
  assert (compute_statistics rows3 = Return stats3) as Hs by (by vm_compute).
  split; [done|]. exact (compute_statistics_words_per_writer rows3 stats3 Hs).
Defined.

(** Witness of X4. *)
Lemma compute_statistics_word_lengths_witness :
  compute_statistics rows3 = Return stats3 ∧
  (∀ r, r ∈ rows3 → min_word_length stats3 ≤ len (text r) ≤ max_word_length stats3) ∧
  (∃ r, r ∈ rows3 ∧ len (text r) = min_word_length stats3) ∧
  (∃ r, r ∈ rows3 ∧ len (text r) = max_word_length stats3) ∧
  Float.int_true_div (py_sum (len <$> (text <$> rows3))) (total_images stats3)
  = Return (avg_word_length stats3).
Proof.
  assert (compute_statistics rows3 = Return stats3) as Hs by (by vm_compute).
  split; [done|]. exact (compute_statistics_word_lengths rows3 stats3 Hs).
Defined.

(** Witness of X5. *)
Lemma compute_statistics_char_freq_witness :
  compute_statistics rows3 = Return stats3 ∧
  keys (char_freq stats3) = first_occurrences (mjoin (text <$> rows3)) ∧
  (∀ c n, (c, n) ∈ char_freq stats3 ↔
          c ∈ mjoin (text <$> rows3) ∧ n = count_of c (mjoin (text <$> rows3))) ∧
  py_sum (values (char_freq stats3)) = py_sum (len <$> (text <$> rows3)).
Proof.
  assert (compute_statistics rows3 = Return stats3) as Hs by (by vm_compute).
  split; [done|]. exact (compute_statistics_char_freq rows3 stats3 Hs).
Defined.

(** Witness of X6. *)
Lemma compute_statistics_unique_words_witness :
  compute_statistics rows3 = Return stats3 ∧
  unique_words stats3 = len (first_occurrences (text <$> rows3)) ∧
  1 ≤ unique_words stats3 ≤ total_images stats3 ∧
  (unique_words stats3 = total_images stats3 ↔ NoDup (text <$> rows3)).
Proof.
  assert (compute_statistics rows3 = Return stats3) as Hs by (by vm_compute).
  split; [done|]. exact (compute_statistics_unique_words rows3 stats3 Hs).
Defined.

(** Witness of X7. *)
Lemma compute_statistics_german_chars_witness :
  compute_statistics rows3 = Return stats3 ∧
  (∀ c, c ∈ german_chars_present stats3 ↔
        c ∈ GERMAN_SPECIAL ∧ ∃ r, r ∈ rows3 ∧ c ∈ text r) ∧
  (∀ c, c ∈ german_chars_missing stats3 ↔
        c ∈ GERMAN_SPECIAL ∧ ∀ r, r ∈ rows3 → c ∉ text r) ∧
  StronglySorted N.lt (german_chars_present stats3) ∧
  StronglySorted N.lt (german_chars_missing stats3).
Proof.
  assert (compute_statistics rows3 = Return stats3) as Hs by (by vm_compute).
  split; [done|]. exact (compute_statistics_german_chars rows3 stats3 Hs).
Defined.

(** Witness of X8: the second record has the writer id [w7]. *)
Lemma compute_statistics_bad_writer_id_witness :
  ¬ int_ids [strasse; unsigned] ∧
  compute_statistics [strasse; unsigned] = Raise ValueError.
Proof.
  assert (¬ int_ids [strasse; unsigned]) as Hids.
  { intros H. apply Forall_cons_1 in H as [_ H].
    apply Forall_cons_1 in H as [[z Hz] _]. by vm_compute in Hz. }
  split; [done|]. exact (compute_statistics_bad_writer_id [strasse; unsigned] Hids).
Defined.

(** Witness of X9, on the empty manifest. *)
Lemma compute_statistics_failures_witness :
  compute_statistics [] = Raise ValueError ∧
  (ValueError = ValueError ∧ (@nil Row = [] ∨ ¬ int_ids []) ∨
   ValueError = OverflowError ∧ 2 ^ 1023 ≤ dataset_size []).
Proof.
  assert (compute_statistics [] = Raise ValueError) as Hs by (by vm_compute).
  split; [done|]. exact (compute_statistics_failures [] ValueError Hs).
Defined.

(** Witness of X10: the first two records exchanged. *)
Lemma compute_statistics_Permutation_witness :
  rows3 ≡ₚ [mueller; strasse; schoen] ∧
  compute_statistics rows3 = Return stats3 ∧
  ∃ s', compute_statistics [mueller; strasse; schoen] = Return s' ∧
    total_images s' = total_images stats3 ∧
    total_writers s' = total_writers stats3 ∧
    unique_words s' = unique_words stats3 ∧
    writer_counts s' ≡ₚ writer_counts stats3 ∧
    min_words_per_writer s' = min_words_per_writer stats3 ∧
    max_words_per_writer s' = max_words_per_writer stats3 ∧
    avg_words_per_writer s' = avg_words_per_writer stats3 ∧
    german_chars_present s' = german_chars_present stats3 ∧
    german_chars_missing s' = german_chars_missing stats3 ∧
    char_freq s' ≡ₚ char_freq stats3 ∧
    avg_word_length s' = avg_word_length stats3 ∧
    min_word_length s' = min_word_length stats3 ∧
    max_word_length s' = max_word_length stats3 ∧
    writer_ids_sorted s' = writer_ids_sorted stats3.
Proof.
  assert (rows3 ≡ₚ [mueller; strasse; schoen]) as Hp by apply perm_swap.
  assert (compute_statistics rows3 = Return stats3) as Hs by (by vm_compute).
  split_and!; [done|done|].
  exact (compute_statistics_Permutation rows3 _ stats3 Hp Hs).
Defined.

(** Witness of X11. *)
Lemma stratified_split_bad_writer_id_witness :
  ¬ int_ids [strasse; unsigned] ∧
  stratified_split [strasse; unsigned] TEST_RATIO RANDOM_SEED = Raise ValueError.
Proof.
  assert (¬ int_ids [strasse; unsigned]) as Hids.
  { intros H. apply Forall_cons_1 in H as [_ H].
    apply Forall_cons_1 in H as [[z Hz] _]. by vm_compute in Hz. }
  split; [done|].
  exact (stratified_split_bad_writer_id [strasse; unsigned] TEST_RATIO RANDOM_SEED
           Hids).
Defined.

(** Witness of X12, on the manifest with writer 2 first. *)
Lemma stratified_split_sorted_by_writer_witness :
  stratified_split [schoen; strasse; mueller] TEST_RATIO RANDOM_SEED
  = Return ([strasse; schoen], [mueller]) ∧
  StronglySorted Z.le (wid_of <$> [strasse; schoen]) ∧
  StronglySorted Z.le (wid_of <$> [mueller]).
Proof.
  assert (stratified_split [schoen; strasse; mueller] TEST_RATIO RANDOM_SEED
          = Return ([strasse; schoen], [mueller])) as Hs by (by vm_compute).
  split; [done|].
  exact (stratified_split_sorted_by_writer _ TEST_RATIO RANDOM_SEED _ _ Hs).
Defined.

(** Witness of X13, at the ratio [1.0]. *)
Lemma stratified_split_ratio_at_least_one_witness :
  at_least_one Float.one ∧
  stratified_split rows3 Float.one RANDOM_SEED
  = Return ([strasse; schoen], [mueller]) ∧
  ∀ w, samples_of w rows3 ≠ [] →
       len (samples_of w [strasse; schoen]) = 1 ∧
       len (samples_of w [mueller]) = len (samples_of w rows3) - 1.
Proof.
  assert (at_least_one Float.one) as Hr by (by vm_compute).
  assert (stratified_split rows3 Float.one RANDOM_SEED
          = Return ([strasse; schoen], [mueller])) as Hs by (by vm_compute).
  split_and!; [done|done|].
  exact (stratified_split_ratio_at_least_one rows3 Float.one RANDOM_SEED _ _ Hr Hs).
Defined.

(** Witness of X14, at the negative zero. *)
Lemma stratified_split_ratio_zero_witness :
  int_ids rows3 ∧ len rows3 < 2 ^ 53 ∧
  Float.eqb (S754_zero true) Float.zero = true ∧
  ∃ train, stratified_split rows3 (S754_zero true) RANDOM_SEED = Return (train, []) ∧
           train ≡ₚ rows3.
Proof.
  assert (int_ids rows3) as Hids by (repeat constructor; by eexists).
  assert (len rows3 < 2 ^ 53) as Hlen by (by vm_compute).
  assert (Float.eqb (S754_zero true) Float.zero = true) as Hr by reflexivity.
  split_and!; [done|done|done|].
  exact (stratified_split_ratio_zero rows3 (S754_zero true) RANDOM_SEED Hids Hlen Hr).
Defined.

(** Witness of X15: the three records written as [data.csv] and read
    from the project directory, which holds that file. *)
Lemma write_split_csv_load_annotations_witness :
  Forall storable rows3 ∧
  written (snd (write_split_csv rows3 CSV_PATH disk))
  = written disk ++ [(CSV_PATH, csv_text rows3)] ∧
  read_bytes project_disk CSV_PATH = Some (utf8_encode (csv_text rows3)) ∧
  load_annotations CSV_PATH project_disk
  = (Return (dict_of_row <$> rows3), project_disk) ∧
  mapM as_row (dict_of_row <$> rows3) = Some rows3.
Proof.
  assert (Forall storable rows3) as Hrows
    by (apply (bool_decide_unpack _); by vm_compute).
  assert (written (snd (write_split_csv rows3 CSV_PATH disk))
          = written disk ++ [(CSV_PATH, csv_text rows3)]) as Hwr by reflexivity.
  assert (read_bytes project_disk CSV_PATH = Some (utf8_encode (csv_text rows3)))
    as Hrd by reflexivity.
  split_and!; [done|done|done|..];
    apply (write_split_csv_load_annotations rows3 CSV_PATH disk project_disk
             (csv_text rows3) Hrows Hwr Hrd).
Defined.


(** Witness of X18, in the project directory. *)
Lemma verify_then_checksums_witness :
  verify_images rows3 project_disk
  = (Return true, (verify_images rows3 project_disk).2) ∧
  read_bytes project_disk CSV_PATH = Some (utf8_encode (csv_text rows3)) ∧
  Forall (λ r, is_Some (read_bytes project_disk (in_base_dir (file_name r)))) rows3 ∧
  ∃ w2,
    generate_checksums rows3 (verify_images rows3 project_disk).2
    = (Return (), w2) ∧
    written w2
    = written (verify_images rows3 project_disk).2 ++
      [(in_base_dir (u "checksums.sha256"),
        join [10%N]
          ((sha256_hexdigest (utf8_encode (csv_text rows3)) ++ u "  data.csv")
             :: ((λ r, sha256_hexdigest
                         (default []
                            (read_bytes project_disk (in_base_dir (file_name r))))
                       ++ u "  " ++ file_name r) <$> rows3))
          ++ [10%N])].
Proof.
  assert (verify_images rows3 project_disk
          = (Return true, (verify_images rows3 project_disk).2)) as Hv
    by (by vm_compute).
  assert (read_bytes project_disk CSV_PATH = Some (utf8_encode (csv_text rows3)))
    as Hcsv by reflexivity.
  assert (Forall (λ r, is_Some (read_bytes project_disk
                                  (in_base_dir (file_name r)))) rows3) as Hrd
    by (repeat constructor; by eexists).
  split_and!; [done|done|done|].
  exact (verify_then_checksums rows3 project_disk _ _ Hv Hcsv Hrd).
Defined.

(** Witness of X20, in a directory without a manifest. *)
Lemma main_early_failure_witness :
  (is_file empty_disk CSV_PATH = false ∨
   (∃ e, fst (load_annotations CSV_PATH empty_disk) = Raise e) ∨
   (∃ ds rows e, fst (load_annotations CSV_PATH empty_disk) = Return ds ∧
                 mapM as_row ds = Some rows ∧
                 compute_statistics rows = Raise e)) ∧
  ∃ ex e, main base_dir all_flags empty_disk = Some ex ∧
          outcome ex = Raise e ∧ final ex = empty_disk.
Proof.
  assert (is_file empty_disk CSV_PATH = false ∨
          (∃ e, fst (load_annotations CSV_PATH empty_disk) = Raise e) ∨
          (∃ ds rows e, fst (load_annotations CSV_PATH empty_disk) = Return ds ∧
                        mapM as_row ds = Some rows ∧
                        compute_statistics rows = Raise e)) as H
    by (left; reflexivity).
  split; [done|]. exact (main_early_failure base_dir all_flags empty_disk H).
Defined.

(** Witness of X21: a run with [--verify] alone. *)
Lemma main_read_only_witness :
  split verify_only = false ∧ checksums verify_only = false ∧
  ∃ ex, main base_dir verify_only project_disk = Some ex ∧
        same_files project_disk (final ex).
Proof.
  assert (split verify_only = false) as Hsplit by reflexivity.
  assert (checksums verify_only = false) as Hsums by reflexivity.
  assert (∃ ex, main base_dir verify_only project_disk = Some ex) as [ex Hex]
    by (eexists; by vm_compute).
  split_and!; [done|done|]. exists ex. split; [done|].
  exact (main_read_only base_dir verify_only project_disk ex Hsplit Hsums Hex).
Defined.



End Instances.
